(** * A shallow embedding of the warehouse simulation

    The development follows [warehouse/warehouse.py] and [warehouse/robot.py].
    Python integers are [Z]; Python lists are [list]; a position [[row, column]]
    is a pair; an operation that may raise returns a [res], whose [Err] names
    the exception Python raises.  The two global pseudo-random modules the
    program draws from ([numpy.random] and [random]) are external libraries:
    they are taken as an interface, with their states threaded explicitly. *)

From Stdlib Require Import ZArith QArith Lia.
From stdpp Require Import base option numbers list.

Local Open Scope Z_scope.

(** ** Exceptions and results *)

Inductive exn : Set :=
| IndexError
| KeyError
| UnboundLocalError
| ZeroDivisionError
| ValueError
| AttributeError
| TypeError.

Inductive res (A : Type) : Type :=
| Ok (a : A)
| Err (e : exn).

Arguments Ok {A} a.
Arguments Err {A} e.

#[global] Instance res_ret : MRet res := fun A a => Ok a.
#[global] Instance res_bind : MBind res := fun A B f m =>
  match m with
  | Ok a => f a
  | Err e => Err e
  end.

(** ** Python and numpy primitives used by the program *)

Definition Pos : Type := Z * Z.

(** Python's [%] and [//] on integers are [Z.modulo] and [Z.div] (both
    floor), except that a zero divisor raises. *)
Definition py_mod (a b : Z) : res Z :=
  if decide (b = 0) then Err ZeroDivisionError else Ok (a `mod` b).

(** Number of elements of [range(start, stop, step)] and of
    [np.arange(start, stop, step)] on integers, for a non-zero step:
    the ceiling of [(stop - start) / step], or [0] when that is negative. *)
Definition range_len (start stop step : Z) : Z :=
  Z.max 0 (- ((start - stop) `div` step)).

Definition range_elems (start stop step : Z) : list Z :=
  (fun i => start + i * step) <$> seqZ 0 (range_len start stop step).

(** [range(start, stop, step)]; a zero step raises [ValueError]. *)
Definition py_range3 (start stop step : Z) : res (list Z) :=
  if decide (step = 0) then Err ValueError
  else Ok (range_elems start stop step).

(** [range(n)]. *)
Definition py_range (n : Z) : list Z := seqZ 0 n.

(** [np.arange(start, stop, step)]; a zero step raises [ZeroDivisionError]. *)
Definition np_arange (start stop step : Z) : res (list Z) :=
  if decide (step = 0) then Err ZeroDivisionError
  else Ok (range_elems start stop step).

(** Normalisation of an integer index [i] against an axis of length [n]:
    negative indices count from the end, anything outside raises. *)
Definition norm_index (i : Z) (n : nat) : res nat :=
  if decide (0 <= i < Z.of_nat n) then Ok (Z.to_nat i)
  else if decide (- Z.of_nat n <= i < 0) then Ok (Z.to_nat (i + Z.of_nat n))
  else Err IndexError.

(** [l[i]] for a Python list or one numpy axis. *)
Definition py_index {A} (l : list A) (i : Z) : res A :=
  k ← norm_index i (length l);
  match l !! k with
  | Some x => Ok x
  | None => Err IndexError
  end.

(** Bound of a slice [lo:hi] against an axis of length [n]: negative bounds
    count from the end and everything is clamped into [0..n]. *)
Definition norm_bound (i : Z) (n : nat) : nat :=
  if decide (i < 0) then Z.to_nat (Z.max (i + Z.of_nat n) 0)
  else Z.to_nat (Z.min i (Z.of_nat n)).

(** [l[lo:hi]]. *)
Definition py_slice {A} (lo hi : Z) (l : list A) : list A :=
  let a := norm_bound lo (length l) in
  let b := norm_bound hi (length l) in
  take (b - a)%nat (drop a l).

(** [for x in xs: body] in the error monad, threading a state. *)
Fixpoint for_each {A S} (body : A -> S -> res S) (xs : list A) (s : S) : res S :=
  match xs with
  | [] => Ok s
  | x :: xs' => s' ← body x s; for_each body xs' s'
  end.

(** ** Items *)

(** Modelled from the spec: the class [Item] of [warehouse/item.py], which the
    simulation imports.  An item is constructed from [(id, position)] with its
    waiting time at [0]; [increase_waiting_time] adds one; [get_position] and
    [get_waiting_time] read the fields. *)
Record Item : Type := mkItem {
  item_id_of : Z;
  get_position : Pos;
  get_waiting_time : Z
}.

Definition new_Item (id : Z) (loc : Pos) : Item :=
  {| item_id_of := id; get_position := loc; get_waiting_time := 0 |}.

Definition increase_waiting_time (it : Item) : Item :=
  {| item_id_of := item_id_of it;
     get_position := get_position it;
     get_waiting_time := get_waiting_time it + 1 |}.

#[global] Instance Item_eq_dec : EqDecision Item.
Proof. solve_decision. Defined.

(** ** Robots: position and domain *)

(** The domain list [[row_min, col_min, row_max, col_max]]; the projections
    stand for [_robot_domain[0]] to [_robot_domain[3]]. *)
Record Domain : Type := mkDomain {
  dom0 : Z;
  dom1 : Z;
  dom2 : Z;
  dom3 : Z
}.

#[global] Instance Domain_eq_dec : EqDecision Domain.
Proof. solve_decision. Defined.

(** A node of the domain graph is the tuple of a cell. *)
Definition Node : Type := Z * Z.
Definition Path : Type := list Node.

(** A [networkx.Graph]: nodes in insertion order and undirected edges. *)
Record Graph : Type := mkGraph {
  nodes : list Node;
  edges : list (Node * Node)
}.

(** The dictionary of dictionaries returned by
    [nx.all_pairs_dijkstra_path]: a missing key is [None]. *)
Definition PathDict : Type := Node -> Node -> option Path.

Record Robot : Type := mkRobot {
  _id : Z;
  _pos : Pos;
  _robot_domain : Domain;
  items_collected : Z;
  _graph : option Graph;
  _path_dict : option PathDict;
  _action_space : Z
}.

Definition new_Robot (robot_id : Z) (robot_position : Pos) (robot_domain : Domain) : Robot :=
  {| _id := robot_id;
     _pos := robot_position;
     _robot_domain := robot_domain;
     items_collected := 0;
     _graph := None;
     _path_dict := None;
     _action_space := 4 |}.

(** The test of [set_position] and of [_get_items_robot_region]. *)
Definition in_domain (d : Domain) (p : Pos) : Prop :=
  dom0 d <= p.1 <= dom2 d /\ dom1 d <= p.2 <= dom3 d.

#[global] Instance in_domain_dec d p : Decision (in_domain d p).
Proof. unfold in_domain. apply _. Defined.

Definition set_position (r : Robot) (new_pos : Pos) : Robot :=
  if decide (in_domain (_robot_domain r) new_pos)
  then {| _id := _id r; _pos := new_pos; _robot_domain := _robot_domain r;
          items_collected := items_collected r; _graph := _graph r;
          _path_dict := _path_dict r; _action_space := _action_space r |}
  else r.

(** The candidate position of [act]: the four [if]s assign [new_pos] for the
    actions 0 to 3; any other action leaves it unbound. *)
Definition candidate (p : Pos) (action : Z) : res Pos :=
  if decide (action = 0) then Ok (p.1 - 1, p.2)
  else if decide (action = 1) then Ok (p.1 + 1, p.2)
  else if decide (action = 2) then Ok (p.1, p.2 - 1)
  else if decide (action = 3) then Ok (p.1, p.2 + 1)
  else Err UnboundLocalError.

Definition act (r : Robot) (action : Z) : res Robot :=
  new_pos ← candidate (_pos r) action;
  Ok (set_position r new_pos).

(** ** The two random modules *)

(** [numpy.random]: [np.random.seed(seed)] makes a generator state out of a
    seed and [np.random.uniform()] draws a number and advances the state. *)
Class NumpyRandom (G : Type) : Type := {
  np_random_seed : Z -> G;
  np_random_uniform : G -> Q * G
}.

(** Python's [random]: [random.randint(a, b)] draws an integer and advances
    the state of that module, which is not the state of [numpy.random]. *)
Class PyRandom (G : Type) : Type := {
  random_randint : Z -> Z -> G -> Z * G
}.

(** [u < p] on the two numbers of a spawn test. *)
Definition Qltb (u p : Q) : bool := negb (Qle_bool p u).

(** ** The warehouse *)

(** The entries of [warehouse.yaml] that the simulation reads. *)
Record Parameters : Type := mkParameters {
  n_columns : Z;
  n_rows : Z;
  n_robots_row : Z;
  n_robots_column : Z;
  distance_between_shelves : Z;
  robot_domain_size : Z * Z;
  prob_item_appears : Q;
  learning_robot_id : Z;
  n_steps_episode : Z
}.

Section Simulation.

Context {NpState : Type} {np : NumpyRandom NpState}.

(** The attributes of a [Warehouse] object that [reset] and [step] touch,
    together with the state of the global numpy generator it draws from. *)
Record Warehouse : Type := mkWarehouse {
  parameters : Parameters;
  items : list Item;
  robots : list Robot;
  robot_id : Z;
  item_id : Z;
  n_items_collected : Z;
  episode_length : Z;
  np_random : NpState
}.

Definition max_episode_length (w : Warehouse) : Z := n_steps_episode (parameters w).

(** [seed(seed=None)]: only the numpy generator is reseeded. *)
Definition seed (w : Warehouse) (s : option Z) : Warehouse :=
  match s with
  | Some v =>
      {| parameters := parameters w; items := items w; robots := robots w;
         robot_id := robot_id w; item_id := item_id w;
         n_items_collected := n_items_collected w;
         episode_length := episode_length w;
         np_random := np_random_seed v |}
  | None => w
  end.

(** *** Placement of the robots *)

Definition place_body (p : Parameters) (domain_rows domain_columns : list Z)
    (i j : Z) (st : list Robot * Z) : res (list Robot * Z) :=
  d0 ← py_index domain_rows i;
  d1 ← py_index domain_columns j;
  d2 ← py_index domain_rows (i + 1);
  d3 ← py_index domain_columns (j + 1);
  let robot_domain := mkDomain d0 d1 d2 d3 in
  let robot_position := (d0 + (robot_domain_size p).1 `div` 2,
                         d1 + (robot_domain_size p).2 `div` 2) in
  Ok (st.1 ++ [new_Robot st.2 robot_position robot_domain], st.2 + 1).

(** [_place_robots], from the robot counter [rid]; returns the roster and the
    counter. *)
Definition _place_robots (p : Parameters) (rid : Z) : res (list Robot * Z) :=
  domain_rows ← np_arange 0 (n_rows p) ((robot_domain_size p).1 - 1);
  domain_columns ← np_arange 0 (n_columns p) ((robot_domain_size p).2 - 1);
  for_each
    (fun i => for_each (place_body p domain_rows domain_columns i)
                       (py_range (n_robots_column p)))
    (py_range (n_robots_row p)) ([], rid).

(** *** Spawning of items *)

(** The variables the loops of [_add_items] update. *)
Record Spawn : Type := mkSpawn {
  sp_items : list Item;
  sp_item_id : Z;
  sp_item_locs : option (list Pos);
  sp_random : NpState
}.

(** The body executed at one candidate cell [loc]: the draw is made first,
    whether the cell is free or not. *)
Definition spawn_body (prob : Q) (loc : Pos) (s : Spawn) : Spawn :=
  let loc_free :=
    match sp_item_locs s with
    | Some item_locs => negb (bool_decide (loc ∈ item_locs))
    | None => true
    end in
  let '(u, g) := np_random_uniform (sp_random s) in
  if Qltb u prob && loc_free then
    let items' := sp_items s ++ [new_Item (sp_item_id s) loc] in
    {| sp_items := items';
       sp_item_id := sp_item_id s + 1;
       sp_item_locs := Some (get_position <$> items');
       sp_random := g |}
  else
    {| sp_items := sp_items s;
       sp_item_id := sp_item_id s;
       sp_item_locs := sp_item_locs s;
       sp_random := g |}.

(** The columns visited in a row: [range(n_columns)] when the row is a
    multiple of the shelf distance, [range(0, n_rows, distance)] otherwise. *)
Definition spawn_columns (p : Parameters) (row : Z) : res (list Z) :=
  m ← py_mod row (distance_between_shelves p);
  if decide (m = 0) then Ok (py_range (n_columns p))
  else py_range3 0 (n_rows p) (distance_between_shelves p).

Definition spawn_row (p : Parameters) (row : Z) (s : Spawn) : res Spawn :=
  columns ← spawn_columns p row;
  Ok (foldl (fun s column => spawn_body (prob_item_appears p) (row, column) s)
            s columns).

Definition initial_item_locs (its : list Item) : option (list Pos) :=
  if decide (0 < length its)%nat then Some (get_position <$> its) else None.

Definition add_items_loop (p : Parameters) (s : Spawn) : res Spawn :=
  for_each (spawn_row p) (py_range (n_rows p)) s.

Definition _add_items (w : Warehouse) : res Warehouse :=
  s ← add_items_loop (parameters w)
        {| sp_items := items w; sp_item_id := item_id w;
           sp_item_locs := initial_item_locs (items w);
           sp_random := np_random w |};
  Ok {| parameters := parameters w; items := sp_items s; robots := robots w;
        robot_id := robot_id w; item_id := sp_item_id s;
        n_items_collected := n_items_collected w;
        episode_length := episode_length w;
        np_random := sp_random s |}.

(** *** Movement, reward and removal *)

(** [_robots_act]: [zip] stops at the shorter of the two lists. *)
Fixpoint _robots_act (actions : list Z) (rs : list Robot) : res (list Robot) :=
  match actions, rs with
  | action :: actions', robot :: rs' =>
      robot' ← act robot action;
      rs'' ← _robots_act actions' rs';
      Ok (robot' :: rs'')
  | _, _ => Ok rs
  end.

(** The test [robot_pos[0] == item_pos[0] and robot_pos[1] == item_pos[1]]. *)
Definition coincide (robot_pos item_pos : Pos) : bool :=
  (robot_pos.1 =? item_pos.1) && (robot_pos.2 =? item_pos.2).

(** [_compute_reward]: the two nested loops, one unit per coinciding pair. *)
Definition _compute_reward (rs : list Robot) (its : list Item) : Z :=
  foldl (fun reward robot =>
           foldl (fun reward item =>
                    if coincide (_pos robot) (get_position item)
                    then reward + 1 else reward)
                 reward its)
        0 rs.

(** The inner loop of [_remove_items] for one robot.  The list iterator keeps
    an index [k]; the loop ends when [k] reaches the current length.  The
    object [item] is the one at index [k] and occurs once in the roster, so
    [self.items.remove(item)] deletes index [k]; the iterator still advances,
    which skips the element that slid into place [k]. *)
Fixpoint remove_loop (fuel : nat) (robot_pos : Pos) (k : nat) (its : list Item)
    : list Item :=
  match fuel with
  | O => its
  | S fuel' =>
      match its !! k with
      | None => its
      | Some item =>
          if coincide robot_pos (get_position item)
          then remove_loop fuel' robot_pos (S k) (delete k its)
          else remove_loop fuel' robot_pos (S k) its
      end
  end.

(** One robot's pass: the index starts at 0, so the length of the roster
    bounds the number of iterations. *)
Definition remove_pass (robot_pos : Pos) (its : list Item) : list Item :=
  remove_loop (length its) robot_pos 0 its.

Definition _remove_items (rs : list Robot) (its : list Item) : list Item :=
  foldl (fun its robot => remove_pass (_pos robot) its) its rs.

(** [_increase_item_waiting_time]. *)
Definition _increase_item_waiting_time (its : list Item) : list Item :=
  increase_waiting_time <$> its.

(** *** The episode *)

(** [reset]: the pair [[reward, reward]] it returns is given by its one
    value. *)
Definition reset (w : Warehouse) : res (Z * bool * Warehouse) :=
  placed ← _place_robots (parameters w) 0;
  w' ← _add_items
         {| parameters := parameters w; items := []; robots := placed.1;
            robot_id := placed.2; item_id := 0; n_items_collected := 0;
            episode_length := episode_length w; np_random := np_random w |};
  Ok (0, false,
      {| parameters := parameters w'; items := items w'; robots := robots w';
         robot_id := robot_id w'; item_id := item_id w';
         n_items_collected := n_items_collected w';
         episode_length := 0; np_random := np_random w' |}).

(** [step]: the reward of the returned pair [[reward, reward]], the flag
    [done] and the warehouse after the tick.  The optional call to [render]
    draws the state and changes nothing in it. *)
Definition step (w : Warehouse) (actions : list Z) : res (Z * bool * Warehouse) :=
  rs ← _robots_act actions (robots w);
  let reward := _compute_reward rs (items w) in
  let its := _remove_items rs (items w) in
  w' ← _add_items
         {| parameters := parameters w; items := its; robots := rs;
            robot_id := robot_id w; item_id := item_id w;
            n_items_collected := n_items_collected w + reward;
            episode_length := episode_length w; np_random := np_random w |};
  let len := episode_length w' + 1 in
  Ok (reward, bool_decide (max_episode_length w' <= len),
      {| parameters := parameters w'; items := items w'; robots := robots w';
         robot_id := robot_id w'; item_id := item_id w';
         n_items_collected := n_items_collected w';
         episode_length := len; np_random := np_random w' |}).

(** The states an episode goes through: those left by a completed [reset],
    [seed] or [step]. *)
Inductive reachable : Warehouse -> Prop :=
| reach_reset w0 out w :
    reset w0 = Ok (out, w) -> reachable w
| reach_seed w s :
    reachable w -> reachable (seed w s)
| reach_step w actions out w' :
    reachable w -> step w actions = Ok (out, w') -> reachable w'.

End Simulation.

Arguments Warehouse NpState : clear implicits.
Arguments Spawn NpState : clear implicits.

(** ** The state bitmap and the observations *)

(** A numpy array of shape [(rows, columns, 2)]: a cell holds the pair of its
    item channel (index 0) and its robot channel (index 1). *)
Definition Bitmap : Type := list (list (Z * Z)).

(** [a[r, c] = f(a[r, c])] on a two-dimensional array. *)
Definition update_cell {A} (f : A -> A) (r c : Z) (a : list (list A))
    : res (list (list A)) :=
  i ← norm_index r (length a);
  match a !! i with
  | None => Err IndexError
  | Some row =>
      j ← norm_index c (length row);
      Ok (<[i := alter f j row]> a)
  end.

(** [np.zeros([rows, columns, 2])]. *)
Definition np_zeros (rows columns : Z) : res Bitmap :=
  if decide (rows < 0 \/ columns < 0) then Err ValueError
  else Ok (replicate (Z.to_nat rows) (replicate (Z.to_nat columns) (0, 0))).

Definition mark_item (it : Item) (b : Bitmap) : res Bitmap :=
  update_cell (fun cell => (1, cell.2)) (get_position it).1 (get_position it).2 b.

Definition mark_robot (r : Robot) (b : Bitmap) : res Bitmap :=
  update_cell (fun cell => (cell.1, 1)) (_pos r).1 (_pos r).2 b.

(** [_get_state]. *)
Definition _get_state (p : Parameters) (its : list Item) (rs : list Robot)
    : res Bitmap :=
  b0 ← np_zeros (n_rows p) (n_columns p);
  b1 ← for_each mark_item its b0;
  for_each mark_robot rs b1.

(** What [observe] returns: a two-dimensional array in ['image'] mode, a flat
    vector otherwise. *)
Inductive Observation : Type :=
| Image (a : list (list Z))
| Vector (v : list Z).

(** [state[d0 : d2+1, d1 : d3+1, :]]. *)
Definition domain_slice (d : Domain) (state : Bitmap) : Bitmap :=
  (fun row : list (Z * Z) => py_slice (dom1 d) (dom3 d + 1) row)
    <$> py_slice (dom0 d) (dom2 d + 1) (state : list (list (Z * Z))).

(** [robot_loc]: zeros of the shape of the slice with a one at the robot's
    domain-relative cell. *)
Definition robot_loc (r : Robot) (observation : Bitmap) : res (list (list Z)) :=
  update_cell (fun _ => 1)
    ((_pos r).1 - dom0 (_robot_domain r))
    ((_pos r).2 - dom1 (_robot_domain r))
    ((fun row : list (Z * Z) => (fun _ => 0) <$> row) <$> (observation : list (list (Z * Z)))).

(** [observation[1:-1, [0,-1], 0]], row by row. *)
Fixpoint side_bits (rows : list (list Z)) : res (list (list Z)) :=
  match rows with
  | [] => Ok []
  | row :: rows' =>
      l ← py_index row 0;
      r ← py_index row (-1);
      rest ← side_bits rows';
      Ok ([l; r] :: rest)
  end.

(** [item_vec]: the rows [0] and [-1] of the item channel, flattened, then the
    columns [0] and [-1] of the rows [1:-1], flattened row by row. *)
Definition item_vec (channel0 : list (list Z)) : res (list Z) :=
  top ← py_index channel0 0;
  bottom ← py_index channel0 (-1);
  sides ← side_bits (py_slice 1 (-1) channel0);
  Ok (top ++ bottom ++ concat sides).

(** [observe(state, obs_type)]; [image] says whether [obs_type == 'image']. *)
Definition observe (r : Robot) (state : Bitmap) (image : bool) : res Observation :=
  let observation := domain_slice (_robot_domain r) state in
  let channel0 :=
    (fun row : list (Z * Z) => fst <$> row) <$> (observation : list (list (Z * Z))) in
  if image then
    loc ← robot_loc r observation;
    Ok (Image (zip_with (zip_with (fun x l => x + -1 * l)) channel0 loc))
  else
    vec ← item_vec channel0;
    loc ← robot_loc r observation;
    Ok (Vector (concat loc ++ vec)).

(** ** The domain graph and the heuristic policies *)

(** [_neighbors]. *)
Definition _neighbors (cell : Node) : list Node :=
  [(cell.1 + 0, cell.2 + 1); (cell.1 + 0, cell.2 + -1);
   (cell.1 + 1, cell.2 + 0); (cell.1 + -1, cell.2 + 0)].

Definition has_node (g : Graph) (n : Node) : bool := bool_decide (n ∈ nodes g).

Definition has_edge (g : Graph) (u v : Node) : bool :=
  bool_decide ((u, v) ∈ edges g) || bool_decide ((v, u) ∈ edges g).

Definition add_node (n : Node) (g : Graph) : Graph :=
  if has_node g n then g else {| nodes := nodes g ++ [n]; edges := edges g |}.

Definition add_edge (u v : Node) (g : Graph) : Graph :=
  let g' := add_node v (add_node u g) in
  if has_edge g' u v then g'
  else {| nodes := nodes g'; edges := edges g' ++ [(u, v)] |}.

(** The indices of [np.ndenumerate(obs)], with the values, in row-major
    order. *)
Definition ndenumerate (obs : list (list Z)) : list (Node * Z) :=
  concat (imap (fun i row => imap (fun j x => ((Z.of_nat i, Z.of_nat j), x)) row) obs).

(** One iteration of the outer loop of [_create_graph]: the cell becomes a
    node and is joined to each of its neighbours. *)
Definition graph_step (g : Graph) (cell : Node) : Graph :=
  foldl (fun g neighbor => add_edge cell neighbor g) (add_node cell g) (_neighbors cell).

(** [_create_graph]. *)
Definition _create_graph (obs : list (list Z)) : Graph :=
  foldl (fun g (entry : Node * Z) => graph_step g entry.1)
        {| nodes := []; edges := [] |} (ndenumerate obs).

(** The table [_action_mapping], read with [.get]: an absent key gives
    Python's [None]. *)
Definition _action_mapping (delta : Z * Z) : option Z :=
  if decide (delta = (-1, 0)) then Some 0
  else if decide (delta = (1, 0)) then Some 1
  else if decide (delta = (0, -1)) then Some 2
  else if decide (delta = (0, 1)) then Some 3
  else None.

(** [_get_first_action]. *)
Definition _get_first_action (path : Path) : res (option Z) :=
  p1 ← py_index path 1;
  p0 ← py_index path 0;
  Ok (_action_mapping (p1.1 - p0.1, p1.2 - p0.2)).

(** The robot's domain-relative position. *)
Definition relative_pos (r : Robot) : Node :=
  ((_pos r).1 - dom0 (_robot_domain r), (_pos r).2 - dom1 (_robot_domain r)).

(** [self._path_dict[u][v]]. *)
Definition path_lookup (r : Robot) (u v : Node) : res Path :=
  match _path_dict r with
  | None => Err AttributeError
  | Some table =>
      match table u v with
      | Some path => Ok path
      | None => Err KeyError
      end
  end.

(** [_get_items_robot_region]. *)
Definition _get_items_robot_region (r : Robot) (its : list Item) : list Item :=
  filter (fun it => in_domain (_robot_domain r) (get_position it)) its.

(** The loop of [_path_to_oldest_item]: [None] as waiting time is
    [math.inf]; the index is unbound until the first update. *)
Definition oldest_body (index : nat) (it : Item) (st : option Z * option nat)
    : option Z * option nat :=
  match st.1 with
  | None => (Some (get_waiting_time it), Some index)
  | Some min_waiting_time =>
      if decide (get_waiting_time it < min_waiting_time)
      then (Some (get_waiting_time it), Some index)
      else st
  end.

Fixpoint oldest_loop (index : nat) (its : list Item) (st : option Z * option nat)
    : option Z * option nat :=
  match its with
  | [] => st
  | it :: its' => oldest_loop (S index) its' (oldest_body index it st)
  end.

(** [_path_to_oldest_item]. *)
Definition _path_to_oldest_item (r : Robot) (its : list Item) : res (option Path) :=
  let st := oldest_loop 0 its (None, None) in
  if decide (0 < length its)%nat then
    match st.2 with
    | None => Err UnboundLocalError
    | Some min_index =>
        match its !! min_index with
        | None => Err IndexError
        | Some it =>
            let item_global_pos := get_position it in
            let item_relative_pos :=
              (item_global_pos.1 - dom0 (_robot_domain r),
               item_global_pos.2 - dom1 (_robot_domain r)) in
            path ← path_lookup r (relative_pos r) item_relative_pos;
            Ok (Some path)
        end
    end
  else Ok None.

(** The loop of [_path_to_closest_item]. *)
Definition closest_body (r : Robot) (entry : Node * Z) (st : Z * option Path)
    : res (Z * option Path) :=
  if decide (entry.2 = 1) then
    path ← path_lookup r (relative_pos r) entry.1;
    let distance := Z.of_nat (length path) - 1 in
    if decide (distance < st.1) then Ok (distance, Some path) else Ok st
  else Ok st.

(** [_path_to_closest_item]: [obs[:,0]] and [obs[0,:]] raise on an array
    without columns or without rows. *)
Definition _path_to_closest_item (r : Robot) (obs : list (list Z)) : res (option Path) :=
  row0 ← py_index obs 0;
  _ ← py_index row0 0;
  let min_distance := Z.of_nat (length obs) + Z.of_nat (length row0) in
  st ← for_each (closest_body r) (ndenumerate obs) (min_distance, None);
  Ok st.2.

Section Policies.

Context {PyState : Type} {py : PyRandom PyState}.

(** [nx.all_pairs_dijkstra_path], of the networkx library. *)
Variable all_pairs_dijkstra_path : Graph -> PathDict.

(** [select_random_action]. *)
Definition select_random_action (r : Robot) (g : PyState) : Z * PyState :=
  random_randint 0 (_action_space r - 1) g.

(** The guard [if self._graph is None] shared by the two naive policies. *)
Definition ensure_graph (r : Robot) (obs : list (list Z)) : Robot :=
  match _graph r with
  | None =>
      let graph := _create_graph obs in
      {| _id := _id r; _pos := _pos r; _robot_domain := _robot_domain r;
         items_collected := items_collected r; _graph := Some graph;
         _path_dict := Some (all_pairs_dijkstra_path graph);
         _action_space := _action_space r |}
  | Some _ => r
  end.

(** The common tail: a random action when there is no path or it has fewer
    than two nodes, the first action of the path otherwise. *)
Definition action_of_path (r : Robot) (path : option Path) (g : PyState)
    : res (option Z * PyState) :=
  match path with
  | None =>
      let '(a, g') := random_randint 0 (_action_space r - 1) g in Ok (Some a, g')
  | Some p =>
      if decide (length p < 2)%nat then
        let '(a, g') := random_randint 0 (_action_space r - 1) g in Ok (Some a, g')
      else
        a ← _get_first_action p; Ok (a, g)
  end.

(** [select_naive_action]: the action, the robot with its cache, and the
    state of [random]. *)
Definition select_naive_action (r : Robot) (obs : list (list Z)) (g : PyState)
    : res (option Z * Robot * PyState) :=
  let r' := ensure_graph r obs in
  path ← _path_to_closest_item r' obs;
  out ← action_of_path r' path g;
  Ok (out.1, r', out.2).

(** [select_naive_action2]. *)
Definition select_naive_action2 (r : Robot) (obs : list (list Z)) (its : list Item)
    (g : PyState) : res (option Z * Robot * PyState) :=
  let r' := ensure_graph r obs in
  let items_robot_region := _get_items_robot_region r' its in
  path ← _path_to_oldest_item r' items_robot_region;
  out ← action_of_path r' path g;
  Ok (out.1, r', out.2).

End Policies.

(** ** Auxiliary definitions for the statements *)

(** A robot inside its domain. *)
Definition robot_ok (r : Robot) : Prop := in_domain (_robot_domain r) (_pos r).

(** One robot's removal pass, by recursion on the roster: when the head
    coincides with the robot it goes and its successor is kept unexamined. *)
Fixpoint skip_filter (robot_pos : Pos) (its : list Item) : list Item :=
  match its with
  | [] => []
  | item :: rest =>
      if coincide robot_pos (get_position item) then
        match rest with
        | [] => []
        | next :: rest' => next :: skip_filter robot_pos rest'
        end
      else item :: skip_filter robot_pos rest
  end.

(** The items of a roster that lie on no robot. *)
Definition uncollected (rs : list Robot) (its : list Item) : list Item :=
  filter (fun it => get_position it ∉ _pos <$> rs) its.

(** The number of items of a roster that lie on a given cell. *)
Definition hits (robot_pos : Pos) (its : list Item) : Z :=
  Z.of_nat (length (filter (fun it => robot_pos = get_position it) its)).

(** The number of robots of a roster that stand on a given cell. *)
Definition robots_on (rs : list Robot) (cell : Pos) : nat :=
  length (filter (fun r => _pos r = cell) rs).

(** The coinciding (robot, item) pairs, counted item by item: each item
    counts once for every robot on its cell. *)
Definition coinciding_pairs (rs : list Robot) (its : list Item) : Z :=
  foldr (fun it acc => Z.of_nat (robots_on rs (get_position it)) + acc) 0 its.

(** What the loops of [_add_items] maintain: no two items on one cell, and
    [item_locs] is either unset on an empty roster or the positions of the
    roster. *)
Definition spawn_inv {NpState} (s : Spawn NpState) : Prop :=
  NoDup (get_position <$> sp_items s) /\
  match sp_item_locs s with
  | Some item_locs => item_locs = get_position <$> sp_items s
  | None => sp_items s = []
  end.

(** The roster only grows in a spawn pass, by items that have not waited. *)
Definition extends (old new : list Item) : Prop :=
  exists added, new = old ++ added /\ Forall (fun it => get_waiting_time it = 0) added.

(** The cell [(i, j)] of a two-dimensional array, if it has one. *)
Definition cell_at {A} (a : list (list A)) (i j : nat) : option A :=
  row ← a !! i; row !! j.

(** An array of [n] rows of [m] cells each. *)
Definition rect {A} (n m : nat) (a : list (list A)) : Prop :=
  length a = n /\ Forall (fun row => length row = m) a.

(** A domain that lies on the grid, with its corners in order. *)
Definition domain_in_grid (rows columns : Z) (d : Domain) : Prop :=
  0 <= dom0 d <= dom2 d /\ dom2 d < rows /\
  0 <= dom1 d <= dom3 d /\ dom3 d < columns.

(** The item channel of the state at the global cell [(r, c)]. *)
Definition item_bit (state : Bitmap) (r c : Z) : Z :=
  match cell_at state (Z.to_nat r) (Z.to_nat c) with
  | Some cell => cell.1
  | None => 0
  end.

(** The columns of a domain and its interior rows, in increasing order. *)
Definition domain_columns (d : Domain) : list Z :=
  seqZ (dom1 d) (dom3 d - dom1 d + 1).

Definition interior_rows (d : Domain) : list Z :=
  seqZ (dom0 d + 1) (dom2 d - dom0 d - 1).

(** The item bits of the domain's columns in the global row [r]. *)
Definition item_row (state : Bitmap) (d : Domain) (r : Z) : list Z :=
  item_bit state r <$> domain_columns d.

(** The boundary ring in the order the claim gives: top row, bottom row, the
    whole left column of the interior rows, then the whole right column. *)
Definition ring_columnwise (state : Bitmap) (d : Domain) : list Z :=
  (item_bit state (dom0 d) <$> domain_columns d)
  ++ (item_bit state (dom2 d) <$> domain_columns d)
  ++ ((fun r => item_bit state r (dom1 d)) <$> interior_rows d)
  ++ ((fun r => item_bit state r (dom3 d)) <$> interior_rows d).

(** The boundary ring with the two side columns interleaved: top row,
    bottom row, then for each interior row its left bit and its right bit. *)
Definition ring_rowwise (state : Bitmap) (d : Domain) : list Z :=
  (item_bit state (dom0 d) <$> domain_columns d)
  ++ (item_bit state (dom2 d) <$> domain_columns d)
  ++ concat ((fun r => [item_bit state r (dom1 d); item_bit state r (dom3 d)])
               <$> interior_rows d).

(** The number of cells of a domain: the length of the one-hot block. *)
Definition domain_cells (d : Domain) : nat :=
  (Z.to_nat (dom2 d - dom0 d + 1) * Z.to_nat (dom3 d - dom1 d + 1))%nat.

(** The item channel of a bitmap agrees with a list of item positions: a
    listed cell holds 1, and when no position is negative (nothing wraps
    around) an unlisted cell holds 0. *)
Definition marks (n m : nat) (b : list (list (Z * Z))) (cells : list Pos) : Prop :=
  forall i j, (i < n)%nat -> (j < m)%nat ->
    exists x y, cell_at b i j = Some (x, y) /\
      ((Z.of_nat i, Z.of_nat j) ∈ cells -> x = 1) /\
      (Forall (fun c => 0 <= c.1 /\ 0 <= c.2) cells ->
       (Z.of_nat i, Z.of_nat j) ∉ cells -> x = 0).

(** ** The interpreter state the claims about randomness speak of *)

(** The two global generators live side by side: the warehouse draws from
    numpy's, the robot policies from Python's. *)
Record Process (NpState PyState : Type) : Type := mkProcess {
  warehouse : Warehouse NpState;
  py_random : PyState
}.

Arguments mkProcess {NpState PyState} warehouse py_random.
Arguments warehouse {NpState PyState} p.
Arguments py_random {NpState PyState} p.

Section Episodes.

Context {NpState PyState : Type} {np : NumpyRandom NpState} {py : PyRandom PyState}.

(** [Warehouse.seed] seen from the whole interpreter: it calls
    [np.random.seed] and nothing else. *)
Definition process_seed (p : Process NpState PyState) (s : option Z)
    : Process NpState PyState :=
  {| warehouse := seed (warehouse p) s; py_random := py_random p |}.

(** A fallback action of a robot, drawn in a process. *)
Definition process_fallback (p : Process NpState PyState) (r : Robot)
    : Z * Process NpState PyState :=
  let '(a, g) := select_random_action r (py_random p) in
  (a, {| warehouse := warehouse p; py_random := g |}).

(** The steps of an episode on a given list of joint actions: the rewards and
    termination flags in order, and the final warehouse. *)
Fixpoint run_steps (w : Warehouse NpState) (script : list (list Z))
    : res (list (Z * bool) * Warehouse NpState) :=
  match script with
  | [] => Ok ([], w)
  | actions :: script' =>
      out ← step w actions;
      rest ← run_steps out.2 script';
      Ok (out.1 :: rest.1, rest.2)
  end.

(** An episode: [seed], [reset], then the steps. *)
Definition run_episode (w : Warehouse NpState) (s : Z) (script : list (list Z))
    : res (list (Z * bool) * Warehouse NpState) :=
  out ← reset (seed w (Some s));
  rest ← run_steps out.2 script;
  Ok (out.1 :: rest.1, rest.2).

End Episodes.

(** ** Concrete generators and configurations for the examples *)

(** A linear congruential generator, standing in the examples for the two
    library generators. *)
Definition lcg_next (g : Z) : Z := (1103515245 * g + 12345) `mod` 2147483648.

#[global] Instance lcg_numpy : NumpyRandom Z := {|
  np_random_seed := fun s => s `mod` 2147483648;
  np_random_uniform := fun g => (Qmake (lcg_next g) 2147483648, lcg_next g)
|}.

#[global] Instance lcg_python : PyRandom Z := {|
  random_randint := fun a b g =>
    (a + (lcg_next g `div` 65536) `mod` (b - a + 1), lcg_next g)
|}.

(** Three rows and five columns, two robots side by side with 3x3 domains
    sharing column 2, every row a pick row, every free cell spawning. *)
Definition shared_column_parameters : Parameters :=
  {| n_columns := 5; n_rows := 3; n_robots_row := 1; n_robots_column := 2;
     distance_between_shelves := 1; robot_domain_size := (3, 3);
     prob_item_appears := 1; learning_robot_id := 0; n_steps_episode := 10 |}.

(** The same grid with shelves two apart: row 1 is an aisle row. *)
Definition aisle_parameters : Parameters :=
  {| n_columns := 5; n_rows := 3; n_robots_row := 1; n_robots_column := 2;
     distance_between_shelves := 2; robot_domain_size := (3, 3);
     prob_item_appears := 1; learning_robot_id := 0; n_steps_episode := 10 |}.

(** The aisle layout with the shelf distance set to zero. *)
Definition zero_distance_parameters : Parameters :=
  {| n_columns := 5; n_rows := 3; n_robots_row := 1; n_robots_column := 2;
     distance_between_shelves := 0; robot_domain_size := (3, 3);
     prob_item_appears := 1; learning_robot_id := 0; n_steps_episode := 10 |}.

(** A freshly constructed warehouse: [__init__] seeds with [seed=0]. *)
Definition new_Warehouse (p : Parameters) : Warehouse Z :=
  {| parameters := p; items := []; robots := []; robot_id := 0; item_id := 0;
     n_items_collected := 0; episode_length := 0;
     np_random := np_random_seed 0 |}.

(** The warehouse left by an operation, or the given one if it raised. *)
Definition state_after (w : Warehouse Z) (m : res (Z * bool * Warehouse Z))
    : Warehouse Z :=
  match m with
  | Ok (_, w') => w'
  | Err _ => w
  end.

Definition shared_column_start : Warehouse Z :=
  state_after (new_Warehouse shared_column_parameters)
              (reset (new_Warehouse shared_column_parameters)).

Definition aisle_start : Warehouse Z :=
  state_after (new_Warehouse aisle_parameters)
              (reset (new_Warehouse aisle_parameters)).

(** One robot on a grid of four rows and four columns, its 4x4 domain the
    whole grid, shelves three apart, a free candidate cell spawning with
    probability one half. *)
Definition ring_parameters : Parameters :=
  {| n_columns := 4; n_rows := 4; n_robots_row := 1; n_robots_column := 1;
     distance_between_shelves := 3; robot_domain_size := (4, 4);
     prob_item_appears := 1 # 2; learning_robot_id := 0; n_steps_episode := 10 |}.

Definition ring_start : Warehouse Z :=
  state_after (new_Warehouse ring_parameters)
              (reset (new_Warehouse ring_parameters)).

(** The bitmap of a warehouse, or an empty one if [_get_state] raised. *)
Definition bitmap_of (w : Warehouse Z) : Bitmap :=
  match _get_state (parameters w) (items w) (robots w) with
  | Ok state => state
  | Err _ => []
  end.

(** The bitmap of the items of a warehouse alone. *)
Definition state_without_robots (w : Warehouse Z) : Bitmap :=
  match _get_state (parameters w) (items w) [] with
  | Ok state => state
  | Err _ => []
  end.

(** ** Auxiliary definitions for the policies *)

(** What the loop of [_path_to_oldest_item] has found after the items
    [seen]: nothing on an empty prefix, otherwise the index of the first item
    of least waiting time and that waiting time. *)
Definition oldest_found (seen : list Item) (st : option Z * option nat) : Prop :=
  match st with
  | (None, None) => seen = []
  | (Some w, Some k) =>
      exists target,
        seen !! k = Some target /\ get_waiting_time target = w /\
        (forall it, it ∈ seen -> w <= get_waiting_time it) /\
        (forall k' it, (k' < k)%nat -> seen !! k' = Some it -> w < get_waiting_time it)
  | _ => False
  end.

(** The position of an item relative to the robot's domain. *)
Definition item_relative_pos (r : Robot) (it : Item) : Node :=
  ((get_position it).1 - dom0 (_robot_domain r),
   (get_position it).2 - dom1 (_robot_domain r)).

(** *** Walks, paths and distances *)

Definition manhattan (u v : Node) : Z := Z.abs (u.1 - v.1) + Z.abs (u.2 - v.2).

(** Two cells one row or one column apart. *)
Definition unit_step (u v : Node) : Prop := manhattan u v = 1.

(** The cells of an observation of [H] rows and [W] columns. *)
Definition in_grid (H W : nat) (u : Node) : Prop :=
  0 <= u.1 < Z.of_nat H /\ 0 <= u.2 < Z.of_nat W.

#[global] Instance in_grid_dec H W u : Decision (in_grid H W u).
Proof. unfold in_grid. apply _. Defined.

(** A non-empty sequence of nodes, each adjacent to the next. *)
Fixpoint is_walk (adj : Node -> Node -> Prop) (p : Path) : Prop :=
  match p with
  | [] => False
  | u :: rest =>
      match rest with
      | [] => True
      | v :: _ => adj u v /\ is_walk adj rest
      end
  end.

Definition walk_between (adj : Node -> Node -> Prop) (u v : Node) (p : Path) : Prop :=
  is_walk adj p /\ head p = Some u /\ last p = Some v.

(** Adjacency in a [networkx.Graph]. *)
Definition graph_adj (g : Graph) (u v : Node) : Prop := has_edge g u v = true.

(** A path of the graph from [u] to [v]. *)
Definition is_path (g : Graph) (u v : Node) (p : Path) : Prop :=
  walk_between (graph_adj g) u v p /\ Forall (fun n => n ∈ nodes g) p.

(** The 4-connected grid of the domain: its cells, joined when one row or
    one column apart. *)
Definition grid_adj (H W : nat) (u v : Node) : Prop :=
  in_grid H W u /\ in_grid H W v /\ unit_step u v.

Definition grid_path (H W : nat) (u v : Node) (p : Path) : Prop :=
  walk_between (grid_adj H W) u v p /\ Forall (in_grid H W) p.

(** [dist] is the shortest-path distance from [u] to [v] in that grid: some
    path has [dist] edges and none has fewer. *)
Definition grid_distance (H W : nat) (u v : Node) (dist : Z) : Prop :=
  (exists p, grid_path H W u v p /\ Z.of_nat (length p) = dist + 1) /\
  (forall p, grid_path H W u v p -> dist + 1 <= Z.of_nat (length p)).

(** What networkx promises of [all_pairs_dijkstra_path] on unweighted edges,
    for the pairs of domain cells: an entry for every pair joined by a path,
    and that entry a path with the fewest nodes. *)
Definition shortest_on_cells (H W : nat) (g : Graph) (table : PathDict) : Prop :=
  forall u v, in_grid H W u -> in_grid H W v ->
    (exists q, is_path g u v q) ->
    exists p, table u v = Some p /\ is_path g u v p /\
              forall q, is_path g u v q -> (length p <= length q)%nat.

(** One step from [u] towards [v], rows first. *)
Definition step_towards (u v : Node) : Node :=
  if decide (u.1 < v.1) then (u.1 + 1, u.2)
  else if decide (v.1 < u.1) then (u.1 - 1, u.2)
  else if decide (u.2 < v.2) then (u.1, u.2 + 1)
  else if decide (v.2 < u.2) then (u.1, u.2 - 1)
  else u.

Fixpoint steps_towards (n : nat) (u v : Node) : Path :=
  match n with
  | O => [u]
  | S n' => u :: steps_towards n' (step_towards u v) v
  end.

(** A path of Manhattan length, and the table of these paths: one table that
    meets [shortest_on_cells], used in the examples. *)
Definition manhattan_path (u v : Node) : Path :=
  steps_towards (Z.to_nat (manhattan u v)) u v.

Definition manhattan_table : PathDict := fun u v => Some (manhattan_path u v).

(** What [_create_graph] maintains over the cells visited so far: every edge
    leaves a visited cell for one of its neighbours, and every visited cell is
    a node joined to its four neighbours. *)
Definition graph_inv (cells : list Node) (g : Graph) : Prop :=
  (forall u v, (u, v) ∈ edges g -> u ∈ cells /\ v ∈ _neighbors u) /\
  (forall u, u ∈ cells ->
     u ∈ nodes g /\ forall v, v ∈ _neighbors u -> has_edge g u v = true).

(** The same in the middle of an iteration, while the neighbours [joined] of
    the current cell have been joined to it. *)
Definition graph_inv_at (cells : list Node) (cell : Node) (joined : list Node)
    (g : Graph) : Prop :=
  (forall u v, (u, v) ∈ edges g -> (u ∈ cells \/ u = cell) /\ v ∈ _neighbors u) /\
  (forall u, u ∈ cells ->
     u ∈ nodes g /\ forall v, v ∈ _neighbors u -> has_edge g u v = true) /\
  cell ∈ nodes g /\
  (forall v, v ∈ joined -> has_edge g cell v = true).

(** *** A small domain for the examples of the policies *)

(** The table of Manhattan paths as the result of the library call. *)
Definition manhattan_apsp : Graph -> PathDict := fun _ => manhattan_table.

(** A 2x2 domain seen with one item, on its cell (1,1). *)
Definition corner_obs : list (list Z) := [[0; 0]; [0; 1]].

(** A robot on the cell (0,0) of that domain, and one on the cell (1,1). *)
Definition corner_robot : Robot := new_Robot 0 (0, 0) (mkDomain 0 0 1 1).
Definition robot_on_item : Robot := new_Robot 0 (1, 1) (mkDomain 0 0 1 1).

(** The same domain as a grid of its own, with one item on (1,1), and what
    the robot on (0,0) sees of it in ['image'] mode. *)
Definition corner_parameters : Parameters :=
  {| n_columns := 2; n_rows := 2; n_robots_row := 1; n_robots_column := 1;
     distance_between_shelves := 1; robot_domain_size := (2, 2);
     prob_item_appears := 1; learning_robot_id := 0; n_steps_episode := 10 |}.

Definition corner_state : Bitmap :=
  match _get_state corner_parameters [new_Item 0 (1, 1)] [corner_robot] with
  | Ok state => state
  | Err _ => []
  end.

Definition corner_view : list (list Z) := [[-1; 0]; [0; 1]].

(** A roster: an item on (1,1) that has waited one tick, a fresh item on
    (0,1), and a fresh item outside the domain. *)
Definition corner_items : list Item :=
  [increase_waiting_time (new_Item 0 (1, 1)); new_Item 1 (0, 1); new_Item 2 (7, 7)].

(** ** Auxiliary definitions for the further properties *)

(** The robot [_place_robots] builds for the domain in row [i] and column
    [j] of the layout, with identifier [id]: the domain starts at multiples
    of the domain size less one, and the robot stands at its centre. *)
Definition robot_at (p : Parameters) (id i j : Z) : Robot :=
  let sr := (robot_domain_size p).1 - 1 in
  let sc := (robot_domain_size p).2 - 1 in
  new_Robot id
    (i * sr + (robot_domain_size p).1 `div` 2, j * sc + (robot_domain_size p).2 `div` 2)
    (mkDomain (i * sr) (j * sc) ((i + 1) * sr) ((j + 1) * sc)).

(** A cell [_add_items] visits: a row of the grid and, on a row that is a
    multiple of the shelf distance, any column of the grid; on another row, a
    multiple of the shelf distance below the number of rows. *)
Definition candidate_cell (p : Parameters) (loc : Pos) : Prop :=
  let d := distance_between_shelves p in
  d <> 0 /\ 0 <= loc.1 < n_rows p /\
  ((loc.1 `mod` d = 0 /\ 0 <= loc.2 < n_columns p) \/
   (loc.1 `mod` d <> 0 /\ 0 <= loc.2 < n_rows p /\ loc.2 `mod` d = 0)).

(** The number of cells [_add_items] visits in the given rows. *)
Fixpoint cells_visited (p : Parameters) (rows : list Z) : nat :=
  match rows with
  | [] => O
  | row :: rows' =>
      match spawn_columns p row with
      | Ok columns => (length columns + cells_visited p rows')%nat
      | Err _ => O
      end
  end.

Section Draws.

Context {NpState : Type} {np : NumpyRandom NpState}.

(** The generator after one draw. *)
Definition advance (g : NpState) : NpState := (np_random_uniform g).2.

End Draws.

(** ** Auxiliary definitions for the state bitmap *)

(** A position that indexes an array of [rows] by [columns] cells: numpy
    takes each coordinate from minus the length of its axis up to, and
    without, that length. *)
Definition on_axes (rows columns : Z) (pos : Pos) : Prop :=
  (- rows <= pos.1 < rows) /\ (- columns <= pos.2 < columns).

(** A position without a negative coordinate. *)
Definition on_quadrant (pos : Pos) : Prop := 0 <= pos.1 /\ 0 <= pos.2.

(** The cell [(i, j)] of the bitmap of two rosters: the item channel says
    whether an item lies there, the robot channel whether a robot does. *)
Definition state_cell (its : list Item) (rs : list Robot) (i j : Z) : Z * Z :=
  (if decide ((i, j) ∈ get_position <$> its) then 1 else 0,
   if decide ((i, j) ∈ _pos <$> rs) then 1 else 0).

(** ** Auxiliary definitions for the closest item *)

(** What the loop of [_path_to_closest_item] has found after the entries
    [seen], for a robot on the cell [u] with the path table [table]: nothing
    and the bound it started from when no entry was 1, otherwise the cached
    path to an entry equal to 1 that is nearest to [u] among those seen, and
    its number of edges. *)
Definition closest_found (table : PathDict) (u : Node) (bound : Z)
    (seen : list (Node * Z)) (st : Z * option Path) : Prop :=
  match st.2 with
  | None => st.1 = bound /\ forall e, e ∈ seen -> e.2 <> 1
  | Some p =>
      exists t, (t, 1) ∈ seen /\ table u t = Some p /\
                st.1 = manhattan u t /\
                Z.of_nat (length p) - 1 = manhattan u t /\
                forall e, e ∈ seen -> e.2 = 1 -> manhattan u t <= manhattan u e.1
  end.

(** ** Auxiliary definitions for episodes *)

(** The sum of the rewards of a list of step results. *)
Definition total_reward (outs : list (Z * bool)) : Z :=
  foldr (fun out acc => out.1 + acc) 0 outs.

(** Two ticks from the start of the shared-column warehouse: both robots
    step right, then both step left. *)
Definition two_ticks_outs : list (Z * bool) :=
  Eval vm_compute in
    match run_steps shared_column_start [[3; 3]; [2; 2]] with
    | Ok out => out.1
    | Err _ => []
    end.

Definition two_ticks_state : Warehouse Z :=
  Eval vm_compute in
    match run_steps shared_column_start [[3; 3]; [2; 2]] with
    | Ok out => out.2
    | Err _ => shared_column_start
    end.

(** ** The accessors of the warehouse *)

(** [observe(state, 'vector')]: in this mode the observation is a flat
    vector. *)
Definition observe_vector (r : Robot) (state : Bitmap) : res (list Z) :=
  o ← observe r state false;
  match o with
  | Vector v => Ok v
  | Image a => Ok (concat a)
  end.

Section Accessors.

Context {NpState : Type}.

(** [get_dset]. *)
Definition get_dset (w : Warehouse NpState) : res (list Z) :=
  state ← _get_state (parameters w) (items w) (robots w);
  robot ← py_index (robots w) (learning_robot_id (parameters w));
  observe_vector robot state.

(** [get_robot_loc_bitmap]: the slice [obs[:49]]. *)
Definition get_robot_loc_bitmap (w : Warehouse NpState) (robot_id : Z) : res (list Z) :=
  state ← _get_state (parameters w) (items w) (robots w);
  robot ← py_index (robots w) robot_id;
  obs ← observe_vector robot state;
  Ok (py_slice 0 49 obs).

(** [_get_observation]: the argument [robot_id] is not used. *)
Definition _get_observation (w : Warehouse NpState) (robot_id : Z) : res (list Z) :=
  state ← _get_state (parameters w) (items w) (robots w);
  robot0 ← py_index (robots w) 0;
  observation1 ← observe_vector robot0 state;
  robot1 ← py_index (robots w) 1;
  observation2 ← observe_vector robot1 state;
  Ok (observation1 ++ observation2).

End Accessors.

(** [l[lo:]]. *)
Definition py_slice_from {A} (lo : Z) (l : list A) : list A :=
  drop (norm_bound lo (length l)) l.

(** [np.reshape(l, (rows, columns))] of a flat array. *)
Definition np_reshape {A} (l : list A) (rows columns : nat) : res (list (list A)) :=
  if decide (length l = (rows * columns)%nat)
  then Ok ((fun i => take columns (drop (i * columns) l)) <$> seq 0 rows)
  else Err ValueError.

(** An elementwise operation on two flat arrays, with numpy's broadcasting:
    the lengths agree, or one of them is 1. *)
Definition np_broadcast (f : Z -> Z -> Z) (a b : list Z) : res (list Z) :=
  if decide (length a = length b) then Ok (zip_with f a b)
  else
    match a, b with
    | [x], _ => Ok (f x <$> b)
    | _, [y] => Ok ((fun x => f x y) <$> a)
    | _, _ => Err ValueError
    end.

(** [get_infs]: the ring of the self-location bitmap is read by the indexing
    expression [observe] uses for the item ring, so [item_vec] stands for it;
    [np.maximum(np.zeros_like(infs), infs)] clips at zero. *)
Definition get_infs (prev_obs obs : list Z) : res (list Z) :=
  let prev_items := py_slice_from 49 prev_obs in
  let items := py_slice_from 49 obs in
  bitmap ← np_reshape (py_slice 0 49 obs) 7 7;
  gone ← np_broadcast Z.sub prev_items items;
  ring ← item_vec bitmap;
  infs ← np_broadcast Z.sub gone ring;
  Ok (Z.max 0 <$> (infs : list Z)).

(** [_get_robot_neighbors]: [self.parameters['n_robots_row']] is the
    parameter [n_robots_row]. *)
Definition _get_robot_neighbors (p : Parameters) (robot_id : Z) : list Z :=
  [robot_id + 1; robot_id + 1 + n_robots_row p; robot_id + n_robots_row p;
   robot_id - 1 + n_robots_row p; robot_id - 1; robot_id - 1 - n_robots_row p;
   robot_id - n_robots_row p; robot_id - n_robots_row p + 1].

(** [Warehouse.create_graph(robot)], with [Warehouse._neighbors], which is
    [Robot._neighbors]: the construction of [_create_graph] on the global
    cells of the robot's domain; [range(a, b)] is [seqZ a (b - a)]. *)
Definition create_graph (robot : Robot) : Graph :=
  let d := _robot_domain robot in
  foldl (fun graph i =>
           foldl (fun graph j => graph_step graph (i, j)) graph
                 (seqZ (dom1 d) (dom3 d + 1 - dom1 d)))
        {| nodes := []; edges := [] |}
        (seqZ (dom0 d) (dom2 d + 1 - dom0 d)).

(** The layout cell [(i, j)] of [_place_robots] as a list index. *)
Definition layout_id (p : Parameters) (i j : Z) : Z := i * n_robots_column p + j.

(** One robot whose domain is the whole grid of seven rows and seven
    columns, the size the accessors are written for. *)
Definition seven_parameters : Parameters :=
  {| n_columns := 7; n_rows := 7; n_robots_row := 1; n_robots_column := 1;
     distance_between_shelves := 3; robot_domain_size := (7, 7);
     prob_item_appears := 1 # 2; learning_robot_id := 0; n_steps_episode := 10 |}.

Definition seven_start : Warehouse Z :=
  Eval vm_compute in
    state_after (new_Warehouse seven_parameters)
                (reset (new_Warehouse seven_parameters)).

(** * Properties *)

(** ** Generic facts about the primitives *)

Lemma bind_Ok {A B} (m : res A) (f : A -> res B) (b : B) :
  m ≫= f = Ok b -> exists a, m = Ok a /\ f a = Ok b.
Proof. destruct m as [a|e]; simpl; [eauto | discriminate]. Qed.

Ltac inv_bind H :=
  let a := fresh "x" in
  let Ha := fresh "E" in
  apply bind_Ok in H; destruct H as (a & Ha & H).

(** A loop keeps what each of its iterations keeps. *)
Lemma for_each_invariant {A S} (I : S -> Prop) (body : A -> S -> res S) xs :
  (forall x s s', x ∈ xs -> I s -> body x s = Ok s' -> I s') ->
  forall s s', I s -> for_each body xs s = Ok s' -> I s'.
Proof.
  induction xs as [|x xs IH]; intros Hbody s s' Hs Hrun; simpl in Hrun.
  - congruence.
  - inv_bind Hrun. apply (IH ltac:(intros; eapply Hbody; eauto; by right) x0 s').
    + eapply Hbody; eauto. by left.
    + exact Hrun.
Qed.

Lemma foldl_invariant {A S} (I : S -> Prop) (body : S -> A -> S) xs :
  (forall x s, x ∈ xs -> I s -> I (body s x)) ->
  forall s, I s -> I (foldl body s xs).
Proof.
  induction xs as [|x xs IH]; intros Hbody s Hs; simpl; [done|].
  apply IH.
  - intros; apply Hbody; [by right | done].
  - apply Hbody; [by left | done].
Qed.

Lemma range_elems_lookup start stop step (k : nat) x :
  range_elems start stop step !! k = Some x ->
  x = start + Z.of_nat k * step /\ Z.of_nat k < range_len start stop step.
Proof.
  unfold range_elems. rewrite list_lookup_fmap.
  destruct (seqZ 0 (range_len start stop step) !! k) as [i|] eqn:E; [|discriminate].
  apply lookup_seqZ in E. simpl. intros [= <-]. split; lia.
Qed.

Lemma range_len_neg_step stop step :
  0 <= stop -> step < 0 -> range_len 0 stop step = 0.
Proof.
  intros Hstop Hstep. unfold range_len.
  assert (0 <= (0 - stop) `div` step); [|lia].
  replace (0 - stop) with (- stop) by lia.
  rewrite <- (Z.opp_involutive step) at 1.
  rewrite Z.div_opp_opp by lia. apply Z.div_pos; lia.
Qed.

Lemma py_index_nonneg {A} (l : list A) i x :
  0 <= i -> py_index l i = Ok x -> l !! Z.to_nat i = Some x.
Proof.
  intros Hi. unfold py_index, norm_index. intros H.
  destruct (decide (0 <= i < Z.of_nat (length l))); simpl in H.
  - destruct (l !! Z.to_nat i); congruence.
  - destruct (decide (- Z.of_nat (length l) <= i < 0)); [lia | discriminate].
Qed.

(** ** Robots stay in their domains *)

Lemma set_position_spec r new_pos :
  _robot_domain (set_position r new_pos) = _robot_domain r /\
  (in_domain (_robot_domain r) new_pos -> _pos (set_position r new_pos) = new_pos) /\
  (~ in_domain (_robot_domain r) new_pos -> _pos (set_position r new_pos) = _pos r).
Proof.
  unfold set_position. destruct (decide (in_domain (_robot_domain r) new_pos)); simpl; tauto.
Qed.

Lemma candidate_valid p action :
  0 <= action <= 3 -> exists c, candidate p action = Ok c.
Proof.
  intros H.
  assert (action = 0 \/ action = 1 \/ action = 2 \/ action = 3) as Ha by lia.
  destruct Ha as [->|[->|[->| ->]]]; eexists; reflexivity.
Qed.

Lemma act_keeps_domain r action r' :
  act r action = Ok r' -> _robot_domain r' = _robot_domain r.
Proof.
  unfold act. intros H. inv_bind H. injection H as <-. apply set_position_spec.
Qed.

Lemma act_keeps_ok r action r' :
  robot_ok r -> act r action = Ok r' -> robot_ok r'.
Proof.
  unfold act, robot_ok. intros Hr H. inv_bind H. injection H as <-.
  destruct (set_position_spec r x) as (Hd & Hin & Hout). rewrite Hd.
  destruct (decide (in_domain (_robot_domain r) x)) as [Hx|Hx].
  - by rewrite Hin.
  - by rewrite Hout.
Qed.

Lemma robots_act_keeps_ok actions rs rs' :
  Forall robot_ok rs -> _robots_act actions rs = Ok rs' -> Forall robot_ok rs'.
Proof.
  revert rs rs'. induction actions as [|a actions IH]; intros rs rs' Hrs H.
  - simpl in H. by injection H as <-.
  - destruct rs as [|r rs]; simpl in H; [by injection H as <-|].
    inv_bind H. inv_bind H. injection H as <-.
    inversion Hrs as [|? ? Hr Hrs']; subst. constructor.
    + eapply act_keeps_ok; eauto.
    + eapply IH; eauto.
Qed.

(** Placement: a robot starts inside the domain it is given. *)
Lemma place_body_ok p domain_rows domain_columns i j st st' sr sc :
  0 <= n_rows p -> 0 <= n_columns p ->
  np_arange 0 (n_rows p) sr = Ok domain_rows ->
  np_arange 0 (n_columns p) sc = Ok domain_columns ->
  sr = (robot_domain_size p).1 - 1 -> sc = (robot_domain_size p).2 - 1 ->
  0 <= i -> 0 <= j ->
  Forall robot_ok st.1 ->
  place_body p domain_rows domain_columns i j st = Ok st' ->
  Forall robot_ok st'.1.
Proof.
  intros Hnr Hnc Hrows Hcols -> -> Hi Hj Hst H.
  unfold place_body in H. do 4 inv_bind H. injection H as <-. simpl.
  apply Forall_app; split; [done|]. apply Forall_singleton.
  unfold np_arange in Hrows, Hcols.
  destruct (decide ((robot_domain_size p).1 - 1 = 0)) as [|Hr0]; [discriminate|].
  destruct (decide ((robot_domain_size p).2 - 1 = 0)) as [|Hc0]; [discriminate|].
  injection Hrows as <-. injection Hcols as <-.
  apply py_index_nonneg in E, E0, E1, E2; try lia.
  apply range_elems_lookup in E as [-> Hlr], E0 as [-> Hlc],
    E1 as [-> _], E2 as [-> _].
  assert (0 < (robot_domain_size p).1 - 1) as Hsr.
  { destruct (Z_lt_le_dec ((robot_domain_size p).1 - 1) 0) as [Hneg|]; [|lia].
    rewrite range_len_neg_step in Hlr; lia. }
  assert (0 < (robot_domain_size p).2 - 1) as Hsc.
  { destruct (Z_lt_le_dec ((robot_domain_size p).2 - 1) 0) as [Hneg|]; [|lia].
    rewrite range_len_neg_step in Hlc; lia. }
  unfold robot_ok, in_domain; simpl.
  rewrite !Z2Nat.id by lia.
  pose proof (Z.div_pos (robot_domain_size p).1 2 ltac:(lia) ltac:(lia)).
  pose proof (Z.div_pos (robot_domain_size p).2 2 ltac:(lia) ltac:(lia)).
  pose proof (Z.div_lt (robot_domain_size p).1 2 ltac:(lia) ltac:(lia)).
  pose proof (Z.div_lt (robot_domain_size p).2 2 ltac:(lia) ltac:(lia)).
  lia.
Qed.

Lemma place_robots_ok p rid out :
  0 <= n_rows p -> 0 <= n_columns p ->
  _place_robots p rid = Ok out -> Forall robot_ok out.1.
Proof.
  intros Hnr Hnc H. unfold _place_robots in H. do 2 inv_bind H.
  revert H. apply (for_each_invariant (fun st => Forall robot_ok st.1)); [|constructor].
  intros i s s' Hi Hs. apply (for_each_invariant (fun st => Forall robot_ok st.1)); [|done].
  intros j t t' Hj Ht Hbody.
  apply elem_of_seqZ in Hi, Hj.
  apply (place_body_ok p x x0 i j t t' _ _ Hnr Hnc E E0 eq_refl eq_refl);
    [lia | lia | done | done].
Qed.

(** ** Removal and reward *)

Lemma coincide_eq robot_pos item_pos :
  coincide robot_pos item_pos = true <-> robot_pos = item_pos.
Proof.
  unfold coincide. destruct robot_pos, item_pos; simpl.
  rewrite andb_true_iff, !Z.eqb_eq. split; [intros [-> ->]; done | intros [= -> ->]; done].
Qed.

Lemma coincide_neq robot_pos item_pos :
  coincide robot_pos item_pos = false <-> robot_pos <> item_pos.
Proof. rewrite <- coincide_eq. destruct (coincide robot_pos item_pos); split; congruence. Qed.

(** The index loop, once it has enough iterations left to reach the end of
    the roster, is the recursive pass on the part not yet visited. *)
Lemma remove_loop_skip_filter fuel robot_pos k its :
  (length its - k <= fuel)%nat ->
  remove_loop fuel robot_pos k its = take k its ++ skip_filter robot_pos (drop k its).
Proof.
  revert k its. induction fuel as [|fuel IH]; intros k its Hfuel.
  - simpl. rewrite drop_ge by lia. rewrite take_ge by lia. simpl. by rewrite app_nil_r.
  - simpl. destruct (its !! k) as [item|] eqn:Hk.
    + pose proof (lookup_lt_Some _ _ _ Hk) as Hlt.
      rewrite (drop_S _ _ _ Hk). simpl.
      destruct (coincide robot_pos (get_position item)) eqn:Hc.
      * rewrite IH by (rewrite length_delete by eauto; lia).
        rewrite delete_take_drop.
        assert (length (take k its) = k) as Hlen by (rewrite length_take; lia).
        rewrite take_app, drop_app, Hlen.
        replace (S k - k)%nat with 1%nat by lia.
        rewrite (take_ge (take k its)) by lia.
        rewrite (drop_ge (take k its)) by lia.
        destruct (drop (S k) its) as [|next rest']; simpl.
        -- by rewrite !app_nil_r.
        -- rewrite take_0, drop_0. by rewrite <- app_assoc.
      * rewrite IH by lia. rewrite (take_S_r _ _ _ Hk), <- app_assoc. done.
    + apply lookup_ge_None in Hk.
      rewrite drop_ge by lia. rewrite take_ge by lia. simpl. by rewrite app_nil_r.
Qed.

Lemma remove_pass_skip_filter robot_pos its :
  remove_pass robot_pos its = skip_filter robot_pos its.
Proof.
  unfold remove_pass. rewrite remove_loop_skip_filter by lia. done.
Qed.

(** More iterations change nothing: the pass stops at the end of the roster. *)
Lemma remove_loop_fuel fuel robot_pos its :
  (length its <= fuel)%nat ->
  remove_loop fuel robot_pos 0 its = remove_pass robot_pos its.
Proof.
  intros H. unfold remove_pass. rewrite !remove_loop_skip_filter by lia. done.
Qed.

Lemma skip_filter_sublist robot_pos its :
  skip_filter robot_pos its `sublist_of` its.
Proof.
  induction its as [its IH] using (induction_ltof1 _ (@length Item)).
  destruct its as [|item rest]; simpl; [constructor|].
  destruct (coincide robot_pos (get_position item)).
  - destruct rest as [|next rest']; [apply sublist_nil_l|].
    apply sublist_cons, sublist_skip, IH. unfold ltof. simpl. lia.
  - apply sublist_skip, IH. unfold ltof. simpl. lia.
Qed.

Lemma skip_filter_no_hit robot_pos its :
  robot_pos ∉ get_position <$> its -> skip_filter robot_pos its = its.
Proof.
  induction its as [|item rest IH]; [done|].
  rewrite fmap_cons, not_elem_of_cons. intros [Hne Hrest]. cbn [skip_filter].
  apply coincide_neq in Hne. rewrite Hne. by rewrite IH.
Qed.

(** On a roster without two items on one cell the pass removes exactly the
    item under the robot. *)
Lemma skip_filter_filter robot_pos its :
  NoDup (get_position <$> its) ->
  skip_filter robot_pos its = filter (fun it => robot_pos <> get_position it) its.
Proof.
  induction its as [|item rest IH]; [done|].
  rewrite fmap_cons, NoDup_cons. intros [Hnot Hnd]. cbn [skip_filter].
  destruct (coincide robot_pos (get_position item)) eqn:Hc.
  - apply coincide_eq in Hc. subst robot_pos.
    rewrite filter_cons_False by tauto.
    rewrite <- IH by done. rewrite skip_filter_no_hit by done.
    destruct rest as [|next rest']; [done|].
    rewrite fmap_cons, not_elem_of_cons in Hnot.
    by rewrite skip_filter_no_hit by tauto.
  - apply coincide_neq in Hc. rewrite filter_cons_True by done. by rewrite IH.
Qed.

Lemma remove_items_sublist rs its :
  _remove_items rs its `sublist_of` its.
Proof.
  unfold _remove_items. revert its.
  induction rs as [|r rs IH]; intros its; simpl; [done|].
  etrans; [apply IH|]. rewrite remove_pass_skip_filter. apply skip_filter_sublist.
Qed.

Lemma NoDup_positions_sublist (its its' : list Item) :
  its' `sublist_of` its ->
  NoDup (get_position <$> its) -> NoDup (get_position <$> its').
Proof.
  intros Hsub Hnd. eapply sublist_NoDup; [exact Hnd|]. by apply fmap_sublist.
Qed.

Lemma remove_items_uncollected rs its :
  NoDup (get_position <$> its) ->
  _remove_items rs its = uncollected rs its.
Proof.
  unfold _remove_items, uncollected. revert its.
  induction rs as [|r rs IH]; intros its Hnd; simpl.
  - induction its as [|it rest IH]; [done|].
    rewrite filter_cons_True by apply not_elem_of_nil.
    rewrite fmap_cons, NoDup_cons in Hnd. f_equal. apply IH, Hnd.
  - rewrite remove_pass_skip_filter, skip_filter_filter by done.
    rewrite IH.
    + rewrite list_filter_filter. apply list_filter_iff. intros it.
      rewrite not_elem_of_cons. split; [intros [? ?]; split; [congruence | done] |].
      intros [? ?]; split; [done | congruence].
    + eapply NoDup_positions_sublist; [apply sublist_filter | done].
Qed.

(** The reward adds, robot by robot, the items on the robot's cell. *)
Lemma inner_reward robot_pos its reward :
  foldl (fun reward item =>
           if coincide robot_pos (get_position item) then reward + 1 else reward)
        reward its = reward + hits robot_pos its.
Proof.
  unfold hits. revert reward. induction its as [|item rest IH]; intros reward; simpl; [lia|].
  rewrite IH. destruct (coincide robot_pos (get_position item)) eqn:Hc.
  - apply coincide_eq in Hc. rewrite filter_cons_True by done. simpl. lia.
  - apply coincide_neq in Hc. rewrite filter_cons_False by done. lia.
Qed.

Lemma compute_reward_sum rs its :
  _compute_reward rs its = foldr (fun r acc => hits (_pos r) its + acc) 0 rs.
Proof.
  unfold _compute_reward.
  assert (forall acc, foldl (fun reward robot =>
      foldl (fun reward item =>
               if coincide (_pos robot) (get_position item)
               then reward + 1 else reward) reward its) acc rs
    = acc + foldr (fun r acc => hits (_pos r) its + acc) 0 rs) as H.
  { induction rs as [|r rs IH]; intros acc; simpl; [lia|].
    rewrite IH, inner_reward. lia. }
  rewrite H. lia.
Qed.

Lemma hits_filter_other robot_pos other its :
  robot_pos <> other ->
  hits robot_pos (filter (fun it => other <> get_position it) its) = hits robot_pos its.
Proof.
  intros Hne. unfold hits. f_equal. f_equal.
  rewrite list_filter_filter. apply list_filter_iff. intros it. split; [tauto|].
  intros <-. split; [done | congruence].
Qed.

Lemma length_filter_split robot_pos (its : list Item) :
  Z.of_nat (length its) =
  hits robot_pos its
  + Z.of_nat (length (filter (fun it => robot_pos <> get_position it) its)).
Proof.
  unfold hits. induction its as [|item rest IH]; simpl; [done|].
  destruct (decide (robot_pos = get_position item)) as [He|Hne].
  - rewrite filter_cons_True by done. rewrite (filter_cons_False (fun it => _ <> _)) by tauto.
    simpl. lia.
  - rewrite filter_cons_False by done. rewrite (filter_cons_True (fun it => _ <> _)) by done.
    simpl. lia.
Qed.

(** With the robots on pairwise distinct cells and the items on pairwise
    distinct cells, the reward is the number of items the removal takes. *)
Lemma reward_counts_removed rs its :
  NoDup (_pos <$> rs) -> NoDup (get_position <$> its) ->
  _compute_reward rs its =
  Z.of_nat (length its) - Z.of_nat (length (_remove_items rs its)).
Proof.
  rewrite compute_reward_sum. unfold _remove_items. revert its.
  induction rs as [|r rs IH]; intros its Hrs Hits; simpl; [lia|].
  rewrite fmap_cons, NoDup_cons in Hrs. destruct Hrs as [Hr Hrs].
  rewrite remove_pass_skip_filter, skip_filter_filter by done.
  set (its1 := filter (fun it => _pos r <> get_position it) its).
  assert (NoDup (get_position <$> its1)) as Hits1.
  { eapply NoDup_positions_sublist; [apply sublist_filter | done]. }
  specialize (IH its1 Hrs Hits1).
  assert (foldr (fun r0 acc => hits (_pos r0) its + acc) 0 rs
          = foldr (fun r0 acc => hits (_pos r0) its1 + acc) 0 rs) as Hsame.
  { clear IH Hrs. induction rs as [|r' rs IH']; simpl; [done|].
    rewrite fmap_cons, not_elem_of_cons in Hr. destruct Hr as [Hne Hr].
    rewrite IH' by done. f_equal. unfold its1. symmetry.
    apply hits_filter_other. congruence. }
  rewrite Hsame, IH. pose proof (length_filter_split (_pos r) its). fold its1 in H. lia.
Qed.

(** ** Spawning *)

Section SimulationFacts.

Context {NpState : Type} {np : NumpyRandom NpState}.

Lemma extends_refl its : extends its its.
Proof. exists []. by rewrite app_nil_r. Qed.

Lemma extends_trans a b c : extends a b -> extends b c -> extends a c.
Proof.
  intros (x & -> & Hx) (y & -> & Hy). exists (x ++ y).
  rewrite app_assoc. split; [done|]. by apply Forall_app.
Qed.

Lemma spawn_body_inv prob loc (s : Spawn NpState) :
  spawn_inv s ->
  spawn_inv (spawn_body prob loc s) /\
  extends (sp_items s) (sp_items (spawn_body prob loc s)).
Proof.
  intros [Hnd Hlocs]. unfold spawn_body.
  destruct (np_random_uniform (sp_random s)) as [u g].
  destruct (Qltb u prob); simpl; [|split; [done | apply extends_refl]].
  destruct (sp_item_locs s) as [item_locs|] eqn:Hl; simpl.
  - destruct (bool_decide (loc ∈ item_locs)) eqn:Hin; simpl.
    + split; [|apply extends_refl]. split; simpl; done.
    + apply bool_decide_eq_false in Hin. subst item_locs. split.
      * split; simpl; [|done]. rewrite fmap_app. apply NoDup_app.
        split; [done|]. split; [|apply NoDup_singleton].
        intros x Hx Hx'. simpl in Hx'.
        inversion Hx' as [|? ? ? Hn]; subst; [done | inversion Hn].
      * exists [new_Item (sp_item_id s) loc]. split; [done|].
        by apply Forall_singleton.
  - split.
    + split; simpl; [|done]. rewrite Hlocs. simpl. apply NoDup_singleton.
    + exists [new_Item (sp_item_id s) loc]. split; [done|].
      by apply Forall_singleton.
Qed.

Lemma spawn_row_inv p row (s s' : Spawn NpState) :
  spawn_inv s -> spawn_row p row s = Ok s' ->
  spawn_inv s' /\ extends (sp_items s) (sp_items s').
Proof.
  intros Hs H. unfold spawn_row in H. inv_bind H. injection H as <-.
  apply (foldl_invariant
           (fun t => spawn_inv t /\ extends (sp_items s) (sp_items t))).
  - intros column t _ [Ht Hext].
    destruct (spawn_body_inv (prob_item_appears p) (row, column) t Ht) as [Ht' Hext'].
    split; [done|]. eapply extends_trans; eauto.
  - split; [done | apply extends_refl].
Qed.

Lemma add_items_loop_inv p (s s' : Spawn NpState) :
  spawn_inv s -> add_items_loop p s = Ok s' ->
  spawn_inv s' /\ extends (sp_items s) (sp_items s').
Proof.
  intros Hs. unfold add_items_loop.
  apply (for_each_invariant
           (fun t => spawn_inv t /\ extends (sp_items s) (sp_items t))).
  - intros row t t' _ [Ht Hext] Hrow.
    destruct (spawn_row_inv p row t t' Ht Hrow) as [Ht' Hext'].
    split; [done|]. eapply extends_trans; eauto.
  - split; [done | apply extends_refl].
Qed.

Lemma add_items_spec (w w' : Warehouse NpState) :
  NoDup (get_position <$> items w) -> _add_items w = Ok w' ->
  NoDup (get_position <$> items w') /\ extends (items w) (items w') /\
  robots w' = robots w /\ parameters w' = parameters w /\
  episode_length w' = episode_length w /\
  n_items_collected w' = n_items_collected w.
Proof.
  intros Hnd H. unfold _add_items in H. inv_bind H. injection H as <-. simpl.
  apply add_items_loop_inv in E.
  - destruct E as [[Hnd' _] Hext]. simpl in Hext. done.
  - split; simpl; [done|]. unfold initial_item_locs.
    destruct (decide (0 < length (items w))%nat) as [Hlen|Hlen]; [done|].
    destruct (items w); [done | simpl in Hlen; lia].
Qed.

Lemma reset_spec (w0 w : Warehouse NpState) out :
  reset w0 = Ok (out, w) ->
  NoDup (get_position <$> items w) /\ parameters w = parameters w0 /\
  (0 <= n_rows (parameters w0) -> 0 <= n_columns (parameters w0) ->
   Forall robot_ok (robots w)).
Proof.
  intros H. unfold reset in H. do 2 inv_bind H. injection H as <- <-. simpl.
  apply add_items_spec in E0; [|simpl; apply NoDup_nil_2].
  destruct E0 as (Hnd & _ & Hrs & Hp & _). simpl in *.
  split; [done|]. split; [done|]. intros Hr Hc. rewrite Hrs.
  eapply place_robots_ok; eauto.
Qed.

Lemma step_spec (w w' : Warehouse NpState) actions out :
  NoDup (get_position <$> items w) ->
  step w actions = Ok (out, w') ->
  exists rs,
    _robots_act actions (robots w) = Ok rs /\
    out.1 = _compute_reward rs (items w) /\
    robots w' = rs /\ parameters w' = parameters w /\
    NoDup (get_position <$> items w') /\
    extends (_remove_items rs (items w)) (items w').
Proof.
  intros Hnd H. unfold step in H. do 2 inv_bind H. injection H as <- <-. simpl.
  apply add_items_spec in E0; simpl.
  - destruct E0 as (Hnd' & Hext & Hrs & Hp & _). simpl in *.
    exists x. repeat split; done.
  - simpl. eapply NoDup_positions_sublist; [apply remove_items_sublist | done].
Qed.

Lemma seed_spec (w : Warehouse NpState) s :
  items (seed w s) = items w /\ robots (seed w s) = robots w /\
  parameters (seed w s) = parameters w.
Proof. destruct s; done. Qed.

(** The two invariants of the simulation. *)
Lemma reachable_inv (w : Warehouse NpState) :
  reachable w ->
  NoDup (get_position <$> items w) /\
  (0 <= n_rows (parameters w) -> 0 <= n_columns (parameters w) ->
   Forall robot_ok (robots w)).
Proof.
  induction 1 as [w0 out w Hreset | w s Hw IH | w actions out w' Hw IH Hstep].
  - destruct (reset_spec _ _ _ Hreset) as (Hnd & Hp & Hrs). rewrite Hp. done.
  - destruct (seed_spec w s) as (-> & -> & ->). done.
  - destruct IH as [Hnd Hok].
    destruct (step_spec _ _ _ _ Hnd Hstep) as (rs & Hact & _ & Hrs & Hp & Hnd' & _).
    split; [done|]. rewrite Hp, Hrs. intros Hr Hc.
    eapply robots_act_keeps_ok; [|exact Hact]. by apply Hok.
Qed.

End SimulationFacts.

(** ** The claims about movement, reward, removal and spawning *)

Lemma shared_column_start_reachable : reachable shared_column_start.
Proof.
  apply (reach_reset (new_Warehouse shared_column_parameters) (0, false)).
  vm_compute. reflexivity.
Qed.

Lemma aisle_start_reachable : reachable aisle_start.
Proof.
  apply (reach_reset (new_Warehouse aisle_parameters) (0, false)).
  vm_compute. reflexivity.
Qed.

(** C1, as stated, fails: in a reachable state two robots move onto the
    shared cell (1,2) of their domains, where one item lies; the reward of
    the tick is 2 and one item is removed. *)
Lemma reward_exceeds_removed_on_shared_cell :
  ~ (forall (w w' : Warehouse Z) actions reward done,
       reachable w ->
       step w actions = Ok (reward, done, w') ->
       reward = Z.of_nat (length (items w))
                - Z.of_nat (length (_remove_items (robots w') (items w)))).
Proof.
  intros H.
  specialize (H shared_column_start
                (state_after shared_column_start (step shared_column_start [3; 2]))
                [3; 2] 2 false shared_column_start_reachable).
  assert (2 = 1) as Habs; [|discriminate].
  etrans; [apply H; vm_compute; reflexivity|]. vm_compute. reflexivity.
Qed.

Lemma robots_on_cons r rs cell :
  robots_on (r :: rs) cell
  = ((if decide (_pos r = cell) then 1 else 0) + robots_on rs cell)%nat.
Proof.
  unfold robots_on. destruct (decide (_pos r = cell)) as [He|Hne].
  - by rewrite filter_cons_True.
  - by rewrite filter_cons_False.
Qed.

Lemma robots_on_positive rs cell :
  cell ∈ _pos <$> rs <-> (0 < robots_on rs cell)%nat.
Proof.
  induction rs as [|r rs IH].
  - unfold robots_on. simpl. split; [by intros ?%elem_of_nil | lia].
  - rewrite fmap_cons, elem_of_cons, robots_on_cons, IH.
    destruct (decide (_pos r = cell)) as [He|Hne].
    + split; [lia | by left].
    + split; [intros [Heq|Hin]; [congruence | lia] | intros Hpos; right; lia].
Qed.

Lemma hits_cons robot_pos it its :
  hits robot_pos (it :: its)
  = (if decide (robot_pos = get_position it) then 1 else 0) + hits robot_pos its.
Proof.
  unfold hits. destruct (decide (robot_pos = get_position it)) as [He|Hne].
  - rewrite filter_cons_True by done. simpl length. lia.
  - rewrite filter_cons_False by done. lia.
Qed.

Lemma coinciding_pairs_cons_robot r rs its :
  coinciding_pairs (r :: rs) its = hits (_pos r) its + coinciding_pairs rs its.
Proof.
  unfold coinciding_pairs. induction its as [|it its IH].
  - unfold hits. simpl. lia.
  - cbn [foldr]. rewrite IH, hits_cons, robots_on_cons.
    destruct (decide (_pos r = get_position it)); lia.
Qed.

(** The reward counts the coinciding pairs. *)
Lemma reward_by_items rs its :
  _compute_reward rs its = coinciding_pairs rs its.
Proof.
  rewrite compute_reward_sum. induction rs as [|r rs IH].
  - unfold coinciding_pairs. simpl. induction its as [|it its IHi]; [done|].
    cbn [foldr]. rewrite <- IHi. unfold robots_on. simpl. lia.
  - cbn [foldr]. by rewrite IH, coinciding_pairs_cons_robot.
Qed.

(** The items under a robot against the coinciding pairs. *)
Lemma removed_against_pairs rs its :
  let removed := Z.of_nat (length its) - Z.of_nat (length (uncollected rs its)) in
  removed <= coinciding_pairs rs its /\
  (coinciding_pairs rs its = removed <->
   Forall (fun it => (robots_on rs (get_position it) <= 1)%nat) its).
Proof.
  unfold coinciding_pairs, uncollected. induction its as [|it its [IHle IHeq]].
  - simpl. split; [lia|]. split; [constructor | done].
  - cbn [foldr]. cbv zeta in *.
    pose proof (robots_on_positive rs (get_position it)) as Hpos.
    destruct (decide (get_position it ∈ _pos <$> rs)) as [Hin|Hout].
    + rewrite filter_cons_False by tauto. apply Hpos in Hin.
      rewrite Forall_cons. simpl length. split; [lia|]. rewrite <- IHeq. lia.
    + rewrite filter_cons_True by done.
      assert (robots_on rs (get_position it) = 0%nat) as Hzero.
      { destruct (robots_on rs (get_position it)); [done|].
        exfalso. apply Hout, Hpos. lia. }
      rewrite Forall_cons, Hzero. simpl length. split; [lia|]. rewrite <- IHeq. lia.
Qed.

(** C1, amended: in every tick from a reachable state the items that remain
    before the spawn are exactly those of the roster that lie on no robot, so
    every item on a robot's cell is removed and none survives.  The reward
    counts the coinciding (robot, item) pairs: an item under a robot
    contributes one unit for each robot on its cell.  So the reward is at
    least the number of items removed, and it equals that number exactly when
    no item of the roster has two robots on its cell. *)
Theorem step_reward_counts_removed_items
    {NpState : Type} {np : NumpyRandom NpState}
    (w w' : Warehouse NpState) (actions : list Z) (reward : Z) (done : bool) :
  reachable w ->
  step w actions = Ok (reward, done, w') ->
  let survivors := _remove_items (robots w') (items w) in
  let removed := Z.of_nat (length (items w)) - Z.of_nat (length survivors) in
  (forall it, it ∈ survivors <->
              it ∈ items w /\ get_position it ∉ _pos <$> robots w') /\
  extends survivors (items w') /\
  reward = coinciding_pairs (robots w') (items w) /\
  removed <= reward /\
  (reward = removed <->
   Forall (fun it => (robots_on (robots w') (get_position it) <= 1)%nat) (items w)).
Proof.
  intros Hw Hstep. destruct (reachable_inv w Hw) as [Hnd _].
  destruct (step_spec _ _ _ _ Hnd Hstep) as (rs & Hact & Hrew & <- & _ & _ & Hext).
  simpl in Hrew. subst reward. cbv zeta.
  rewrite remove_items_uncollected by done. rewrite reward_by_items.
  destruct (removed_against_pairs (robots w') (items w)) as [Hle Heq].
  split; [|split; [|split; [done|split; [exact Hle | exact Heq]]]].
  - intros it. unfold uncollected. rewrite list_elem_of_filter. tauto.
  - by rewrite <- remove_items_uncollected.
Qed.

Lemma step_reward_counts_removed_items_witness :
  let w := shared_column_start in
  let w' := state_after w (step w [3; 3]) in
  reachable w /\ step w [3; 3] = Ok (2, false, w') /\
  Forall (fun it => (robots_on (robots w') (get_position it) <= 1)%nat) (items w) /\
  2 = Z.of_nat (length (items w))
      - Z.of_nat (length (_remove_items (robots w') (items w))).
Proof.
  assert (step shared_column_start [3; 3]
          = Ok (2, false, state_after shared_column_start
                            (step shared_column_start [3; 3]))) as Hstep
    by (vm_compute; reflexivity).
  pose (after := state_after shared_column_start (step shared_column_start [3; 3])).
  assert (Forall (fun it => (robots_on (robots after) (get_position it) <= 1)%nat)
                 (items shared_column_start)) as Hall
    by (vm_compute; repeat constructor).
  subst after.
  cbv zeta. split; [exact shared_column_start_reachable|].
  split; [exact Hstep|]. split; [exact Hall|].
  exact (proj2 (proj2 (proj2 (proj2 (proj2
           (step_reward_counts_removed_items _ _ _ _ _
              shared_column_start_reachable Hstep))))) Hall).
Defined.

(** C2, on the code: a tick leaves the waiting time of every item as it was.
    From the state after [reset] the robots move up; the item created first
    is still in the roster after the tick, and every item of the roster has
    waiting time 0. *)
Theorem step_leaves_waiting_time_unchanged :
  let w := shared_column_start in
  let w' := state_after w (step w [0; 0]) in
  step w [0; 0] = Ok (2, false, w') /\
  new_Item 0 (0, 0) ∈ items w /\ new_Item 0 (0, 0) ∈ items w' /\
  Forall (fun it => get_waiting_time it = 0) (items w').
Proof.
  cbv zeta. split; [vm_compute; reflexivity|].
  split; [vm_compute; apply list_elem_of_here|].
  split; [vm_compute; apply list_elem_of_here|].
  vm_compute. repeat constructor.
Qed.

(** C7: in every state left by [reset] or by a tick, that is immediately
    after a spawn pass, no two items of the roster are on the same cell. *)
Theorem no_two_items_on_one_cell
    {NpState : Type} {np : NumpyRandom NpState} (w : Warehouse NpState) :
  reachable w -> NoDup (get_position <$> items w).
Proof. intros Hw. by destruct (reachable_inv w Hw). Qed.

Lemma no_two_items_on_one_cell_witness :
  reachable shared_column_start /\
  NoDup (get_position <$> items shared_column_start).
Proof.
  split; [exact shared_column_start_reachable|].
  exact (no_two_items_on_one_cell _ shared_column_start_reachable).
Defined.

(** C3: in a reachable state of a warehouse whose grid dimensions are not
    negative, [act] with an action among 0..3 succeeds on every robot and
    leaves its position inside its domain; a candidate position outside the
    domain leaves the position unchanged, one inside becomes the position. *)
Theorem act_keeps_robot_in_domain
    {NpState : Type} {np : NumpyRandom NpState}
    (w : Warehouse NpState) (r : Robot) (action : Z) :
  reachable w ->
  0 <= n_rows (parameters w) -> 0 <= n_columns (parameters w) ->
  r ∈ robots w ->
  0 <= action <= 3 ->
  exists new_pos r',
    candidate (_pos r) action = Ok new_pos /\
    act r action = Ok r' /\
    _robot_domain r' = _robot_domain r /\
    dom0 (_robot_domain r') <= (_pos r').1 <= dom2 (_robot_domain r') /\
    dom1 (_robot_domain r') <= (_pos r').2 <= dom3 (_robot_domain r') /\
    (~ in_domain (_robot_domain r) new_pos -> _pos r' = _pos r) /\
    (in_domain (_robot_domain r) new_pos -> _pos r' = new_pos).
Proof.
  intros Hw Hr Hc Hin Ha.
  destruct (reachable_inv w Hw) as [_ Hok]. specialize (Hok Hr Hc).
  rewrite Forall_forall in Hok. specialize (Hok r Hin).
  destruct (candidate_valid (_pos r) action Ha) as [new_pos Hcand].
  exists new_pos, (set_position r new_pos).
  assert (act r action = Ok (set_position r new_pos)) as Hact.
  { unfold act. by rewrite Hcand. }
  pose proof (act_keeps_ok _ _ _ Hok Hact) as [H1 H2].
  destruct (set_position_spec r new_pos) as (Hd & Hi & Ho).
  repeat split; try done; try apply H1; try apply H2.
Qed.

Lemma act_keeps_robot_in_domain_witness :
  let w := shared_column_start in
  let r := new_Robot 0 (1, 1) (mkDomain 0 0 2 2) in
  reachable w /\ 0 <= n_rows (parameters w) /\ 0 <= n_columns (parameters w) /\
  r ∈ robots w /\ 0 <= 2 <= 3 /\
  exists new_pos r',
    candidate (_pos r) 2 = Ok new_pos /\
    act r 2 = Ok r' /\
    _robot_domain r' = _robot_domain r /\
    dom0 (_robot_domain r') <= (_pos r').1 <= dom2 (_robot_domain r') /\
    dom1 (_robot_domain r') <= (_pos r').2 <= dom3 (_robot_domain r') /\
    (~ in_domain (_robot_domain r) new_pos -> _pos r' = _pos r) /\
    (in_domain (_robot_domain r) new_pos -> _pos r' = new_pos).
Proof.
  cbv zeta.
  assert (0 <= n_rows (parameters shared_column_start)) as Hr
    by (vm_compute; discriminate).
  assert (0 <= n_columns (parameters shared_column_start)) as Hc
    by (vm_compute; discriminate).
  assert (new_Robot 0 (1, 1) (mkDomain 0 0 2 2) ∈ robots shared_column_start) as Hin
    by (vm_compute; apply list_elem_of_here).
  assert (0 <= 2 <= 3) as Ha by lia.
  repeat (split; [assumption || exact shared_column_start_reachable|]).
  exact (act_keeps_robot_in_domain _ _ _ shared_column_start_reachable Hr Hc Hin Ha).
Defined.

(** C6, on the code: in the aisle row 1 of a grid of three rows and five
    columns with shelves two apart, the columns visited are [0; 2], the
    multiples of the shelf distance below the number of rows; column 4, a
    multiple below the number of columns, is not visited, and after a
    [reset] in which every visited free cell spawns, no item is on (1,4). *)
Theorem aisle_row_columns_stop_at_n_rows :
  spawn_columns aisle_parameters 1 = Ok [0; 2] /\
  range_elems 0 (n_columns aisle_parameters)
              (distance_between_shelves aisle_parameters) = [0; 2; 4] /\
  ((1, 4) ∉ get_position <$> items aisle_start) /\
  ((1, 2) ∈ get_position <$> items aisle_start).
Proof.
  split; [vm_compute; reflexivity|]. split; [vm_compute; reflexivity|].
  split.
  - intros Hin. apply list_elem_of_In in Hin. vm_compute in Hin.
    intuition discriminate.
  - vm_compute. do 6 apply list_elem_of_further. apply list_elem_of_here.
Qed.

(** ** Seeding and replay *)

Section EpisodeFacts.

Context {NpState PyState : Type} {np : NumpyRandom NpState} {py : PyRandom PyState}.

(** [seed] followed by [reset] forgets everything but the configuration. *)
Lemma reset_after_seed (w1 w2 : Warehouse NpState) (s : Z) :
  parameters w1 = parameters w2 ->
  reset (seed w1 (Some s)) = reset (seed w2 (Some s)).
Proof.
  intros Hp. unfold reset, seed, _add_items; simpl. rewrite Hp.
  destruct (_place_robots (parameters w2) 0) as [placed|e]; simpl; [|done].
  destruct (add_items_loop _ _) as [sp|e]; done.
Qed.

(** C5, amended: the spawn draws come from numpy's generator, which [seed]
    resets, so reseeding with the same seed and replaying the same joint
    actions reproduces the rewards, the termination flags and the final
    state of the episode (robots and items) whatever the warehouse went
    through before; the fallback actions of the robot policies come from
    Python's generator, which [seed] leaves as it is, so they are the same in
    two runs when that second stream starts in the same state. *)
Theorem replay_after_seed (p1 p2 : Process NpState PyState) (s : Z)
    (script : list (list Z)) (r : Robot) :
  parameters (warehouse p1) = parameters (warehouse p2) ->
  run_episode (warehouse p1) s script = run_episode (warehouse p2) s script /\
  py_random (process_seed p1 (Some s)) = py_random p1 /\
  (py_random p1 = py_random p2 ->
   (process_fallback (process_seed p1 (Some s)) r).1
   = (process_fallback (process_seed p2 (Some s)) r).1).
Proof.
  intros Hp. split; [|split].
  - unfold run_episode. by rewrite (reset_after_seed _ _ s Hp).
  - done.
  - unfold process_fallback, process_seed; simpl. intros ->.
    by destruct (select_random_action r (py_random p2)).
Qed.

End EpisodeFacts.

(** A process in the middle of an episode, and the same configuration
    freshly constructed. *)
Lemma replay_after_seed_witness :
  let p1 := mkProcess shared_column_start 2 in
  let p2 := mkProcess (new_Warehouse shared_column_parameters) 5 in
  parameters (warehouse p1) = parameters (warehouse p2) /\
  run_episode (warehouse p1) 7 [[3; 2]; [0; 0]]
  = run_episode (warehouse p2) 7 [[3; 2]; [0; 0]].
Proof.
  assert (parameters (warehouse (mkProcess shared_column_start 2))
          = parameters (warehouse (mkProcess (new_Warehouse shared_column_parameters) 5)))
    as Hp by (vm_compute; reflexivity).
  cbv zeta. split; [exact Hp|].
  exact (proj1 (replay_after_seed _ _ 7 [[3; 2]; [0; 0]]
                  (new_Robot 0 (1, 1) (mkDomain 0 0 2 2)) Hp)).
Defined.

(** C5, as stated, fails: a process seeds, lets a robot draw a fallback
    action, seeds again with the same seed and replays; the second fallback
    action is 1 where the first was 0, because [seed] resets numpy's
    generator only. *)
Lemma reseeding_does_not_replay_fallback_actions :
  ~ (forall (p : Process Z Z) (s : Z) (r : Robot),
       let first_run := process_fallback (process_seed p (Some s)) r in
       let second_run := process_fallback (process_seed first_run.2 (Some s)) r in
       second_run.1 = first_run.1).
Proof.
  intros H.
  specialize (H (mkProcess (new_Warehouse shared_column_parameters) 2) 0
                (new_Robot 0 (1, 1) (mkDomain 0 0 2 2))).
  vm_compute in H. discriminate.
Qed.

(** ** Two-dimensional arrays *)

Lemma norm_index_in_range i n :
  0 <= i < Z.of_nat n -> norm_index i n = Ok (Z.to_nat i).
Proof. intros H. unfold norm_index. by rewrite decide_True. Qed.

Lemma norm_index_Ok i n k :
  norm_index i n = Ok k -> (k < n)%nat /\ (0 <= i -> k = Z.to_nat i).
Proof.
  unfold norm_index. repeat case_decide; intros [= <-]; lia.
Qed.

Lemma py_index_in_range {A} (l : list A) i x :
  0 <= i -> l !! Z.to_nat i = Some x -> py_index l i = Ok x.
Proof.
  intros Hi Hx. pose proof (lookup_lt_Some _ _ _ Hx).
  unfold py_index. rewrite norm_index_in_range by lia. simpl. by rewrite Hx.
Qed.

Lemma py_index_last {A} (l : list A) x :
  l !! (length l - 1)%nat = Some x -> py_index l (-1) = Ok x.
Proof.
  intros Hx. pose proof (lookup_lt_Some _ _ _ Hx).
  unfold py_index, norm_index.
  rewrite decide_False by lia. rewrite decide_True by lia. simpl.
  replace (Z.to_nat (-1 + Z.of_nat (length l))) with (length l - 1)%nat by lia.
  by rewrite Hx.
Qed.

Lemma py_slice_in_range {A} (lo hi : Z) (l : list A) :
  0 <= lo -> lo <= hi -> hi <= Z.of_nat (length l) ->
  py_slice lo hi l = take (Z.to_nat (hi - lo)) (drop (Z.to_nat lo) l).
Proof.
  intros H1 H2 H3. unfold py_slice, norm_bound.
  rewrite !decide_False by lia. f_equal; [lia | f_equal; lia].
Qed.

Lemma cell_at_fmap {A B} (g : A -> B) (a : list (list A)) i j :
  cell_at ((fun row : list A => g <$> row) <$> a) i j = g <$> cell_at a i j.
Proof.
  unfold cell_at. rewrite list_lookup_fmap.
  destruct (a !! i) as [row|]; simpl; [|done]. by rewrite list_lookup_fmap.
Qed.

Lemma cell_at_zip_with {A B C} (f : A -> B -> C) a b i j :
  cell_at (zip_with (zip_with f) a b) i j
  = (x ← cell_at a i j; y ← cell_at b i j; Some (f x y)).
Proof.
  unfold cell_at. rewrite lookup_zip_with.
  destruct (a !! i) as [ra|]; simpl; [|done].
  destruct (b !! i) as [rb|]; simpl.
  - by rewrite lookup_zip_with.
  - by destruct (ra !! j).
Qed.

Lemma rect_fmap {A B} (g : A -> B) n m (a : list (list A)) :
  rect n m a -> rect n m ((fun row : list A => g <$> row) <$> a).
Proof.
  intros [Hn Hm]. split; [by rewrite length_fmap|].
  apply Forall_fmap. eapply Forall_impl; [exact Hm|].
  intros row Hrow. simpl. by rewrite length_fmap.
Qed.

Lemma rect_cell_is_Some {A} n m (a : list (list A)) i j :
  rect n m a -> (i < n)%nat -> (j < m)%nat -> is_Some (cell_at a i j).
Proof.
  intros [Hn Hm] Hi Hj. unfold cell_at.
  destruct (lookup_lt_is_Some_2 a i ltac:(lia)) as [row Hrow]. rewrite Hrow. simpl.
  apply lookup_lt_is_Some_2. rewrite Forall_lookup in Hm.
  rewrite (Hm _ _ Hrow). done.
Qed.

(** An in-place update of one cell: where it lands and what it changes. *)
Lemma update_cell_Ok {A} (f : A -> A) r c n m (a a' : list (list A)) :
  rect n m a -> update_cell f r c a = Ok a' ->
  exists i0 j0,
    (i0 < n)%nat /\ (j0 < m)%nat /\
    (0 <= r -> i0 = Z.to_nat r) /\ (0 <= c -> j0 = Z.to_nat c) /\
    rect n m a' /\
    forall i j, cell_at a' i j
                = if decide (i = i0 /\ j = j0) then f <$> cell_at a i j
                  else cell_at a i j.
Proof.
  intros [Hn Hm] H. unfold update_cell in H. inv_bind H.
  destruct (a !! x) as [row|] eqn:Hrow; [|discriminate]. inv_bind H.
  injection H as <-.
  apply norm_index_Ok in E as [Hx Hxr], E0 as [Hy Hyc].
  rewrite Forall_lookup in Hm. pose proof (Hm _ _ Hrow) as Hlen.
  exists x, x0. repeat split; try lia; try done.
  - by rewrite length_insert.
  - apply Forall_insert; [by apply Forall_lookup|]. by rewrite length_alter.
  - intros i j. unfold cell_at. rewrite list_lookup_insert.
    destruct (decide (x = i /\ (x < length a)%nat)) as [[-> _]|Hne]; simpl.
    + rewrite Hrow. simpl. rewrite list_lookup_alter.
      destruct (decide (x0 = j)) as [->|Hj].
      * rewrite decide_True by done. done.
      * rewrite decide_False by (intros [_ ?]; congruence). done.
    + rewrite decide_False; [done|]. intros [-> _]. apply Hne. split; [done | lia].
Qed.

Lemma update_cell_in_range {A} (f : A -> A) r c n m (a : list (list A)) :
  rect n m a -> 0 <= r < Z.of_nat n -> 0 <= c < Z.of_nat m ->
  exists a', update_cell f r c a = Ok a'.
Proof.
  intros [Hn Hm] Hr Hc. unfold update_cell.
  rewrite norm_index_in_range by lia. simpl.
  destruct (lookup_lt_is_Some_2 a (Z.to_nat r) ltac:(lia)) as [row Hrow].
  rewrite Hrow. rewrite Forall_lookup in Hm. rewrite (Hm _ _ Hrow).
  rewrite norm_index_in_range by lia. simpl. eauto.
Qed.

(** The slice of a domain that lies on the grid. *)
Lemma domain_slice_spec n m (state : list (list (Z * Z))) d :
  rect n m state -> domain_in_grid (Z.of_nat n) (Z.of_nat m) d ->
  rect (Z.to_nat (dom2 d - dom0 d + 1)) (Z.to_nat (dom3 d - dom1 d + 1))
       (domain_slice d state) /\
  forall i j,
    (i < Z.to_nat (dom2 d - dom0 d + 1))%nat ->
    (j < Z.to_nat (dom3 d - dom1 d + 1))%nat ->
    cell_at (domain_slice d state) i j
    = cell_at state (Z.to_nat (dom0 d) + i) (Z.to_nat (dom1 d) + j).
Proof.
  intros [Hn Hm] (H0 & H2 & H1 & H3). unfold domain_slice.
  rewrite (py_slice_in_range (dom0 d)) by lia.
  replace (dom2 d + 1 - dom0 d) with (dom2 d - dom0 d + 1) by lia.
  assert (forall row, row ∈ state ->
            py_slice (dom1 d) (dom3 d + 1) row
            = take (Z.to_nat (dom3 d - dom1 d + 1)) (drop (Z.to_nat (dom1 d)) row))
    as Hrows.
  { intros row Hrow. rewrite Forall_forall in Hm. specialize (Hm _ Hrow).
    rewrite py_slice_in_range by lia. do 2 f_equal. lia. }
  split; [split|].
  - rewrite length_fmap, length_take, length_drop. lia.
  - apply Forall_fmap, Forall_take, Forall_drop.
    rewrite Forall_forall. intros row Hrow. simpl.
    rewrite (Hrows _ Hrow). rewrite Forall_forall in Hm. specialize (Hm _ Hrow).
    rewrite length_take, length_drop. lia.
  - intros i j Hi Hj. unfold cell_at. rewrite list_lookup_fmap.
    rewrite lookup_take_lt by done. rewrite lookup_drop.
    destruct (state !! (Z.to_nat (dom0 d) + i)%nat) as [row|] eqn:Hrow; simpl; [|done].
    rewrite Hrows by (eapply list_elem_of_lookup_2; eauto).
    rewrite lookup_take_lt by done. by rewrite lookup_drop.
Qed.

(** ** The observations *)

Lemma robot_loc_spec (r : Robot) (observation : list (list (Z * Z))) :
  let d := _robot_domain r in
  let H := Z.to_nat (dom2 d - dom0 d + 1) in
  let W := Z.to_nat (dom3 d - dom1 d + 1) in
  rect H W observation -> in_domain d (_pos r) ->
  exists loc,
    robot_loc r observation = Ok loc /\ rect H W loc /\
    forall i j, (i < H)%nat -> (j < W)%nat ->
      cell_at loc i j
      = Some (if decide (i = Z.to_nat ((_pos r).1 - dom0 d) /\
                         j = Z.to_nat ((_pos r).2 - dom1 d))
              then 1 else 0).
Proof.
  intros d H W Hrect [Hr Hc]. unfold robot_loc. fold d.
  pose proof (rect_fmap (fun _ : Z * Z => 0) _ _ _ Hrect) as Hz.
  destruct (update_cell_in_range (fun _ : Z => 1) ((_pos r).1 - dom0 d)
              ((_pos r).2 - dom1 d) H W _ Hz) as [loc Hloc]; [lia | lia |].
  exists loc. split; [exact Hloc|].
  destruct (update_cell_Ok _ _ _ _ _ _ _ Hz Hloc)
    as (i0 & j0 & _ & _ & Hi0 & Hj0 & Hrect' & Hcells).
  split; [done|]. intros i j Hi Hj. rewrite Hcells, cell_at_fmap.
  rewrite Hi0, Hj0 by lia.
  destruct (rect_cell_is_Some _ _ _ i j Hrect Hi Hj) as [cell ->]. simpl.
  by destruct (decide _).
Qed.

(** The value of every cell of an ['image'] observation. *)
Lemma observe_image_spec n m (state : list (list (Z * Z))) (r : Robot) :
  let d := _robot_domain r in
  let H := Z.to_nat (dom2 d - dom0 d + 1) in
  let W := Z.to_nat (dom3 d - dom1 d + 1) in
  rect n m state -> domain_in_grid (Z.of_nat n) (Z.of_nat m) d ->
  in_domain d (_pos r) ->
  exists a,
    observe r state true = Ok (Image a) /\
    forall i j, (i < H)%nat -> (j < W)%nat ->
      cell_at a i j
      = Some (item_bit state (dom0 d + Z.of_nat i) (dom1 d + Z.of_nat j)
              + -1 * (if decide (i = Z.to_nat ((_pos r).1 - dom0 d) /\
                                 j = Z.to_nat ((_pos r).2 - dom1 d))
                      then 1 else 0)).
Proof.
  intros d H W Hrect Hgrid Hin.
  destruct (domain_slice_spec n m state d Hrect Hgrid) as [Hslice Hcells].
  destruct (robot_loc_spec r (domain_slice d state) Hslice Hin)
    as (loc & Hloc & Hlrect & Hlcells).
  unfold observe. fold d. rewrite Hloc. simpl. eexists. split; [reflexivity|].
  intros i j Hi Hj. rewrite cell_at_zip_with, cell_at_fmap.
  rewrite (Hlcells i j Hi Hj), (Hcells i j Hi Hj). unfold item_bit.
  destruct Hgrid as (H0 & _ & H1 & _).
  replace (Z.to_nat (dom0 d + Z.of_nat i)) with (Z.to_nat (dom0 d) + i)%nat by lia.
  replace (Z.to_nat (dom1 d + Z.of_nat j)) with (Z.to_nat (dom1 d) + j)%nat by lia.
  assert (is_Some (cell_at state (Z.to_nat (dom0 d) + i) (Z.to_nat (dom1 d) + j)))
    as [cell Hcell].
  { rewrite <- (Hcells i j Hi Hj). by eapply rect_cell_is_Some. }
  rewrite Hcell. done.
Qed.

(** *** The state bitmap *)

Lemma mark_items_spec n m its :
  forall (b b' : list (list (Z * Z))) cells,
    rect n m b -> marks n m b cells ->
    for_each mark_item its b = Ok b' ->
    rect n m b' /\ marks n m b' (cells ++ (get_position <$> its)).
Proof.
  induction its as [|it its IH]; intros b b' cells Hrect Hmarks Hrun; simpl in Hrun.
  - injection Hrun as <-. simpl. by rewrite app_nil_r.
  - inv_bind Hrun. unfold mark_item in E.
    destruct (update_cell_Ok _ _ _ _ _ _ _ Hrect E)
      as (i0 & j0 & Hi0 & Hj0 & Hr0 & Hc0 & Hrect' & Hcells).
    destruct (IH x b' (cells ++ [get_position it]) Hrect') as [Hrect'' Hmarks''].
    + intros i j Hi Hj. destruct (Hmarks i j Hi Hj) as (x0 & y0 & Hcell & Hone & Hzero).
      rewrite Hcells, Hcell. destruct (decide (i = i0 /\ j = j0)) as [[-> ->]|Hne]; simpl.
      * exists 1, y0. split; [done|]. split; [done|].
        intros Hnn Hnot. exfalso. apply Hnot.
        rewrite Forall_app, Forall_singleton in Hnn. destruct Hnn as [_ Hnn].
        apply elem_of_app. right. apply list_elem_of_singleton.
        destruct (get_position it) as [pr pc]; simpl in *.
        rewrite Hr0, Hc0 by lia. f_equal; lia.
      * exists x0, y0. split; [done|]. split.
        -- intros [Hc|Hc]%elem_of_app; [by apply Hone|].
           apply list_elem_of_singleton in Hc. exfalso. apply Hne.
           destruct (get_position it) as [pr pc]; simpl in *.
           injection Hc as <- <-. rewrite Hr0, Hc0 by lia. lia.
        -- intros Hnn Hnot. rewrite Forall_app in Hnn. destruct Hnn as [Hnn _].
           apply Hzero; [done|]. intros Hc. apply Hnot, elem_of_app. by left.
    + exact Hrun.
    + split; [done|]. by rewrite <- app_assoc in Hmarks''.
Qed.

Lemma mark_robots_spec n m rs :
  forall (b b' : list (list (Z * Z))) cells,
    rect n m b -> marks n m b cells ->
    for_each mark_robot rs b = Ok b' ->
    rect n m b' /\ marks n m b' cells.
Proof.
  induction rs as [|r rs IH]; intros b b' cells Hrect Hmarks Hrun; simpl in Hrun.
  - by injection Hrun as <-.
  - inv_bind Hrun. unfold mark_robot in E.
    destruct (update_cell_Ok _ _ _ _ _ _ _ Hrect E)
      as (i0 & j0 & _ & _ & _ & _ & Hrect' & Hcells).
    apply (IH x b' cells Hrect'); [|exact Hrun].
    intros i j Hi Hj. destruct (Hmarks i j Hi Hj) as (x0 & y0 & Hcell & Hone & Hzero).
    rewrite Hcells, Hcell. destruct (decide (i = i0 /\ j = j0)); simpl; eauto.
Qed.

Lemma get_state_spec p its rs (state : list (list (Z * Z))) :
  _get_state p its rs = Ok state ->
  0 <= n_rows p /\ 0 <= n_columns p /\
  rect (Z.to_nat (n_rows p)) (Z.to_nat (n_columns p)) state /\
  marks (Z.to_nat (n_rows p)) (Z.to_nat (n_columns p)) state (get_position <$> its).
Proof.
  intros H. unfold _get_state in H. do 2 inv_bind H.
  unfold np_zeros in E. destruct (decide _) as [|Hdim]; [discriminate|].
  injection E as <-.
  assert (rect (Z.to_nat (n_rows p)) (Z.to_nat (n_columns p))
            (replicate (Z.to_nat (n_rows p))
               (replicate (Z.to_nat (n_columns p)) (0, 0)))) as Hrect.
  { split; [by rewrite length_replicate|].
    apply Forall_replicate. by rewrite length_replicate. }
  destruct (mark_items_spec _ _ its _ x0 [] Hrect) as [Hrect' Hmarks'].
  - intros i j Hi Hj. exists 0, 0. split; [|split; [by intros ?%elem_of_nil | done]].
    unfold cell_at. rewrite lookup_replicate_2 by done. simpl.
    by rewrite lookup_replicate_2.
  - exact E0.
  - destruct (mark_robots_spec _ _ rs _ _ _ Hrect' Hmarks' H) as [Hrect'' Hmarks''].
    repeat split; try lia; try apply Hrect''. exact Hmarks''.
Qed.

(** *** The ['vector'] observation *)

Lemma array_ext {A} n m (a b : list (list A)) :
  rect n m a -> rect n m b ->
  (forall i j, (i < n)%nat -> (j < m)%nat -> cell_at a i j = cell_at b i j) ->
  a = b.
Proof.
  intros [Han Ham] [Hbn Hbm] Hcells. apply list_eq. intros i.
  destruct (decide (i < n)%nat) as [Hi|Hi].
  - destruct (lookup_lt_is_Some_2 a i ltac:(lia)) as [ra Hra].
    destruct (lookup_lt_is_Some_2 b i ltac:(lia)) as [rb Hrb].
    rewrite Hra, Hrb. f_equal. apply list_eq. intros j.
    rewrite Forall_lookup in Ham, Hbm.
    pose proof (Ham _ _ Hra) as Hla. pose proof (Hbm _ _ Hrb) as Hlb.
    destruct (decide (j < m)%nat) as [Hj|Hj].
    + specialize (Hcells i j Hi Hj). unfold cell_at in Hcells.
      by rewrite Hra, Hrb in Hcells.
    + rewrite !(proj2 (lookup_ge_None _ _)) by lia. done.
  - rewrite !(proj2 (lookup_ge_None _ _)) by lia. done.
Qed.

Lemma length_concat_rect {A} n m (a : list (list A)) :
  rect n m a -> length (concat a) = (n * m)%nat.
Proof.
  intros [<- Hm]. induction Hm as [|row a Hrow _ IH]; simpl; [done|].
  rewrite length_app, IH, Hrow. done.
Qed.

Lemma length_domain_columns d :
  length (domain_columns d) = Z.to_nat (dom3 d - dom1 d + 1).
Proof. unfold domain_columns. apply length_seqZ. Qed.

(** The item channel of the slice, read off the global state. *)
Lemma channel0_table n m (state : list (list (Z * Z))) d :
  rect n m state -> domain_in_grid (Z.of_nat n) (Z.of_nat m) d ->
  (fun row : list (Z * Z) => fst <$> row) <$> domain_slice d state
  = item_row state d <$> seqZ (dom0 d) (dom2 d - dom0 d + 1).
Proof.
  intros Hrect Hgrid.
  destruct (domain_slice_spec n m state d Hrect Hgrid) as [Hslice Hcells].
  apply (array_ext (Z.to_nat (dom2 d - dom0 d + 1)) (Z.to_nat (dom3 d - dom1 d + 1))).
  - by apply rect_fmap.
  - split; [by rewrite length_fmap, length_seqZ|].
    apply Forall_fmap, Forall_forall. intros r _. simpl.
    unfold item_row. by rewrite length_fmap, length_domain_columns.
  - intros i j Hi Hj. rewrite cell_at_fmap, (Hcells i j Hi Hj).
    unfold cell_at at 2. rewrite list_lookup_fmap, lookup_seqZ_lt by lia. simpl.
    unfold item_row, domain_columns.
    rewrite list_lookup_fmap, lookup_seqZ_lt by lia. simpl.
    unfold item_bit. destruct Hgrid as (H0 & _ & H1 & _).
    replace (Z.to_nat (dom0 d + Z.of_nat i)) with (Z.to_nat (dom0 d) + i)%nat by lia.
    replace (Z.to_nat (dom1 d + Z.of_nat j)) with (Z.to_nat (dom1 d) + j)%nat by lia.
    assert (is_Some (cell_at state (Z.to_nat (dom0 d) + i) (Z.to_nat (dom1 d) + j)))
      as [cell Hcell].
    { rewrite <- (Hcells i j Hi Hj). by eapply rect_cell_is_Some. }
    by rewrite Hcell.
Qed.

Lemma item_row_first (state : Bitmap) d r :
  dom1 d <= dom3 d ->
  py_index (item_row state d r) 0 = Ok (item_bit state r (dom1 d)).
Proof.
  intros Hd. apply py_index_in_range; [done|].
  unfold item_row, domain_columns. simpl.
  rewrite list_lookup_fmap, lookup_seqZ_lt by lia. simpl. do 2 f_equal. lia.
Qed.

Lemma item_row_last (state : Bitmap) d r :
  dom1 d <= dom3 d ->
  py_index (item_row state d r) (-1) = Ok (item_bit state r (dom3 d)).
Proof.
  intros Hd. apply py_index_last.
  unfold item_row. rewrite length_fmap, length_domain_columns.
  unfold domain_columns. rewrite list_lookup_fmap, lookup_seqZ_lt by lia. simpl.
  do 2 f_equal. lia.
Qed.

Lemma side_bits_rows (state : Bitmap) d rows :
  dom1 d <= dom3 d ->
  side_bits (item_row state d <$> rows)
  = Ok ((fun r => [item_bit state r (dom1 d); item_bit state r (dom3 d)]) <$> rows).
Proof.
  intros Hd. induction rows as [|r rows IH]; [done|].
  rewrite !fmap_cons. cbn [side_bits].
  rewrite item_row_first, item_row_last by done. simpl. rewrite IH. done.
Qed.

Lemma seqZ_inner a h :
  0 < h ->
  take (Z.to_nat (h - 1) - 1) (drop 1 (seqZ a h)) = seqZ (a + 1) (h - 2).
Proof.
  intros Hh. apply list_eq. intros i. rewrite lookup_take, lookup_drop.
  destruct (decide (i < Z.to_nat (h - 1) - 1)%nat) as [Hi|Hi].
  - rewrite !lookup_seqZ_lt by lia. f_equal. lia.
  - symmetry. apply lookup_seqZ_ge. lia.
Qed.

Lemma item_vec_spec n m (state : list (list (Z * Z))) d :
  rect n m state -> domain_in_grid (Z.of_nat n) (Z.of_nat m) d ->
  item_vec ((fun row : list (Z * Z) => fst <$> row) <$> domain_slice d state)
  = Ok (ring_rowwise state d).
Proof.
  intros Hrect Hgrid. rewrite (channel0_table n m) by done.
  destruct Hgrid as (H0 & H2 & H1 & H3). unfold item_vec.
  rewrite (py_index_in_range _ 0 (item_row state d (dom0 d))); [|done|].
  2:{ simpl. rewrite list_lookup_fmap, lookup_seqZ_lt by lia. simpl.
      do 2 f_equal. lia. }
  simpl.
  rewrite (py_index_last _ (item_row state d (dom2 d))).
  2:{ rewrite length_fmap, length_seqZ, list_lookup_fmap, lookup_seqZ_lt by lia.
      simpl. do 2 f_equal. lia. }
  simpl.
  assert (py_slice 1 (-1) (item_row state d <$> seqZ (dom0 d) (dom2 d - dom0 d + 1))
          = item_row state d <$> interior_rows d) as ->.
  { unfold py_slice, norm_bound. rewrite length_fmap, length_seqZ.
    rewrite (decide_True (P := -1 < 0)) by lia.
    rewrite (decide_False (P := 1 < 0)) by lia.
    rewrite <- fmap_drop, <- fmap_take. f_equal. unfold interior_rows.
    replace (Z.to_nat (Z.min 1 (Z.of_nat (Z.to_nat (dom2 d - dom0 d + 1)))))
      with 1%nat by lia.
    replace (Z.to_nat (Z.max (-1 + Z.of_nat (Z.to_nat (dom2 d - dom0 d + 1))) 0) - 1)%nat
      with (Z.to_nat (dom2 d - dom0 d + 1 - 1) - 1)%nat by lia.
    rewrite seqZ_inner by lia. f_equal. lia. }
  rewrite side_bits_rows by lia. simpl. done.
Qed.

Lemma observe_vector_spec n m (state : list (list (Z * Z))) (r : Robot) :
  let d := _robot_domain r in
  rect n m state -> domain_in_grid (Z.of_nat n) (Z.of_nat m) d ->
  in_domain d (_pos r) ->
  exists loc,
    robot_loc r (domain_slice d state) = Ok loc /\
    length (concat loc) = domain_cells d /\
    observe r state false = Ok (Vector (concat loc ++ ring_rowwise state d)).
Proof.
  intros d Hrect Hgrid Hin.
  destruct (domain_slice_spec n m state d Hrect Hgrid) as [Hslice _].
  destruct (robot_loc_spec r (domain_slice d state) Hslice Hin)
    as (loc & Hloc & Hlrect & _).
  exists loc. split; [exact Hloc|]. split.
  - by apply length_concat_rect.
  - unfold observe. fold d. rewrite (item_vec_spec n m) by done. simpl.
    rewrite Hloc. done.
Qed.

Lemma ring_start_reachable : reachable ring_start.
Proof.
  apply (reach_reset (new_Warehouse ring_parameters) (0, false)).
  vm_compute. reflexivity.
Qed.

(** C4, as stated, fails: after [reset] of the 4x4 warehouse the items on the
    interior rows lie on (1,0) and (2,0); the ring segment of the robot's
    vector ends with [1; 0; 1; 0], the (left, right) pairs of rows 1 and 2,
    where the order of the claim gives [1; 1; 0; 0]. *)
Lemma ring_segment_is_not_columnwise :
  ~ (forall (w : Warehouse Z) (r : Robot) (state : Bitmap) (v : list Z),
       reachable w -> r ∈ robots w ->
       _get_state (parameters w) (items w) (robots w) = Ok state ->
       observe r state false = Ok (Vector v) ->
       drop (domain_cells (_robot_domain r)) v
       = ring_columnwise state (_robot_domain r)).
Proof.
  intros H.
  specialize (H ring_start (new_Robot 0 (2, 2) (mkDomain 0 0 3 3))
                (bitmap_of ring_start)
                ([0; 0; 0; 0; 0; 0; 0; 0; 0; 0; 1; 0; 0; 0; 0; 0]
                 ++ [1; 0; 1; 0; 1; 1; 1; 0; 1; 0; 1; 0])
                ring_start_reachable).
  assert (drop 16 ([0; 0; 0; 0; 0; 0; 0; 0; 0; 0; 1; 0; 0; 0; 0; 0]
                   ++ [1; 0; 1; 0; 1; 1; 1; 0; 1; 0; 1; 0])
          = [1; 0; 1; 0; 1; 1; 1; 0; 1; 1; 0; 0]) as Habs; [|discriminate Habs].
  etrans; [apply H|].
  - vm_compute. apply list_elem_of_here.
  - vm_compute. reflexivity.
  - vm_compute. reflexivity.
  - vm_compute. reflexivity.
Qed.

(** C4, amended: for every rectangular state bitmap and every robot whose
    domain lies on the grid and holds its position, the ['vector']
    observation is produced, and its part after the one-hot self-location
    block (one entry per domain cell) is, in this order: the item bits of
    the domain's top row, those of its bottom row, then for each interior
    row from top to bottom its left-column bit followed by its right-column
    bit. *)
Theorem vector_ring_segment_is_rowwise (n m : nat) (state : Bitmap) (r : Robot) :
  rect n m state ->
  domain_in_grid (Z.of_nat n) (Z.of_nat m) (_robot_domain r) ->
  in_domain (_robot_domain r) (_pos r) ->
  exists v,
    observe r state false = Ok (Vector v) /\
    drop (domain_cells (_robot_domain r)) v = ring_rowwise state (_robot_domain r).
Proof.
  intros Hrect Hgrid Hin.
  destruct (observe_vector_spec n m state r Hrect Hgrid Hin) as (loc & _ & Hlen & Hobs).
  eexists. split; [exact Hobs|]. by rewrite drop_app_length'.
Qed.

Lemma vector_ring_segment_is_rowwise_witness :
  let r := new_Robot 0 (2, 2) (mkDomain 0 0 3 3) in
  let state := bitmap_of ring_start in
  rect 4 4 state /\ domain_in_grid 4 4 (_robot_domain r) /\
  in_domain (_robot_domain r) (_pos r) /\
  exists v,
    observe r state false = Ok (Vector v) /\
    drop (domain_cells (_robot_domain r)) v = ring_rowwise state (_robot_domain r).
Proof.
  assert (rect 4 4 (bitmap_of ring_start)) as Hrect
    by (vm_compute; split; [reflexivity | repeat constructor]).
  assert (domain_in_grid (Z.of_nat 4) (Z.of_nat 4)
            (_robot_domain (new_Robot 0 (2, 2) (mkDomain 0 0 3 3)))) as Hgrid
    by (unfold domain_in_grid; simpl; lia).
  assert (in_domain (_robot_domain (new_Robot 0 (2, 2) (mkDomain 0 0 3 3)))
            (_pos (new_Robot 0 (2, 2) (mkDomain 0 0 3 3)))) as Hin
    by (unfold in_domain; simpl; lia).
  cbv zeta. split; [exact Hrect|]. split; [exact Hgrid|]. split; [exact Hin|].
  exact (vector_ring_segment_is_rowwise 4 4 _ _ Hrect Hgrid Hin).
Defined.

(** C10, as stated, fails: with the robot on (2,2) the image of a state
    without items and the image of the same state with one item on (2,2)
    differ, the robot's cell holding -1 in the first and 0 in the second. *)
Lemma item_under_robot_changes_image :
  ~ (forall (p : Parameters) (its : list Item) (rs : list Robot) (r : Robot)
            (it : Item) (state1 state2 : Bitmap),
       r ∈ rs ->
       get_position it = _pos r ->
       _get_state p its rs = Ok state1 ->
       _get_state p (its ++ [it]) rs = Ok state2 ->
       observe r state1 true = observe r state2 true).
Proof.
  intros H.
  pose (r := new_Robot 0 (2, 2) (mkDomain 0 0 3 3)).
  pose (state_of := fun its : list Item =>
          match _get_state ring_parameters its [r] with
          | Ok state => state
          | Err _ => []
          end).
  specialize (H ring_parameters [] [r] r (new_Item 0 (2, 2))
                (state_of []) (state_of [new_Item 0 (2, 2)])).
  assert (observe r (state_of []) true
          = observe r (state_of [new_Item 0 (2, 2)]) true) as Habs.
  { apply H.
    - apply list_elem_of_here.
    - reflexivity.
    - vm_compute. reflexivity.
    - vm_compute. reflexivity. }
  vm_compute in Habs. discriminate Habs.
Qed.

(** C10, amended: in ['image'] mode, for every state bitmap built from the
    rosters and every robot whose domain lies on the grid and holds its
    position, the observation is produced and its value at the robot's own
    cell is 0 when an item lies on that cell (the item's 1 and the
    self-marker's -1 cancel); when no item lies there (and no item has a
    negative coordinate) the value is -1, so the two cases give different
    observations. *)
Theorem image_value_at_robot_cell (p : Parameters) (its : list Item)
    (rs : list Robot) (r : Robot) (state : Bitmap) :
  _get_state p its rs = Ok state ->
  domain_in_grid (n_rows p) (n_columns p) (_robot_domain r) ->
  in_domain (_robot_domain r) (_pos r) ->
  exists a v,
    observe r state true = Ok (Image a) /\
    cell_at a (Z.to_nat ((_pos r).1 - dom0 (_robot_domain r)))
              (Z.to_nat ((_pos r).2 - dom1 (_robot_domain r))) = Some v /\
    (_pos r ∈ get_position <$> its -> v = 0) /\
    (Forall (fun c => 0 <= c.1 /\ 0 <= c.2) (get_position <$> its) ->
     _pos r ∉ get_position <$> its -> v = -1).
Proof.
  intros Hstate Hgrid Hin.
  destruct (get_state_spec _ _ _ _ Hstate) as (Hr & Hc & Hrect & Hmarks).
  rewrite <- (Z2Nat.id (n_rows p)), <- (Z2Nat.id (n_columns p)) in Hgrid by done.
  destruct (observe_image_spec _ _ state r Hrect Hgrid Hin) as (a & Hobs & Hcells).
  destruct Hin as [Hi Hj]. destruct Hgrid as (H0 & H2 & H1 & H3).
  set (d := _robot_domain r) in *.
  set (i := Z.to_nat ((_pos r).1 - dom0 d)). set (j := Z.to_nat ((_pos r).2 - dom1 d)).
  specialize (Hcells i j ltac:(lia) ltac:(lia)).
  rewrite decide_True in Hcells by done.
  replace (dom0 d + Z.of_nat i) with (_pos r).1 in Hcells by lia.
  replace (dom1 d + Z.of_nat j) with (_pos r).2 in Hcells by lia.
  destruct (Hmarks (Z.to_nat (_pos r).1) (Z.to_nat (_pos r).2) ltac:(lia) ltac:(lia))
    as (x & y & Hcell & Hone & Hzero).
  rewrite !Z2Nat.id in Hone, Hzero by lia.
  replace ((_pos r).1, (_pos r).2) with (_pos r) in Hone, Hzero by by destruct (_pos r).
  unfold item_bit in Hcells. rewrite Hcell in Hcells. simpl in Hcells.
  exists a, (x + -1 * 1). split; [done|]. split; [done|]. split.
  - intros Hitem. rewrite (Hone Hitem). done.
  - intros Hnn Hnone. rewrite (Hzero Hnn Hnone). done.
Qed.

Lemma image_value_at_robot_cell_witness :
  let w := ring_start in
  let r := new_Robot 0 (2, 2) (mkDomain 0 0 3 3) in
  _get_state (parameters w) (items w) (robots w) = Ok (bitmap_of w) /\
  domain_in_grid (n_rows (parameters w)) (n_columns (parameters w)) (_robot_domain r) /\
  in_domain (_robot_domain r) (_pos r) /\
  exists a v,
    observe r (bitmap_of w) true = Ok (Image a) /\
    cell_at a (Z.to_nat ((_pos r).1 - dom0 (_robot_domain r)))
              (Z.to_nat ((_pos r).2 - dom1 (_robot_domain r))) = Some v /\
    (_pos r ∈ get_position <$> items w -> v = 0) /\
    (Forall (fun c => 0 <= c.1 /\ 0 <= c.2) (get_position <$> items w) ->
     _pos r ∉ get_position <$> items w -> v = -1).
Proof.
  assert (_get_state (parameters ring_start) (items ring_start) (robots ring_start)
          = Ok (bitmap_of ring_start)) as Hstate by (vm_compute; reflexivity).
  assert (domain_in_grid (n_rows (parameters ring_start))
            (n_columns (parameters ring_start))
            (_robot_domain (new_Robot 0 (2, 2) (mkDomain 0 0 3 3)))) as Hgrid
    by (vm_compute; intuition discriminate).
  assert (in_domain (_robot_domain (new_Robot 0 (2, 2) (mkDomain 0 0 3 3)))
            (_pos (new_Robot 0 (2, 2) (mkDomain 0 0 3 3)))) as Hin
    by (unfold in_domain; simpl; lia).
  cbv zeta. split; [exact Hstate|]. split; [exact Hgrid|]. split; [exact Hin|].
  exact (image_value_at_robot_cell _ _ _ _ _ Hstate Hgrid Hin).
Defined.

(** ** The naive policies *)

Lemma oldest_body_found seen it st :
  oldest_found seen st ->
  oldest_found (seen ++ [it]) (oldest_body (length seen) it st).
Proof.
  destruct st as [[w|] [k|]]; simpl; try done.
  - intros (target & Hk & Hw & Hmin & Hfirst). unfold oldest_body. simpl.
    destruct (decide (get_waiting_time it < w)) as [Hlt|Hge]; simpl.
    + exists it. split; [by rewrite lookup_app_r, Nat.sub_diag by lia|].
      split; [done|]. split.
      * intros it' [Hin|Hin]%elem_of_app; [specialize (Hmin _ Hin); lia|].
        apply list_elem_of_singleton in Hin. subst. lia.
      * intros k' it' Hk' Hit'. rewrite lookup_app_l in Hit' by lia.
        pose proof (Hmin it' (list_elem_of_lookup_2 _ _ _ Hit')). lia.
    + exists target. pose proof (lookup_lt_Some _ _ _ Hk).
      split; [by rewrite lookup_app_l by lia|]. split; [done|]. split.
      * intros it' [Hin|Hin]%elem_of_app; [by apply Hmin|].
        apply list_elem_of_singleton in Hin. subst. lia.
      * intros k' it' Hk' Hit'. rewrite lookup_app_l in Hit' by lia. eauto.
  - intros ->. unfold oldest_body. simpl. exists it. split; [done|].
    split; [done|]. split.
    + intros it' Hin. apply list_elem_of_singleton in Hin. subst. lia.
    + intros k' it' Hk'. lia.
Qed.

Lemma oldest_loop_found its :
  forall seen st,
    oldest_found seen st ->
    oldest_found (seen ++ its) (oldest_loop (length seen) its st).
Proof.
  induction its as [|it its IH]; intros seen st Hst; simpl.
  - by rewrite app_nil_r.
  - replace (seen ++ it :: its) with ((seen ++ [it]) ++ its) by by rewrite <- app_assoc.
    replace (S (length seen)) with (length (seen ++ [it]))
      by (rewrite length_app; simpl; lia).
    apply IH. by apply oldest_body_found.
Qed.

Section PolicyFacts.

Context {PyState : Type} {py : PyRandom PyState}.
Variable all_pairs_dijkstra_path : Graph -> PathDict.

Lemma ensure_graph_keeps r obs :
  _pos (ensure_graph all_pairs_dijkstra_path r obs) = _pos r /\
  _robot_domain (ensure_graph all_pairs_dijkstra_path r obs) = _robot_domain r /\
  _action_space (ensure_graph all_pairs_dijkstra_path r obs) = _action_space r.
Proof. unfold ensure_graph. by destruct (_graph r). Qed.

End PolicyFacts.

(** ** The domain graph *)

Lemma has_edge_true g u v :
  has_edge g u v = true <-> (u, v) ∈ edges g \/ (v, u) ∈ edges g.
Proof.
  unfold has_edge. rewrite orb_true_iff, !bool_decide_eq_true. done.
Qed.

Lemma add_node_nodes n g n' :
  n' ∈ nodes (add_node n g) <-> n' = n \/ n' ∈ nodes g.
Proof.
  unfold add_node, has_node. destruct (bool_decide (n ∈ nodes g)) eqn:Hin; simpl.
  - apply bool_decide_eq_true in Hin. split; [tauto|]. by intros [->|?].
  - rewrite elem_of_app, list_elem_of_singleton. tauto.
Qed.

Lemma add_node_edges n g : edges (add_node n g) = edges g.
Proof. unfold add_node. by destruct (has_node g n). Qed.

Lemma add_node_has_edge n g u v : has_edge (add_node n g) u v = has_edge g u v.
Proof. unfold has_edge. by rewrite add_node_edges. Qed.

Lemma add_edge_edges u v g e :
  e ∈ edges (add_edge u v g) <->
  e ∈ edges g \/ (e = (u, v) /\ has_edge g u v = false).
Proof.
  unfold add_edge.
  assert (has_edge (add_node v (add_node u g)) u v = has_edge g u v) as Hsame.
  { unfold has_edge. by rewrite !add_node_edges. }
  rewrite Hsame. destruct (has_edge g u v) eqn:Hhas; simpl.
  - rewrite !add_node_edges. split; [tauto | intros [?|[_ ?]]; [done | discriminate]].
  - rewrite !add_node_edges, elem_of_app, list_elem_of_singleton. tauto.
Qed.

Lemma add_edge_nodes u v g n :
  n ∈ nodes (add_edge u v g) <-> n = u \/ n = v \/ n ∈ nodes g.
Proof.
  unfold add_edge. destruct (has_edge _ u v); simpl; rewrite !add_node_nodes; tauto.
Qed.

Lemma add_edge_has_edge u v g a b :
  has_edge (add_edge u v g) a b = true <->
  has_edge g a b = true \/ (a, b) = (u, v) \/ (a, b) = (v, u).
Proof.
  rewrite !has_edge_true, !add_edge_edges. split.
  - intros [[?|[He _]]|[?|[He _]]];
      [tauto | right; left; exact He | tauto
      | right; right; by injection He as -> ->].
  - intros [[?|?]|[He|He]]; try tauto.
    + injection He as -> ->.
      destruct (has_edge g u v) eqn:Hhas; [|tauto].
      apply has_edge_true in Hhas. tauto.
    + injection He as -> ->.
      destruct (has_edge g u v) eqn:Hhas; [|tauto].
      apply has_edge_true in Hhas. tauto.
Qed.

Lemma neighbors_unit_step u v : v ∈ _neighbors u <-> unit_step u v.
Proof.
  unfold _neighbors, unit_step, manhattan. destruct u as [a b], v as [c d]. simpl.
  rewrite !elem_of_cons, elem_of_nil. split.
  - intros [[= -> ->]|[[= -> ->]|[[= -> ->]|[[= -> ->]|[]]]]]; lia.
  - intros H.
    assert ((c = a + 0 /\ d = b + 1) \/ (c = a + 0 /\ d = b + -1) \/
            (c = a + 1 /\ d = b + 0) \/ (c = a + -1 /\ d = b + 0)) as Hc by lia.
    destruct Hc as [[-> ->]|[[-> ->]|[[-> ->]|[-> ->]]]]; tauto.
Qed.

Lemma add_edge_keeps_has_edge u v g a b :
  has_edge g a b = true -> has_edge (add_edge u v g) a b = true.
Proof. intros H. apply add_edge_has_edge. by left. Qed.

Lemma add_edge_joins u v g : has_edge (add_edge u v g) u v = true.
Proof. apply add_edge_has_edge. right. by left. Qed.

Lemma add_edge_keeps_node u v g n : n ∈ nodes g -> n ∈ nodes (add_edge u v g).
Proof. intros H. apply add_edge_nodes. right. by right. Qed.

Lemma add_edge_edge_inv u v g e :
  e ∈ edges (add_edge u v g) -> e ∈ edges g \/ e = (u, v).
Proof. intros [H|[H _]]%add_edge_edges; [by left | by right]. Qed.

Lemma add_edges_inv cells cell ns :
  forall joined g,
    (forall n, n ∈ ns -> n ∈ _neighbors cell) ->
    graph_inv_at cells cell joined g ->
    graph_inv_at cells cell (joined ++ ns)
      (foldl (fun g neighbor => add_edge cell neighbor g) g ns).
Proof.
  induction ns as [|n ns IH]; intros joined g Hns Hinv.
  - simpl. by rewrite app_nil_r.
  - cbn [foldl].
    replace (joined ++ n :: ns) with ((joined ++ [n]) ++ ns) by by rewrite <- app_assoc.
    apply IH; [intros n' Hn'; apply Hns; by right|].
    destruct Hinv as (Hedges & Hcells & Hcell & Hjoined).
    split; [|split; [|split]].
    + intros u v [He|He]%add_edge_edge_inv; [by apply Hedges|].
      injection He as -> ->. split; [by right | apply Hns; by left].
    + intros u Hu. destruct (Hcells u Hu) as [Hnode Hadj]. split.
      * by apply add_edge_keeps_node.
      * intros v Hv. by apply add_edge_keeps_has_edge, Hadj.
    + by apply add_edge_keeps_node.
    + intros v [Hv|Hv]%elem_of_app.
      * by apply add_edge_keeps_has_edge, Hjoined.
      * apply list_elem_of_singleton in Hv. subst v. apply add_edge_joins.
Qed.

Lemma graph_step_inv cells g cell :
  graph_inv cells g -> graph_inv (cells ++ [cell]) (graph_step g cell).
Proof.
  intros [Hedges Hcells]. unfold graph_step.
  destruct (add_edges_inv cells cell (_neighbors cell) [] (add_node cell g))
    as (Hedges' & Hcells' & Hcell' & Hjoined'); [done| |].
  - split; [|split; [|split]].
    + intros u v He. rewrite add_node_edges in He.
      destruct (Hedges _ _ He). split; [by left | done].
    + intros u Hu. destruct (Hcells u Hu) as [Hnode Hadj]. split.
      * apply add_node_nodes. by right.
      * intros v Hv. rewrite add_node_has_edge. by apply Hadj.
    + apply add_node_nodes. by left.
    + intros v Hv. by apply elem_of_nil in Hv.
  - simpl app in Hjoined'. split.
    + intros u v He. destruct (Hedges' _ _ He) as [Hu Hv]. split; [|done].
      apply elem_of_app. destruct Hu as [Hu| ->]; [by left|].
      right. by apply list_elem_of_singleton.
    + intros u [Hu|Hu]%elem_of_app; [by apply Hcells'|].
      apply list_elem_of_singleton in Hu. subst u. split; [done|]. exact Hjoined'.
Qed.

Lemma create_graph_loop_inv (entries : list (Node * Z)) :
  forall cells g,
    graph_inv cells g ->
    graph_inv (cells ++ (fst <$> entries))
      (foldl (fun g (entry : Node * Z) => graph_step g entry.1) g entries).
Proof.
  induction entries as [|entry entries IH]; intros cells g Hinv.
  - simpl. by rewrite app_nil_r.
  - rewrite fmap_cons. cbn [foldl].
    replace (cells ++ entry.1 :: (fst <$> entries))
      with ((cells ++ [entry.1]) ++ (fst <$> entries)) by by rewrite <- app_assoc.
    apply IH. exact (graph_step_inv cells g entry.1 Hinv).
Qed.

Lemma create_graph_inv obs :
  graph_inv (fst <$> ndenumerate obs) (_create_graph obs).
Proof.
  unfold _create_graph.
  apply (create_graph_loop_inv (ndenumerate obs) [] {| nodes := []; edges := [] |}).
  split; [intros u v Hin; by apply elem_of_nil in Hin
         | intros u Hin; by apply elem_of_nil in Hin].
Qed.

(** The entries of [np.ndenumerate]: the cells with their values. *)
Lemma elem_of_ndenumerate obs (e : Node * Z) :
  e ∈ ndenumerate obs <->
  exists i j, e.1 = (Z.of_nat i, Z.of_nat j) /\ cell_at obs i j = Some e.2.
Proof.
  unfold ndenumerate. rewrite list_elem_of_In, in_concat. split.
  - intros (row & Hrow & He). apply list_elem_of_In in Hrow, He.
    apply elem_of_lookup_imap in Hrow as (i & r & -> & Hr).
    apply elem_of_lookup_imap in He as (j & x & -> & Hx).
    exists i, j. split; [done|]. unfold cell_at. rewrite Hr. simpl. done.
  - intros (i & j & He & Hcell). unfold cell_at in Hcell.
    destruct (obs !! i) as [r|] eqn:Hr; [|discriminate]. simpl in Hcell.
    exists (imap (fun j x => ((Z.of_nat i, Z.of_nat j), x)) r). split.
    + apply list_elem_of_In.
      apply (elem_of_lookup_imap_2 (fun i row =>
               imap (fun j x => ((Z.of_nat i, Z.of_nat j), x)) row) obs r i Hr).
    + apply list_elem_of_In. destruct e as [c x]. simpl in *. subst c.
      apply (elem_of_lookup_imap_2 (fun j x => ((Z.of_nat i, Z.of_nat j), x)) r x j Hcell).
Qed.

Lemma in_grid_ndenumerate H W (obs : list (list Z)) u :
  rect H W obs -> in_grid H W u -> u ∈ fst <$> ndenumerate obs.
Proof.
  intros Hrect [Hi Hj]. destruct u as [a b]. simpl in *.
  destruct (rect_cell_is_Some H W obs (Z.to_nat a) (Z.to_nat b) Hrect ltac:(lia) ltac:(lia))
    as [x Hx].
  apply list_elem_of_fmap. exists ((a, b), x). split; [done|].
  apply elem_of_ndenumerate. exists (Z.to_nat a), (Z.to_nat b). simpl.
  split; [f_equal; lia | done].
Qed.

(** The three facts about the graph the policies rely on. *)
Lemma create_graph_node H W (obs : list (list Z)) u :
  rect H W obs -> in_grid H W u -> u ∈ nodes (_create_graph obs).
Proof.
  intros Hrect Hu. destruct (create_graph_inv obs) as [_ Hcells].
  apply Hcells. by eapply in_grid_ndenumerate.
Qed.

Lemma create_graph_adj_unit obs u v :
  graph_adj (_create_graph obs) u v -> unit_step u v.
Proof.
  destruct (create_graph_inv obs) as [Hedges _]. unfold graph_adj.
  rewrite has_edge_true. intros [He|He]; destruct (Hedges _ _ He) as [_ Hn];
    apply neighbors_unit_step in Hn; [done|].
  unfold unit_step, manhattan in *. lia.
Qed.

Lemma create_graph_grid_adj H W (obs : list (list Z)) u v :
  rect H W obs -> in_grid H W u -> unit_step u v ->
  graph_adj (_create_graph obs) u v.
Proof.
  intros Hrect Hu Hstep. destruct (create_graph_inv obs) as [_ Hcells].
  apply Hcells; [by eapply in_grid_ndenumerate | by apply neighbors_unit_step].
Qed.

(** ** Walks in the grid *)

Lemma is_walk_mono (adj1 adj2 : Node -> Node -> Prop) p :
  (forall a b, a ∈ p -> b ∈ p -> adj1 a b -> adj2 a b) ->
  is_walk adj1 p -> is_walk adj2 p.
Proof.
  induction p as [|u rest IH]; [done|]. intros Hadj Hwalk.
  destruct rest as [|v rest']; [done|]. destruct Hwalk as [Huv Hrest]. split.
  - apply Hadj; [by left | right; by left | done].
  - apply IH; [|done]. intros a b Ha Hb. apply Hadj; by right.
Qed.

Lemma manhattan_zero u v : manhattan u v = 0 -> u = v.
Proof.
  unfold manhattan. destruct u as [a b], v as [c d]. simpl. intros H.
  f_equal; lia.
Qed.

Lemma step_towards_spec u v :
  0 < manhattan u v ->
  unit_step u (step_towards u v) /\
  manhattan (step_towards u v) v = manhattan u v - 1 /\
  Z.min u.1 v.1 <= (step_towards u v).1 <= Z.max u.1 v.1 /\
  Z.min u.2 v.2 <= (step_towards u v).2 <= Z.max u.2 v.2.
Proof.
  unfold unit_step, manhattan, step_towards. destruct u as [a b], v as [c d]. simpl.
  intros H. repeat case_decide; simpl; lia.
Qed.

Lemma in_grid_between H W u v w :
  in_grid H W u -> in_grid H W v ->
  Z.min u.1 v.1 <= w.1 <= Z.max u.1 v.1 ->
  Z.min u.2 v.2 <= w.2 <= Z.max u.2 v.2 ->
  in_grid H W w.
Proof. unfold in_grid. lia. Qed.

(** The path of Manhattan length is a path of the grid. *)
Lemma steps_towards_spec H W n :
  forall u v,
    in_grid H W u -> in_grid H W v -> manhattan u v = Z.of_nat n ->
    is_walk (grid_adj H W) (steps_towards n u v) /\
    head (steps_towards n u v) = Some u /\
    last (steps_towards n u v) = Some v /\
    Forall (in_grid H W) (steps_towards n u v) /\
    length (steps_towards n u v) = S n.
Proof.
  induction n as [|n IH]; intros u v Hu Hv Hdist.
  - simpl. apply manhattan_zero in Hdist. subst v.
    repeat split; try done. by apply Forall_singleton.
  - destruct (step_towards_spec u v ltac:(lia)) as (Hstep & Hless & Hrow & Hcol).
    assert (in_grid H W (step_towards u v)) as Hw
      by exact (in_grid_between H W u v _ Hu Hv Hrow Hcol).
    destruct (IH (step_towards u v) v Hw Hv ltac:(lia))
      as (Hwalk & Hhead & Hlast & Hall & Hlen).
    cbn [steps_towards].
    destruct (steps_towards n (step_towards u v) v) as [|w rest] eqn:Hrest;
      [discriminate|].
    injection Hhead as ->. split; [|split; [|split; [|split]]].
    + split; [|exact Hwalk]. split; [done|]. split; done.
    + done.
    + exact Hlast.
    + by constructor.
    + simpl in *. lia.
Qed.

(** A walk by unit steps is at least as long as the Manhattan distance. *)
Lemma walk_at_least_manhattan (adj : Node -> Node -> Prop) p :
  (forall a b, adj a b -> unit_step a b) ->
  forall u v, is_walk adj p -> head p = Some u -> last p = Some v ->
              manhattan u v + 1 <= Z.of_nat (length p).
Proof.
  intros Hadj. induction p as [|a rest IH]; intros u v Hwalk Hhead Hlast; [done|].
  injection Hhead as ->. destruct rest as [|b rest'].
  - injection Hlast as ->. unfold manhattan. simpl. lia.
  - destruct Hwalk as [Hab Hrest].
    specialize (IH b v Hrest eq_refl Hlast).
    apply Hadj in Hab. unfold unit_step, manhattan in *.
    simpl length in *. lia.
Qed.

(** A walk by unit steps of exactly Manhattan length stays between its ends. *)
Lemma shortest_walk_between (adj : Node -> Node -> Prop) p :
  (forall a b, adj a b -> unit_step a b) ->
  forall u v, is_walk adj p -> head p = Some u -> last p = Some v ->
              Z.of_nat (length p) = manhattan u v + 1 ->
              Forall (fun w => Z.min u.1 v.1 <= w.1 <= Z.max u.1 v.1 /\
                               Z.min u.2 v.2 <= w.2 <= Z.max u.2 v.2) p.
Proof.
  intros Hadj. induction p as [|a rest IH]; intros u v Hwalk Hhead Hlast Hlen; [done|].
  injection Hhead as ->. constructor; [lia|].
  destruct rest as [|b rest']; [constructor|].
  destruct Hwalk as [Hab Hrest].
  pose proof (walk_at_least_manhattan adj (b :: rest') Hadj b v Hrest eq_refl Hlast) as Hge.
  apply Hadj in Hab.
  assert (Z.of_nat (length (b :: rest')) = manhattan b v + 1) as Hlen'.
  { unfold unit_step, manhattan in *. simpl length in *. lia. }
  specialize (IH b v Hrest eq_refl Hlast Hlen').
  eapply Forall_impl; [exact IH|]. intros w. simpl.
  unfold unit_step, manhattan in *. simpl length in *. lia.
Qed.

Lemma manhattan_nonneg u v : 0 <= manhattan u v.
Proof. unfold manhattan. lia. Qed.

Lemma grid_adj_unit H W a b : grid_adj H W a b -> unit_step a b.
Proof. by intros (_ & _ & ?). Qed.

Lemma manhattan_path_grid H W u v :
  in_grid H W u -> in_grid H W v ->
  grid_path H W u v (manhattan_path u v) /\
  Z.of_nat (length (manhattan_path u v)) = manhattan u v + 1.
Proof.
  intros Hu Hv. pose proof (manhattan_nonneg u v).
  destruct (steps_towards_spec H W (Z.to_nat (manhattan u v)) u v Hu Hv ltac:(lia))
    as (Hwalk & Hhead & Hlast & Hall & Hlen).
  unfold manhattan_path. split; [split; [split|]; done|]. lia.
Qed.

(** In the grid of the domain the shortest-path distance is the Manhattan
    distance. *)
Lemma grid_distance_manhattan H W u v :
  in_grid H W u -> in_grid H W v -> grid_distance H W u v (manhattan u v).
Proof.
  intros Hu Hv. split.
  - exists (manhattan_path u v). by apply manhattan_path_grid.
  - intros p [(Hwalk & Hhead & Hlast) _].
    by apply (walk_at_least_manhattan (grid_adj H W) p (grid_adj_unit H W)).
Qed.

Lemma grid_path_is_path H W (obs : list (list Z)) u v p :
  rect H W obs -> grid_path H W u v p -> is_path (_create_graph obs) u v p.
Proof.
  intros Hrect [(Hwalk & Hhead & Hlast) Hall]. split; [split; [|done]|].
  - eapply is_walk_mono; [|exact Hwalk]. intros a b _ _ (Ha & _ & Hstep).
    by eapply create_graph_grid_adj.
  - eapply Forall_impl; [exact Hall|]. intros w Hw. by eapply create_graph_node.
Qed.

(** The table of Manhattan paths meets the contract on every domain. *)
Lemma manhattan_table_shortest H W (obs : list (list Z)) :
  rect H W obs -> shortest_on_cells H W (_create_graph obs) manhattan_table.
Proof.
  intros Hrect u v Hu Hv _. exists (manhattan_path u v).
  destruct (manhattan_path_grid H W u v Hu Hv) as [Hpath Hlen].
  split; [done|]. split; [by eapply grid_path_is_path|].
  intros q [(Hwalk & Hhead & Hlast) _].
  pose proof (walk_at_least_manhattan _ q (create_graph_adj_unit obs) u v
                Hwalk Hhead Hlast). lia.
Qed.

(** A cached path between two cells is a shortest path of the grid. *)
Lemma table_path_grid H W (obs : list (list Z)) table u v p :
  rect H W obs -> shortest_on_cells H W (_create_graph obs) table ->
  in_grid H W u -> in_grid H W v -> table u v = Some p ->
  grid_path H W u v p /\ Z.of_nat (length p) = manhattan u v + 1.
Proof.
  intros Hrect Htable Hu Hv Hp.
  destruct (manhattan_path_grid H W u v Hu Hv) as [Hmpath Hmlen].
  destruct (Htable u v Hu Hv) as (p' & Hp' & [(Hwalk & Hhead & Hlast) Hnodes] & Hmin).
  { exists (manhattan_path u v). by eapply grid_path_is_path. }
  rewrite Hp in Hp'. injection Hp' as <-.
  pose proof (Hmin _ (grid_path_is_path H W obs u v _ Hrect Hmpath)) as Hle.
  pose proof (walk_at_least_manhattan _ p (create_graph_adj_unit obs) u v
                Hwalk Hhead Hlast) as Hge.
  assert (Z.of_nat (length p) = manhattan u v + 1) as Hlen by lia.
  split; [|done].
  pose proof (shortest_walk_between _ p (create_graph_adj_unit obs) u v
                Hwalk Hhead Hlast Hlen) as Hbetween.
  assert (Forall (in_grid H W) p) as Hall.
  { eapply Forall_impl; [exact Hbetween|]. intros w [Hr Hc].
    by apply (in_grid_between H W u v). }
  split; [split; [|done]|done].
  eapply is_walk_mono; [|exact Hwalk]. intros a b Ha Hb Hab.
  rewrite Forall_forall in Hall. split; [by apply Hall|]. split; [by apply Hall|].
  by eapply create_graph_adj_unit.
Qed.

(** The first action of a path of the grid with at least two nodes. *)
Lemma first_action_of_grid_path H W u v p :
  grid_path H W u v p -> (2 <= length p)%nat ->
  exists a w, p !! 1%nat = Some w /\ _get_first_action p = Ok (Some a) /\
              0 <= a <= 3 /\ candidate u a = Ok w.
Proof.
  intros [(Hwalk & Hhead & _) _] Hlen.
  destruct p as [|a0 [|w rest]]; simpl in Hlen; try lia.
  injection Hhead as ->. destruct Hwalk as [(_ & _ & Hstep) _].
  unfold _get_first_action. 
  rewrite (py_index_in_range _ 1 w) by done.
  rewrite (py_index_in_range _ 0 u) by done. simpl.
  unfold unit_step, manhattan in Hstep. destruct u as [a b], w as [c d]. simpl in *.
  assert ((c - a = -1 /\ d - b = 0) \/ (c - a = 1 /\ d - b = 0) \/
          (c - a = 0 /\ d - b = -1) \/ (c - a = 0 /\ d - b = 1)) as Hd by lia.
  destruct Hd as [[Hr Hc]|[[Hr Hc]|[[Hr Hc]|[Hr Hc]]]]; rewrite Hr, Hc.
  - exists 0, (c, d). repeat split; try done. unfold candidate. simpl.
    do 2 f_equal; lia.
  - exists 1, (c, d). repeat split; try done. unfold candidate. simpl.
    do 2 f_equal; lia.
  - exists 2, (c, d). repeat split; try done. unfold candidate. simpl.
    do 2 f_equal; lia.
  - exists 3, (c, d). repeat split; try done. unfold candidate. simpl.
    do 2 f_equal; lia.
Qed.

(** The loop of [_path_to_closest_item] on an observation with one item
    cell [t], whose cached path [p] is shorter than the initial bound. *)
Lemma closest_loop_single (r : Robot) table (t : Node) (p : Path) (bound : Z) entries :
  _path_dict r = Some table -> table (relative_pos r) t = Some p ->
  Z.of_nat (length p) - 1 < bound ->
  (forall e, e ∈ entries -> e.2 = 1 -> e.1 = t) ->
  forall st,
    st = (bound, None) \/ st = (Z.of_nat (length p) - 1, Some p) ->
    exists st',
      for_each (closest_body r) entries st = Ok st' /\
      (st' = (bound, None) \/ st' = (Z.of_nat (length p) - 1, Some p)) /\
      (st = (Z.of_nat (length p) - 1, Some p) \/ (exists x, (t, x) ∈ entries /\ x = 1) ->
       st' = (Z.of_nat (length p) - 1, Some p)).
Proof.
  intros Hdict Htable Hbound. induction entries as [|e entries IH]; intros Hone st Hst.
  - exists st. split; [done|]. split; [done|].
    intros [?|(x & Hx & _)]; [done | by apply elem_of_nil in Hx].
  - cbn [for_each].
    assert (exists st1, closest_body r e st = Ok st1 /\
              (st1 = (bound, None) \/ st1 = (Z.of_nat (length p) - 1, Some p)) /\
              (st = (Z.of_nat (length p) - 1, Some p) \/ (e.1 = t /\ e.2 = 1) ->
               st1 = (Z.of_nat (length p) - 1, Some p))) as (st1 & Hbody & Hst1 & Hhit).
    { unfold closest_body. destruct (decide (e.2 = 1)) as [He|He].
      - rewrite (Hone e ltac:(by left) He). unfold path_lookup.
        rewrite Hdict, Htable. simpl.
        destruct Hst as [-> | ->]; simpl.
        + rewrite decide_True by lia. eexists. split; [done|]. split; [by right|done].
        + rewrite decide_False by lia. eexists. split; [done|]. split; [by right|done].
      - exists st. split; [done|]. split; [done|]. intros [?|[_ ?]]; done. }
    rewrite Hbody. simpl.
    destruct (IH ltac:(intros e' He'; apply Hone; by right) st1 Hst1)
      as (st' & Hrun & Hst' & Hfinal).
    exists st'. split; [done|]. split; [done|].
    intros [Hstart|(x & Hx & ->)]; apply Hfinal.
    + left. apply Hhit. by left.
    + apply elem_of_cons in Hx as [<-|Hx].
      * left. apply Hhit. right. done.
      * right. by exists 1.
Qed.

Section NaiveFacts.

Context {PyState : Type} {py : PyRandom PyState}.
Variable all_pairs_dijkstra_path : Graph -> PathDict.

Lemma ensure_graph_table r (obs : list (list Z)) :
  (_graph r <> None ->
   _path_dict r = Some (all_pairs_dijkstra_path (_create_graph obs))) ->
  _path_dict (ensure_graph all_pairs_dijkstra_path r obs)
  = Some (all_pairs_dijkstra_path (_create_graph obs)).
Proof.
  intros Hcache. unfold ensure_graph. destruct (_graph r) eqn:Hg; [|done].
  by apply Hcache.
Qed.

(** The path [_path_to_closest_item] returns when the observation holds one
    item cell. *)
Lemma path_to_single_item H W (r : Robot) (obs : list (list Z)) table
    (i0 j0 : nat) (p : Path) :
  let t := (Z.of_nat i0, Z.of_nat j0) in
  rect H W obs ->
  _path_dict r = Some table -> table (relative_pos r) t = Some p ->
  Z.of_nat (length p) - 1 < Z.of_nat H + Z.of_nat W ->
  cell_at obs i0 j0 = Some 1 ->
  (forall i j, cell_at obs i j = Some 1 -> i = i0 /\ j = j0) ->
  _path_to_closest_item r obs = Ok (Some p).
Proof.
  intros t [Hlen Hrows] Hdict Htable Hbound Hitem Hunique.
  unfold _path_to_closest_item.
  assert (exists row0, obs !! 0%nat = Some row0 /\ length row0 = W /\ (0 < W)%nat)
    as (row0 & Hrow0 & Hw & Hwpos).
  { unfold cell_at in Hitem. destruct (obs !! i0) as [row|] eqn:Hrow; [|discriminate].
    simpl in Hitem. pose proof (lookup_lt_Some _ _ _ Hrow) as Hi.
    pose proof (lookup_lt_Some _ _ _ Hitem) as Hj.
    rewrite Forall_lookup in Hrows. rewrite (Hrows _ _ Hrow) in Hj.
    destruct (lookup_lt_is_Some_2 obs 0 ltac:(lia)) as [row0 Hrow0].
    exists row0. split; [done|]. split; [by apply (Hrows _ _ Hrow0) | lia]. }
  rewrite (py_index_in_range obs 0 row0) by done. simpl.
  destruct (lookup_lt_is_Some_2 row0 0 ltac:(lia)) as [x0 Hx0].
  rewrite (py_index_in_range row0 0 x0) by done. simpl.
  rewrite Hlen, Hw.
  destruct (closest_loop_single r table t p (Z.of_nat H + Z.of_nat W)
              (ndenumerate obs) Hdict Htable Hbound) with (st := (Z.of_nat H + Z.of_nat W, @None Path))
    as (st' & Hrun & _ & Hfinal).
  - intros e He He1. apply elem_of_ndenumerate in He as (i & j & Hij & Hcell).
    rewrite He1 in Hcell. destruct (Hunique i j Hcell) as [-> ->]. done.
  - by left.
  - rewrite Hrun. simpl. rewrite Hfinal; [done|]. right. exists 1. split; [|done].
    apply elem_of_ndenumerate. exists i0, j0. done.
Qed.

End NaiveFacts.

(** ** The two naive policies on the observations the simulation produces *)

(** The item channel of a state bitmap holds zeros and ones. *)
Lemma get_state_item_bits p its rs (state : list (list (Z * Z))) :
  _get_state p its rs = Ok state ->
  forall r c, item_bit state r c = 0 \/ item_bit state r c = 1.
Proof.
  intros H.
  assert (forall i j cell, cell_at state i j = Some cell -> cell.1 = 0 \/ cell.1 = 1)
    as Hbits.
  { unfold _get_state in H. do 2 inv_bind H.
    unfold np_zeros in E. destruct (decide _) as [|Hdim]; [discriminate|].
    injection E as <-.
    assert (rect (Z.to_nat (n_rows p)) (Z.to_nat (n_columns p))
              (replicate (Z.to_nat (n_rows p))
                 (replicate (Z.to_nat (n_columns p)) (0, 0)))) as Hrect.
    { split; [by rewrite length_replicate|].
      apply Forall_replicate. by rewrite length_replicate. }
    set (I := fun b : Bitmap =>
                rect (Z.to_nat (n_rows p)) (Z.to_nat (n_columns p)) b /\
                forall i j cell, cell_at b i j = Some cell -> cell.1 = 0 \/ cell.1 = 1).
    assert (I x0) as Hx0.
    { revert E0. apply (for_each_invariant I).
      - intros it b b' _ [Hr Hb] Hmark. unfold mark_item in Hmark.
        destruct (update_cell_Ok _ _ _ _ _ _ _ Hr Hmark)
          as (i0 & j0 & _ & _ & _ & _ & Hr' & Hcells).
        split; [done|]. intros i j cell. rewrite Hcells.
        destruct (decide (i = i0 /\ j = j0)); [|apply Hb].
        destruct (cell_at b i j); simpl; [|done]. intros [= <-]. simpl. by right.
      - split; [done|]. intros i j cell Hcell. unfold cell_at in Hcell.
        destruct (replicate _ _ !! i) as [row|] eqn:Hrow; [|done]. simpl in Hcell.
        apply lookup_replicate in Hrow as [-> _].
        apply lookup_replicate in Hcell as [-> _]. by left. }
    assert (I state) as [_ Hstate]; [|exact Hstate].
    revert H. apply (for_each_invariant I); [|done].
    intros r b b' _ [Hr Hb] Hmark. unfold mark_robot in Hmark.
    destruct (update_cell_Ok _ _ _ _ _ _ _ Hr Hmark)
      as (i0 & j0 & _ & _ & _ & _ & Hr' & Hcells).
    split; [done|]. intros i j cell. rewrite Hcells.
    destruct (decide (i = i0 /\ j = j0)); [|apply Hb].
    destruct (cell_at b i j) as [c|] eqn:Hc; simpl; [|done]. intros [= <-]. simpl.
    by apply (Hb i j). }
  intros r c. unfold item_bit.
  destruct (cell_at state (Z.to_nat r) (Z.to_nat c)) as [cell|] eqn:Hcell; [|by left].
  by apply (Hbits _ _ _ Hcell).
Qed.

(** In an ['image'] observation [observe] produces from a state bitmap, the
    robot's own cell holds 0 or -1, never 1. *)
Lemma produced_image_own_cell p its rs (state : Bitmap) (r : Robot) obs :
  _get_state p its rs = Ok state ->
  domain_in_grid (n_rows p) (n_columns p) (_robot_domain r) ->
  in_domain (_robot_domain r) (_pos r) ->
  observe r state true = Ok (Image obs) ->
  cell_at obs (Z.to_nat (relative_pos r).1) (Z.to_nat (relative_pos r).2) <> Some 1.
Proof.
  intros Hstate Hgrid Hin Hobs.
  destruct (get_state_spec _ _ _ _ Hstate) as (Hr & Hc & Hrect & _).
  rewrite <- (Z2Nat.id (n_rows p)), <- (Z2Nat.id (n_columns p)) in Hgrid by done.
  destruct (observe_image_spec _ _ state r Hrect Hgrid Hin) as (a & Ha & Hcells).
  rewrite Hobs in Ha. injection Ha as <-.
  destruct Hin as [Hi Hj]. destruct Hgrid as (H0 & H2 & H1 & H3).
  unfold relative_pos. simpl. rewrite Hcells by lia.
  rewrite decide_True by done.
  destruct (get_state_item_bits _ _ _ _ Hstate
              (dom0 (_robot_domain r) + Z.of_nat (Z.to_nat ((_pos r).1 - dom0 (_robot_domain r))))
              (dom1 (_robot_domain r) + Z.of_nat (Z.to_nat ((_pos r).2 - dom1 (_robot_domain r)))))
    as [-> | ->]; intros [= Habs].
Qed.

Section TargetFacts.

Context {PyState : Type} {py : PyRandom PyState}.
Variable all_pairs_dijkstra_path : Graph -> PathDict.

(** C9: on an observation of the domain with exactly one cell marked 1,
    where the robot's own cell is not marked 1 (in every observation
    [observe] produces that cell holds 0 or -1: [produced_image_own_cell]),
    for a robot inside its domain whose path table is the one networkx
    builds for the graph of that observation, [select_naive_action] draws no
    random number and returns the first action of a path of the 4-connected
    domain grid from the robot's cell to the item's cell whose number of
    edges is the shortest-path distance between them in that grid: the
    action that [act] turns into the step to the second cell of that path. *)
Theorem select_naive_action_single_item
    (H W : nat) (r : Robot) (obs : list (list Z)) (g : PyState) (i0 j0 : nat) :
  let t := (Z.of_nat i0, Z.of_nat j0) in
  let graph := _create_graph obs in
  let r' := ensure_graph all_pairs_dijkstra_path r obs in
  rect H W obs ->
  (_graph r <> None -> _path_dict r = Some (all_pairs_dijkstra_path graph)) ->
  shortest_on_cells H W graph (all_pairs_dijkstra_path graph) ->
  in_grid H W (relative_pos r) ->
  cell_at obs i0 j0 = Some 1 ->
  (forall i j, cell_at obs i j = Some 1 -> i = i0 /\ j = j0) ->
  cell_at obs (Z.to_nat (relative_pos r).1) (Z.to_nat (relative_pos r).2) <> Some 1 ->
  exists path a w,
    grid_path H W (relative_pos r) t path /\
    grid_distance H W (relative_pos r) t (Z.of_nat (length path) - 1) /\
    path !! 1%nat = Some w /\
    _get_first_action path = Ok (Some a) /\ 0 <= a <= 3 /\
    candidate (relative_pos r) a = Ok w /\
    select_naive_action all_pairs_dijkstra_path r obs g = Ok (Some a, r', g).
Proof.
  intros t graph r' Hrect Hcache Htable Hu Hitem Hunique Hown.
  destruct (ensure_graph_keeps all_pairs_dijkstra_path r obs) as (Hpos & Hdom & Hspace).
  fold r' in Hpos, Hdom, Hspace.
  assert (relative_pos r' = relative_pos r) as Hrel.
  { unfold relative_pos. by rewrite Hpos, Hdom. }
  pose proof (ensure_graph_table _ r obs Hcache) as Hdict. fold r' graph in Hdict.
  assert (in_grid H W t) as Ht.
  { destruct Hrect as [Hlen Hrows]. unfold cell_at in Hitem.
    destruct (obs !! i0) as [row|] eqn:Hrow; [|discriminate]. simpl in Hitem.
    pose proof (lookup_lt_Some _ _ _ Hrow). pose proof (lookup_lt_Some _ _ _ Hitem) as Hj.
    rewrite Forall_lookup in Hrows. rewrite (Hrows _ _ Hrow) in Hj.
    unfold in_grid, t. simpl. lia. }
  assert (relative_pos r <> t) as Hne.
  { intros Heq. apply Hown. rewrite Heq. unfold t. simpl. by rewrite !Nat2Z.id. }
  destruct (Htable (relative_pos r) t Hu Ht) as (p & Hp & _ & _).
  { exists (manhattan_path (relative_pos r) t).
    eapply grid_path_is_path; [done|]. by apply manhattan_path_grid. }
  destruct (table_path_grid H W obs _ _ _ p Hrect Htable Hu Ht Hp) as [Hpath Hlen].
  assert (manhattan (relative_pos r) t < Z.of_nat H + Z.of_nat W) as Hbound.
  { destruct Hu, Ht. unfold manhattan. lia. }
  assert (_path_to_closest_item r' obs = Ok (Some p)) as Hclosest.
  { apply (path_to_single_item H W r' obs (all_pairs_dijkstra_path graph) i0 j0 p);
      try done; [by rewrite Hrel | lia]. }
  pose proof (manhattan_nonneg (relative_pos r) t) as Hnn.
  assert (manhattan (relative_pos r) t <> 0) as Hpos'
    by (intros H0; by apply manhattan_zero in H0).
  destruct (first_action_of_grid_path H W _ _ p Hpath ltac:(lia))
    as (a & w & Hw & Hact & Ha & Hcand).
  exists p, a, w. split; [done|]. split.
  { replace (Z.of_nat (length p) - 1) with (manhattan (relative_pos r) t) by lia.
    by apply grid_distance_manhattan. }
  split; [done|]. split; [done|]. split; [done|]. split; [done|].
  unfold select_naive_action. fold r'. rewrite Hclosest. simpl.
  rewrite decide_False by lia. rewrite Hact. done.
Qed.

(** C8: [select_naive_action2] keeps the items that lie in the robot's
    domain; when there is none it returns the draw of [random.randint];
    otherwise it targets the item of least waiting time among them, the first
    one in roster order on ties, and what it returns is decided by the cached
    path from the robot's domain-relative position to that item: its first
    action, or the draw of [random.randint] when the path has fewer than two
    nodes.  When the observation has the shape of the robot's domain, the
    robot is inside its domain and the path table is the one networkx builds
    for the graph of the observation, that path is in the table, it is a
    shortest path of the 4-connected domain grid, and the policy returns the
    draw exactly when the target lies on the robot's own cell; otherwise it
    returns, without drawing, the action among 0..3 that [act] turns into the
    step to the second cell of the path. *)
Theorem select_naive_action2_targets_least_waiting
    (H W : nat) (r : Robot) (obs : list (list Z)) (its : list Item) (g : PyState) :
  let d := _robot_domain r in
  let graph := _create_graph obs in
  let r' := ensure_graph all_pairs_dijkstra_path r obs in
  let region := filter (fun it => in_domain d (get_position it)) its in
  let fallback := random_randint 0 (_action_space r - 1) g in
  (region = [] ->
   select_naive_action2 all_pairs_dijkstra_path r obs its g
   = Ok (Some fallback.1, r', fallback.2)) /\
  (region <> [] ->
   exists k target,
     region !! k = Some target /\
     (forall it, it ∈ region -> get_waiting_time target <= get_waiting_time it) /\
     (forall k' it, (k' < k)%nat -> region !! k' = Some it ->
                    get_waiting_time target < get_waiting_time it) /\
     (forall path,
        path_lookup r' (relative_pos r) (item_relative_pos r target) = Ok path ->
        select_naive_action2 all_pairs_dijkstra_path r obs its g
        = if decide (length path < 2)%nat
          then Ok (Some fallback.1, r', fallback.2)
          else a ← _get_first_action path; Ok (a, r', g)) /\
     (rect H W obs ->
      Z.of_nat H = dom2 d - dom0 d + 1 -> Z.of_nat W = dom3 d - dom1 d + 1 ->
      in_domain d (_pos r) ->
      (_graph r <> None -> _path_dict r = Some (all_pairs_dijkstra_path graph)) ->
      shortest_on_cells H W graph (all_pairs_dijkstra_path graph) ->
      exists path,
        path_lookup r' (relative_pos r) (item_relative_pos r target) = Ok path /\
        grid_path H W (relative_pos r) (item_relative_pos r target) path /\
        grid_distance H W (relative_pos r) (item_relative_pos r target)
                      (Z.of_nat (length path) - 1) /\
        (get_position target = _pos r ->
         select_naive_action2 all_pairs_dijkstra_path r obs its g
         = Ok (Some fallback.1, r', fallback.2)) /\
        (get_position target <> _pos r ->
         exists a w,
           path !! 1%nat = Some w /\
           _get_first_action path = Ok (Some a) /\ 0 <= a <= 3 /\
           candidate (relative_pos r) a = Ok w /\
           select_naive_action2 all_pairs_dijkstra_path r obs its g
           = Ok (Some a, r', g)))).
Proof.
  intros d graph r' region fallback.
  destruct (ensure_graph_keeps all_pairs_dijkstra_path r obs) as (Hpos & Hdom & Hspace).
  fold r' in Hpos, Hdom, Hspace.
  assert (_get_items_robot_region r' its = region) as Hregion.
  { unfold _get_items_robot_region. by rewrite Hdom. }
  assert (relative_pos r' = relative_pos r) as Hrel.
  { unfold relative_pos. by rewrite Hpos, Hdom. }
  pose proof (oldest_loop_found region [] (None, None) eq_refl) as Hfound.
  simpl in Hfound. split.
  { intros Hnil. unfold select_naive_action2. fold r'. rewrite Hregion.
    unfold _path_to_oldest_item. rewrite Hnil. simpl. rewrite Hspace. fold fallback.
    by destruct fallback. }
  intros Hne.
  destruct (oldest_loop 0 region (None, None)) as [[wt|] [k|]] eqn:Hloop;
    simpl in Hfound; try done.
  destruct Hfound as (target & Hk & Hw & Hmin & Hfirst). subst wt.
  exists k, target. split; [done|]. split; [done|]. split; [done|].
  assert (forall path,
            path_lookup r' (relative_pos r) (item_relative_pos r target) = Ok path ->
            select_naive_action2 all_pairs_dijkstra_path r obs its g
            = if decide (length path < 2)%nat
              then Ok (Some fallback.1, r', fallback.2)
              else a ← _get_first_action path; Ok (a, r', g)) as Hresult.
  { intros path Hpath. unfold select_naive_action2. fold r'. rewrite Hregion.
    unfold _path_to_oldest_item. rewrite Hloop, Hrel, Hdom.
    rewrite decide_True by (destruct region; [done | simpl; lia]).
    simpl. rewrite Hk. fold (item_relative_pos r target). rewrite Hpath. simpl.
    destruct (decide (length path < 2)%nat) as [Hshort|Hlong].
    + rewrite Hspace. fold fallback. by destruct fallback.
    + by destruct (_get_first_action path). }
  split; [exact Hresult|].
  intros Hrect HH HW Hin Hcache Htable.
  pose proof (ensure_graph_table _ r obs Hcache) as Hdict. fold r' graph in Hdict.
  assert (target ∈ region) as Htarget by by eapply list_elem_of_lookup_2.
  pose proof Htarget as Htin. unfold region in Htin.
  apply list_elem_of_filter in Htin as [[Hti Htj] _].
  set (u := relative_pos r) in *. set (t := item_relative_pos r target) in *.
  assert (in_grid H W u) as Hu.
  { destruct Hin as [Hi Hj]. unfold in_grid, u, relative_pos. fold d. simpl. lia. }
  assert (in_grid H W t) as Ht.
  { unfold in_grid, t, item_relative_pos. fold d. simpl. lia. }
  destruct (Htable u t Hu Ht) as (p & Hp & _ & _).
  { exists (manhattan_path u t).
    eapply grid_path_is_path; [done|]. by apply manhattan_path_grid. }
  destruct (table_path_grid H W obs _ _ _ p Hrect Htable Hu Ht Hp) as [Hpath Hlen].
  assert (path_lookup r' u t = Ok p) as Hlookup.
  { unfold path_lookup. by rewrite Hdict, Hp. }
  pose proof (manhattan_nonneg u t) as Hnn.
  assert (u = t <-> get_position target = _pos r) as Hsame.
  { unfold u, t, relative_pos, item_relative_pos. fold d.
    destruct (get_position target) as [a b], (_pos r) as [a' b']. simpl. split.
    - intros [= H1 H2]. f_equal; lia.
    - intros [= -> ->]. done. }
  exists p. split; [done|]. split; [done|]. split.
  { replace (Z.of_nat (length p) - 1) with (manhattan u t) by lia.
    by apply grid_distance_manhattan. }
  split.
  - intros Heq. apply Hsame in Heq. rewrite (Hresult p Hlookup).
    assert (manhattan u t = 0) as Hzero by (rewrite Heq; unfold manhattan; lia).
    by rewrite decide_True by lia.
  - intros Hneq.
    assert (manhattan u t <> 0) as Hpos'.
    { intros H0. apply manhattan_zero in H0. by apply Hneq, Hsame. }
    destruct (first_action_of_grid_path H W _ _ p Hpath ltac:(lia))
      as (a & w & Hw1 & Hact & Ha & Hcand).
    exists a, w. split; [done|]. split; [done|]. split; [done|]. split; [done|].
    rewrite (Hresult p Hlookup). rewrite decide_False by lia. by rewrite Hact.
Qed.

End TargetFacts.

Lemma corner_obs_rect : rect 2 2 corner_obs.
Proof. split; [reflexivity | repeat constructor]. Qed.

Lemma corner_obs_single i j :
  cell_at corner_obs i j = Some 1 -> i = 1%nat /\ j = 1%nat.
Proof.
  destruct i as [|[|i]], j as [|[|j]]; simpl; intros Hcell; try discriminate Hcell.
  done.
Qed.

Lemma corner_view_rect : rect 2 2 corner_view.
Proof. split; [reflexivity | repeat constructor]. Qed.

Lemma corner_view_single i j :
  cell_at corner_view i j = Some 1 -> i = 1%nat /\ j = 1%nat.
Proof.
  destruct i as [|[|i]], j as [|[|j]]; simpl; intros Hcell; try discriminate Hcell.
  done.
Qed.

Lemma select_naive_action_single_item_witness :
  let t := (Z.of_nat 1, Z.of_nat 1) in
  let r := corner_robot in
  observe r corner_state true = Ok (Image corner_view) /\
  rect 2 2 corner_view /\
  shortest_on_cells 2 2 (_create_graph corner_view)
                    (manhattan_apsp (_create_graph corner_view)) /\
  in_grid 2 2 (relative_pos r) /\
  cell_at corner_view 1 1 = Some 1 /\
  cell_at corner_view (Z.to_nat (relative_pos r).1) (Z.to_nat (relative_pos r).2)
  <> Some 1 /\
  exists path a w,
    grid_path 2 2 (relative_pos r) t path /\
    grid_distance 2 2 (relative_pos r) t (Z.of_nat (length path) - 1) /\
    path !! 1%nat = Some w /\
    _get_first_action path = Ok (Some a) /\ 0 <= a <= 3 /\
    candidate (relative_pos r) a = Ok w /\
    select_naive_action manhattan_apsp r corner_view (2 : Z)
    = Ok (Some a, ensure_graph manhattan_apsp r corner_view, 2).
Proof.
  assert (observe corner_robot corner_state true = Ok (Image corner_view)) as Hobs
    by reflexivity.
  assert (shortest_on_cells 2 2 (_create_graph corner_view)
            (manhattan_apsp (_create_graph corner_view))) as Htable
    by exact (manhattan_table_shortest 2 2 corner_view corner_view_rect).
  assert (_graph corner_robot <> None ->
          _path_dict corner_robot
          = Some (manhattan_apsp (_create_graph corner_view))) as Hcache
    by (intros Hg; by destruct Hg).
  assert (in_grid 2 2 (relative_pos corner_robot)) as Hin
    by (unfold in_grid; simpl; lia).
  assert (cell_at corner_view 1 1 = Some 1) as Hitem by reflexivity.
  assert (cell_at corner_view (Z.to_nat (relative_pos corner_robot).1)
            (Z.to_nat (relative_pos corner_robot).2) <> Some 1) as Hown
    by (simpl; intros Heq; discriminate Heq).
  cbv zeta. split; [exact Hobs|]. split; [exact corner_view_rect|].
  split; [exact Htable|]. split; [exact Hin|]. split; [exact Hitem|].
  split; [exact Hown|].
  exact (select_naive_action_single_item manhattan_apsp 2 2 corner_robot
           corner_view (2 : Z) 1 1 corner_view_rect Hcache Htable Hin Hitem
           corner_view_single Hown).
Defined.

(** The policies on the small domain: towards the single item, a step DOWN
    along the cached path; on a roster, towards the fresh item on (0,1)
    rather than the older one on (1,1), a step RIGHT; with no item in the
    domain, the draw of [random.randint]. *)
Example naive_policies_on_corner :
  select_naive_action manhattan_apsp corner_robot corner_obs (2 : Z)
  = Ok (Some 1, ensure_graph manhattan_apsp corner_robot corner_obs, 2) /\
  select_naive_action2 manhattan_apsp corner_robot corner_obs corner_items (2 : Z)
  = Ok (Some 3, ensure_graph manhattan_apsp corner_robot corner_obs, 2) /\
  select_naive_action2 manhattan_apsp corner_robot corner_obs [] (2 : Z)
  = Ok (Some 0, ensure_graph manhattan_apsp corner_robot corner_obs, 59559187).
Proof. repeat split. Qed.

Lemma select_naive_action2_targets_least_waiting_witness :
  let r := corner_robot in
  let r' := ensure_graph manhattan_apsp r corner_obs in
  let region :=
    filter (fun it => in_domain (_robot_domain r) (get_position it)) corner_items in
  region <> [] /\
  rect 2 2 corner_obs /\ in_domain (_robot_domain r) (_pos r) /\
  shortest_on_cells 2 2 (_create_graph corner_obs)
                    (manhattan_apsp (_create_graph corner_obs)) /\
  exists k target path a w,
    region !! k = Some target /\
    (forall it, it ∈ region -> get_waiting_time target <= get_waiting_time it) /\
    path_lookup r' (relative_pos r) (item_relative_pos r target) = Ok path /\
    get_position target <> _pos r /\
    path !! 1%nat = Some w /\
    _get_first_action path = Ok (Some a) /\ 0 <= a <= 3 /\
    candidate (relative_pos r) a = Ok w /\
    select_naive_action2 manhattan_apsp r corner_obs corner_items (2 : Z)
    = Ok (Some a, r', 2).
Proof.
  assert (filter (fun it => in_domain (_robot_domain corner_robot) (get_position it))
                 corner_items <> []) as Hne
    by (vm_compute; intros Hnil; discriminate Hnil).
  assert (Z.of_nat 2 = dom2 (_robot_domain corner_robot)
                       - dom0 (_robot_domain corner_robot) + 1) as HH by reflexivity.
  assert (Z.of_nat 2 = dom3 (_robot_domain corner_robot)
                       - dom1 (_robot_domain corner_robot) + 1) as HW by reflexivity.
  assert (in_domain (_robot_domain corner_robot) (_pos corner_robot)) as Hin
    by (unfold in_domain; simpl; lia).
  assert (_graph corner_robot <> None ->
          _path_dict corner_robot
          = Some (manhattan_apsp (_create_graph corner_obs))) as Hcache
    by (intros Hg; by destruct Hg).
  assert (shortest_on_cells 2 2 (_create_graph corner_obs)
            (manhattan_apsp (_create_graph corner_obs))) as Htable
    by exact (manhattan_table_shortest 2 2 corner_obs corner_obs_rect).
  assert (forall it,
            it ∈ filter (fun it => in_domain (_robot_domain corner_robot)
                                             (get_position it)) corner_items ->
            get_position it <> _pos corner_robot) as Hfree.
  { intros it Hit. apply list_elem_of_filter in Hit as [_ Hit].
    unfold corner_items in Hit.
    repeat (apply elem_of_cons in Hit as [->|Hit]); try (intros Heq; discriminate Heq).
    by apply elem_of_nil in Hit. }
  cbv zeta. split; [exact Hne|]. split; [exact corner_obs_rect|].
  split; [exact Hin|]. split; [exact Htable|].
  destruct (proj2 (select_naive_action2_targets_least_waiting manhattan_apsp 2 2
                     corner_robot corner_obs corner_items (2 : Z)) Hne)
    as (k & target & Hk & Hmin & _ & _ & Hstrong).
  destruct (Hstrong corner_obs_rect HH HW Hin Hcache Htable)
    as (path & Hlookup & _ & _ & _ & Hstep).
  assert (get_position target <> _pos corner_robot) as Hoff
    by (apply Hfree; by eapply list_elem_of_lookup_2).
  destruct (Hstep Hoff) as (a & w & Hw & Hact & Ha & Hcand & Hsel).
  exists k, target, path, a, w.
  split; [exact Hk|]. split; [exact Hmin|]. split; [exact Hlookup|].
  split; [exact Hoff|]. split; [exact Hw|]. split; [exact Hact|].
  split; [exact Ha|]. split; [exact Hcand | exact Hsel].
Defined.

(** * Further properties of the code *)

(** ** Movement *)

(** X1: [_get_first_action] decodes what [act] encodes: on a path of two
    cells it returns the action [a] exactly when [a] is one of 0..3 and the
    second cell is the candidate position [act] computes from the first for
    that action. *)
Theorem first_action_inverts_candidate (p q : Node) (a : Z) :
  _get_first_action [p; q] = Ok (Some a) <->
  0 <= a <= 3 /\ candidate p a = Ok q.
Proof.
  unfold _get_first_action.
  rewrite (py_index_in_range [p; q] 1 q) by done.
  rewrite (py_index_in_range [p; q] 0 p) by done. simpl.
  destruct p as [pr pc], q as [qr qc]. unfold _action_mapping, candidate. simpl.
  split.
  - intros H. repeat case_decide; simplify_eq; (split; [lia | f_equal; f_equal; lia]).
  - intros [Ha H].
    assert (a = 0 \/ a = 1 \/ a = 2 \/ a = 3) as Hc by lia.
    destruct Hc as [->|[->|[->| ->]]]; simpl in H; injection H as <- <-.
    + replace (pr - 1 - pr, pc - pc) with (-1, 0) by (f_equal; lia). done.
    + replace (pr + 1 - pr, pc - pc) with (1, 0) by (f_equal; lia). done.
    + replace (pr - pr, pc - 1 - pc) with (0, -1) by (f_equal; lia). done.
    + replace (pr - pr, pc + 1 - pc) with (0, 1) by (f_equal; lia). done.
Qed.

(** X2: an action outside 0..3 leaves [new_pos] unbound: [act] raises
    [UnboundLocalError], and so does a tick in which such an action is paired
    with a robot. *)
Theorem invalid_action_raises {NpState : Type} {np : NumpyRandom NpState}
    (w : Warehouse NpState) (actions : list Z) (k : nat) (a : Z) (r : Robot) :
  ~ (0 <= a <= 3) ->
  actions !! k = Some a -> robots w !! k = Some r ->
  act r a = Err UnboundLocalError /\
  step w actions = Err UnboundLocalError.
Proof.
  intros Ha Hk Hr.
  assert (forall r', act r' a = Err UnboundLocalError) as Hact.
  { intros r'. unfold act, candidate. repeat case_decide; try lia. done. }
  split; [apply Hact|].
  assert (forall acts rs e, _robots_act acts rs = Err e -> e = UnboundLocalError) as Honly.
  { induction acts as [|a' acts IH]; intros rs e; [discriminate|].
    destruct rs as [|r' rs]; [discriminate|]. simpl.
    destruct (act r' a') as [r''|e'] eqn:Hr'; simpl.
    - destruct (_robots_act acts rs) as [rs'|e''] eqn:Hrest; simpl; [discriminate|].
      intros [= <-]. by eapply IH.
    - intros [= <-]. unfold act, candidate in Hr'.
      repeat case_decide; simpl in Hr'; congruence. }
  assert (exists e, _robots_act actions (robots w) = Err e) as [e He].
  { clear Honly. revert k Hk Hr. generalize (robots w).
    induction actions as [|a' actions IH]; intros rs k Hk Hr; [done|].
    destruct rs as [|r' rs]; [done|]. destruct k as [|k]; simpl in *.
    - injection Hk as ->. rewrite Hact. simpl. eauto.
    - destruct (act r' a'); simpl; [|eauto].
      destruct (IH rs k Hk Hr) as [e ->]. simpl. eauto. }
  unfold step. rewrite He. simpl. f_equal. by eapply Honly.
Qed.

Lemma invalid_action_raises_witness :
  ~ (0 <= 4 <= 3) /\
  [0; 4] !! 1%nat = Some 4 /\
  robots shared_column_start !! 1%nat
  = Some (new_Robot 1 (1, 3) (mkDomain 0 2 2 4)) /\
  step shared_column_start [0; 4] = Err UnboundLocalError.
Proof.
  assert (~ (0 <= 4 <= 3)) as Ha by lia.
  assert ([0; 4] !! 1%nat = Some 4) as Hk by reflexivity.
  assert (robots shared_column_start !! 1%nat
          = Some (new_Robot 1 (1, 3) (mkDomain 0 2 2 4))) as Hr
    by (vm_compute; reflexivity).
  split; [exact Ha|]. split; [exact Hk|]. split; [exact Hr|].
  exact (proj2 (invalid_action_raises shared_column_start [0; 4] 1 4 _ Ha Hk Hr)).
Defined.

(** X3: [act] changes nothing of a robot but its position, and the new
    position is the old one or lies one row or one column from it. *)
Theorem act_moves_one_cell (r r' : Robot) (a : Z) :
  act r a = Ok r' ->
  _id r' = _id r /\ _robot_domain r' = _robot_domain r /\
  _graph r' = _graph r /\ _path_dict r' = _path_dict r /\
  items_collected r' = items_collected r /\
  (_pos r' = _pos r \/ unit_step (_pos r) (_pos r')).
Proof.
  unfold act. intros H. inv_bind H. injection H as <-.
  unfold set_position. destruct (decide (in_domain (_robot_domain r) x)); simpl;
    [|by repeat split; try left].
  repeat split; try done. right.
  unfold candidate in E. unfold unit_step, manhattan.
  repeat case_decide; simplify_eq; simpl; lia.
Qed.

Lemma act_moves_one_cell_witness :
  act corner_robot 1 = Ok (new_Robot 0 (1, 0) (mkDomain 0 0 1 1)) /\
  unit_step (_pos corner_robot) (_pos (new_Robot 0 (1, 0) (mkDomain 0 0 1 1))).
Proof.
  assert (act corner_robot 1 = Ok (new_Robot 0 (1, 0) (mkDomain 0 0 1 1))) as Hact
    by reflexivity.
  split; [exact Hact|].
  destruct (act_moves_one_cell _ _ _ Hact) as (_ & _ & _ & _ & _ & [Hsame|Hstep]).
  - discriminate Hsame.
  - exact Hstep.
Defined.

(** X4: [_robots_act] pairs actions and robots by position and stops at the
    shorter list: the roster keeps its length, a robot paired with an action
    is replaced by the result of [act], and a robot beyond the last action is
    left as it is. *)
Theorem robots_act_pairs_by_position (actions : list Z) (rs rs' : list Robot) :
  _robots_act actions rs = Ok rs' ->
  length rs' = length rs /\
  (forall k a r, actions !! k = Some a -> rs !! k = Some r ->
                 exists r', act r a = Ok r' /\ rs' !! k = Some r') /\
  (forall k, (length actions <= k)%nat -> rs' !! k = rs !! k).
Proof.
  revert rs rs'. induction actions as [|a actions IH]; intros rs rs' H.
  - simpl in H. injection H as <-. repeat split; try done.
  - destruct rs as [|r rs]; simpl in H.
    + injection H as <-. repeat split; try done.
    + do 2 inv_bind H. injection H as <-.
      destruct (IH _ _ E0) as (Hlen & Hact & Hrest). split; [simpl; lia|]. split.
      * intros [|k] a' r' Ha Hr; simpl in *.
        -- injection Ha as <-. injection Hr as <-. eauto.
        -- by apply Hact.
      * intros [|k] Hk; simpl in *; [lia|]. apply Hrest. lia.
Qed.

Lemma robots_act_pairs_by_position_witness :
  let rs := robots shared_column_start in
  exists rs',
    _robots_act [3] rs = Ok rs' /\ length rs' = length rs /\
    rs' !! 1%nat = rs !! 1%nat.
Proof.
  cbv zeta.
  assert (_robots_act [3] (robots shared_column_start)
          = Ok [new_Robot 0 (1, 2) (mkDomain 0 0 2 2);
                new_Robot 1 (1, 3) (mkDomain 0 2 2 4)]) as Hrun
    by (vm_compute; reflexivity).
  eexists. split; [exact Hrun|].
  destruct (robots_act_pairs_by_position _ _ _ Hrun) as (Hlen & _ & Hrest).
  split; [exact Hlen|]. apply Hrest. simpl. lia.
Defined.

(** ** Placement *)

Lemma range_elems_index start stop step i x :
  0 <= i -> py_index (range_elems start stop step) i = Ok x ->
  x = start + i * step /\ i < range_len start stop step.
Proof.
  intros Hi Hx. apply py_index_nonneg in Hx; [|done].
  apply range_elems_lookup in Hx. rewrite Z2Nat.id in Hx by done. done.
Qed.

Lemma place_body_robot p rows cols i j st st' :
  np_arange 0 (n_rows p) ((robot_domain_size p).1 - 1) = Ok rows ->
  np_arange 0 (n_columns p) ((robot_domain_size p).2 - 1) = Ok cols ->
  0 <= i -> 0 <= j ->
  place_body p rows cols i j st = Ok st' ->
  st' = (st.1 ++ [robot_at p st.2 i j], st.2 + 1) /\
  (i + 1) < range_len 0 (n_rows p) ((robot_domain_size p).1 - 1) /\
  (j + 1) < range_len 0 (n_columns p) ((robot_domain_size p).2 - 1).
Proof.
  intros Hrows Hcols Hi Hj H. unfold np_arange in Hrows, Hcols.
  destruct (decide (_ = 0)); [discriminate|]. injection Hrows as <-.
  destruct (decide (_ = 0)); [discriminate|]. injection Hcols as <-.
  unfold place_body in H. do 4 inv_bind H. injection H as <-.
  apply range_elems_index in E as [-> _], E0 as [-> _], E1 as [-> ?], E2 as [-> ?];
    try lia.
  split; [|split; lia]. unfold robot_at. cbv zeta. by rewrite !Z.add_0_l.
Qed.

Lemma place_row_spec p rows cols i js :
  np_arange 0 (n_rows p) ((robot_domain_size p).1 - 1) = Ok rows ->
  np_arange 0 (n_columns p) ((robot_domain_size p).2 - 1) = Ok cols ->
  0 <= i -> Forall (fun j => 0 <= j) js ->
  forall st st',
    for_each (place_body p rows cols i) js st = Ok st' ->
    st' = (st.1 ++ imap (fun k j => robot_at p (st.2 + Z.of_nat k) i j) js,
           st.2 + Z.of_nat (length js)).
Proof.
  intros Hrows Hcols Hi. induction js as [|j js IH]; intros Hjs st st' H.
  - simpl in H. injection H as <-. destruct st as [l n]. simpl.
    by rewrite app_nil_r, Z.add_0_r.
  - inversion Hjs as [|? ? Hj Hjs']; subst. cbn [for_each] in H. inv_bind H.
    destruct (place_body_robot _ _ _ _ _ _ _ Hrows Hcols Hi Hj E) as [-> _].
    rewrite (IH Hjs' _ _ H). cbn [fst snd imap length].
    rewrite <- app_assoc. f_equal; [|lia]. f_equal. simpl. f_equal.
    + f_equal. lia.
    + apply imap_ext. intros k1 y1 _. simpl. f_equal. lia.
Qed.

Lemma place_rows_spec p rows cols ixs js :
  np_arange 0 (n_rows p) ((robot_domain_size p).1 - 1) = Ok rows ->
  np_arange 0 (n_columns p) ((robot_domain_size p).2 - 1) = Ok cols ->
  Forall (fun i => 0 <= i) ixs -> Forall (fun j => 0 <= j) js ->
  forall st st',
    for_each (fun i => for_each (place_body p rows cols i) js) ixs st = Ok st' ->
    st' = (st.1 ++ concat (imap (fun a i =>
                     imap (fun k j =>
                       robot_at p (st.2 + Z.of_nat a * Z.of_nat (length js) + Z.of_nat k) i j)
                       js) ixs),
           st.2 + Z.of_nat (length ixs) * Z.of_nat (length js)).
Proof.
  intros Hrows Hcols His Hjs. induction His as [|i ixs Hi His IH]; intros st st' H.
  - simpl in H. injection H as <-. destruct st as [l n]. simpl.
    by rewrite app_nil_r, Z.add_0_r.
  - cbn [for_each] in H. inv_bind H.
    rewrite (place_row_spec _ _ _ _ _ Hrows Hcols Hi Hjs _ _ E) in H.
    rewrite (IH _ _ H). cbn [fst snd imap length concat].
    rewrite <- app_assoc. f_equal; [|lia]. f_equal. f_equal.
    + apply imap_ext. intros k1 y1 _. simpl. f_equal. lia.
    + f_equal. apply imap_ext. intros a1 y1 _. simpl.
      apply imap_ext. intros k2 y2 _. simpl. f_equal. lia.
Qed.

Lemma lookup_concat_rect {A} n m (a : list (list A)) i k :
  rect n m a -> (k < m)%nat -> concat a !! (i * m + k)%nat = cell_at a i k.
Proof.
  intros [_ Hm]. revert i. induction Hm as [|row a Hrow _ IH]; intros i.
  - unfold cell_at. simpl. by rewrite !lookup_nil.
  - intros Hk. destruct i as [|i]; simpl.
    + unfold cell_at. simpl. by rewrite lookup_app_l by lia.
    + rewrite lookup_app_r by lia.
      replace (m + i * m + k - length row)%nat with (i * m + k)%nat by lia.
      rewrite IH by done. done.
Qed.

(** X5: the layout [_place_robots] builds.  When it succeeds from the
    counter [rid] it returns one robot per pair of a layout row [i] and a
    layout column [j], in row-major order; the robot of [(i, j)] has the
    identifier [rid + i * n_robots_column + j], the domain
    [[i*(h-1), j*(w-1), (i+1)*(h-1), (j+1)*(w-1)]] for a domain size [(h, w)]
    (so neighbouring domains share one row or one column), and stands at the
    domain's origin plus [(h // 2, w // 2)]; the counter advances by the
    number of robots. *)
Theorem place_robots_layout (p : Parameters) (rid : Z) (out : list Robot * Z) :
  _place_robots p rid = Ok out ->
  let nr := Z.to_nat (n_robots_row p) in
  let nc := Z.to_nat (n_robots_column p) in
  length out.1 = (nr * nc)%nat /\
  out.2 = rid + Z.of_nat (nr * nc) /\
  forall i j : nat, (i < nr)%nat -> (j < nc)%nat ->
    out.1 !! (i * nc + j)%nat
    = Some (robot_at p (rid + Z.of_nat i * n_robots_column p + Z.of_nat j)
                     (Z.of_nat i) (Z.of_nat j)).
Proof.
  intros H nr nc. unfold _place_robots in H. do 2 inv_bind H.
  assert (Forall (fun i => 0 <= i) (py_range (n_robots_row p))) as His.
  { apply Forall_forall. intros i Hi. apply elem_of_seqZ in Hi. lia. }
  assert (Forall (fun j => 0 <= j) (py_range (n_robots_column p))) as Hjs.
  { apply Forall_forall. intros j Hj. apply elem_of_seqZ in Hj. lia. }
  rewrite (place_rows_spec _ _ _ _ _ E E0 His Hjs _ _ H). cbn [fst snd app].
  unfold py_range. rewrite !length_seqZ. fold nr nc.
  set (table := imap _ (seqZ 0 (n_robots_row p))).
  assert (rect nr nc table) as Hrect.
  { split; [unfold table; by rewrite length_imap, length_seqZ|].
    apply Forall_forall. intros row Hrow. unfold table in Hrow.
    apply elem_of_lookup_imap in Hrow as (a & i & -> & _).
    by rewrite length_imap, length_seqZ. }
  split; [by apply length_concat_rect|]. split; [lia|].
  intros i j Hi Hj. rewrite (lookup_concat_rect nr nc) by done.
  unfold cell_at, table. rewrite list_lookup_imap, lookup_seqZ_lt by lia. simpl.
  rewrite list_lookup_imap, lookup_seqZ_lt by lia. simpl.
  do 2 f_equal. unfold nc. lia.
Qed.

Lemma place_robots_layout_witness :
  let out := ([new_Robot 0 (1, 1) (mkDomain 0 0 2 2);
               new_Robot 1 (1, 3) (mkDomain 0 2 2 4)], 2) in
  _place_robots shared_column_parameters 0 = Ok out /\
  out.1 !! (0 * 2 + 1)%nat
  = Some (robot_at shared_column_parameters (0 + 0 * 2 + 1) 0 1).
Proof.
  assert (_place_robots shared_column_parameters 0
          = Ok ([new_Robot 0 (1, 1) (mkDomain 0 0 2 2);
                 new_Robot 1 (1, 3) (mkDomain 0 2 2 4)], 2)) as Hrun
    by (vm_compute; reflexivity).
  cbv zeta. split; [exact Hrun|].
  exact (proj2 (proj2 (place_robots_layout _ _ _ Hrun)) 0%nat 1%nat
               ltac:(vm_compute; lia) ltac:(vm_compute; lia)).
Defined.

Lemma range_len_bound stop step i :
  0 < step -> 0 <= i -> i < range_len 0 stop step -> i * step < stop.
Proof.
  unfold range_len. intros Hstep Hi Hlt.
  replace (0 - stop) with (- stop) in Hlt by lia.
  pose proof (Z.div_mod (- stop) step ltac:(lia)) as Hdm.
  pose proof (Z.mod_pos_bound (- stop) step Hstep) as Hmod.
  nia.
Qed.

Lemma range_elems_elem stop step x :
  0 < stop -> step <> 0 ->
  x ∈ range_elems 0 stop step -> 0 <= x < stop /\ x `mod` step = 0.
Proof.
  intros Hstop Hstep Hx. apply list_elem_of_lookup in Hx as [k Hk].
  apply range_elems_lookup in Hk as [-> Hlt].
  destruct (Z_lt_le_dec step 0) as [Hneg|Hpos].
  - rewrite range_len_neg_step in Hlt by lia. lia.
  - pose proof (range_len_bound stop step (Z.of_nat k) ltac:(lia) ltac:(lia) Hlt).
    split; [nia|]. simpl. apply Z.mod_mul. lia.
Qed.

(** ** The robots of a reachable state *)

Lemma act_moves_one_cell_aux r r' a :
  act r a = Ok r' -> _id r' = _id r /\ _robot_domain r' = _robot_domain r.
Proof.
  unfold act. intros H. inv_bind H. injection H as <-.
  unfold set_position. by destruct (decide _).
Qed.

Lemma robots_act_domains actions rs rs' :
  _robots_act actions rs = Ok rs' ->
  _robot_domain <$> rs' = _robot_domain <$> rs /\ _id <$> rs' = _id <$> rs.
Proof.
  revert rs rs'. induction actions as [|a actions IH]; intros rs rs' H.
  - simpl in H. by injection H as <-.
  - destruct rs as [|r rs]; simpl in H; [by injection H as <-|].
    do 2 inv_bind H. injection H as <-. destruct (IH _ _ E0) as [Hd Hi].
    destruct (act_moves_one_cell_aux r x a E) as [Hid Hdom].
    rewrite !fmap_cons, Hd, Hi, Hid, Hdom. done.
Qed.

Lemma np_arange_Ok start stop step l :
  np_arange start stop step = Ok l -> step <> 0 /\ l = range_elems start stop step.
Proof. unfold np_arange. destruct (decide (step = 0)); [discriminate|]. by intros [= <-]. Qed.

Lemma place_robots_in_grid p rid out :
  0 <= n_rows p -> 0 <= n_columns p ->
  _place_robots p rid = Ok out ->
  Forall (fun r => domain_in_grid (n_rows p) (n_columns p) (_robot_domain r)) out.1.
Proof.
  intros Hnr Hnc H. unfold _place_robots in H. do 2 inv_bind H. revert H.
  apply (for_each_invariant (fun st : list Robot * Z =>
           Forall (fun r => domain_in_grid (n_rows p) (n_columns p) (_robot_domain r)) st.1));
    [|constructor].
  intros i s s' Hi Hs.
  apply (for_each_invariant (fun st : list Robot * Z =>
           Forall (fun r => domain_in_grid (n_rows p) (n_columns p) (_robot_domain r)) st.1));
    [|done].
  intros j t t' Hj Ht Hbody. apply elem_of_seqZ in Hi, Hj.
  assert (0 <= i) as Hi0 by lia. assert (0 <= j) as Hj0 by lia.
  destruct (place_body_robot _ _ _ _ _ _ _ E E0 Hi0 Hj0 Hbody) as (-> & Hri & Hcj).
  apply Forall_app. split; [done|]. apply Forall_singleton.
  assert (0 < (robot_domain_size p).1 - 1) as Hsr.
  { destruct (Z_lt_le_dec 0 ((robot_domain_size p).1 - 1)) as [|Hle]; [done|].
    destruct (np_arange_Ok _ _ _ _ E) as [Hnz _].
    rewrite range_len_neg_step in Hri; lia. }
  assert (0 < (robot_domain_size p).2 - 1) as Hsc.
  { destruct (Z_lt_le_dec 0 ((robot_domain_size p).2 - 1)) as [|Hle]; [done|].
    destruct (np_arange_Ok _ _ _ _ E0) as [Hnz _].
    rewrite range_len_neg_step in Hcj; lia. }
  assert (0 <= i + 1) as Hi1 by lia. assert (0 <= j + 1) as Hj1 by lia.
  pose proof (range_len_bound _ _ _ Hsr Hi1 Hri).
  pose proof (range_len_bound _ _ _ Hsc Hj1 Hcj).
  unfold domain_in_grid, robot_at. simpl. nia.
Qed.

Section RosterFacts.

Context {NpState : Type} {np : NumpyRandom NpState}.

Lemma roster_of_reachable (w : Warehouse NpState) :
  reachable w ->
  exists out,
    _place_robots (parameters w) 0 = Ok out /\
    _id <$> robots w = _id <$> out.1 /\
    _robot_domain <$> robots w = _robot_domain <$> out.1.
Proof.
  induction 1 as [w0 out w Hreset | w s Hw IH | w actions out w' Hw IH Hstep].
  - unfold reset in Hreset. do 2 inv_bind Hreset. injection Hreset as <- <-. simpl.
    unfold _add_items in E0. inv_bind E0. injection E0 as <-. simpl. eauto.
  - destruct (seed_spec w s) as (_ & -> & ->). done.
  - destruct IH as (placed & Hplaced & Hids & Hdoms).
    destruct (reachable_inv w Hw) as [Hnd _].
    destruct (step_spec _ _ _ _ Hnd Hstep) as (rs & Hact & _ & -> & -> & _).
    destruct (robots_act_domains _ _ _ Hact) as [Hd Hi].
    exists placed. by rewrite Hd, Hi.
Qed.

(** X6: the roster of robots of an episode is the placement but for the
    positions: in every reachable state the identifiers and the domains of
    the robots are, in order, those [_place_robots] builds from the
    parameters; no tick changes them. *)
Theorem robots_keep_placement (w : Warehouse NpState) :
  reachable w ->
  exists out,
    _place_robots (parameters w) 0 = Ok out /\
    _id <$> robots w = _id <$> out.1 /\
    _robot_domain <$> robots w = _robot_domain <$> out.1.
Proof. exact (roster_of_reachable w). Qed.

(** X7: in a reachable state whose bitmap [_get_state] builds, [observe]
    raises for no robot of the roster and in neither mode: every robot's
    domain lies on the grid and holds the robot. *)
Theorem observe_succeeds_on_reachable (w : Warehouse NpState) (r : Robot) (state : Bitmap) :
  reachable w -> r ∈ robots w ->
  _get_state (parameters w) (items w) (robots w) = Ok state ->
  domain_in_grid (n_rows (parameters w)) (n_columns (parameters w)) (_robot_domain r) /\
  in_domain (_robot_domain r) (_pos r) /\
  (exists a, observe r state true = Ok (Image a)) /\
  (exists v, observe r state false = Ok (Vector v)).
Proof.
  intros Hw Hr Hstate.
  destruct (get_state_spec _ _ _ _ Hstate) as (Hnr & Hnc & Hrect & _).
  destruct (reachable_inv w Hw) as [_ Hok]. specialize (Hok Hnr Hnc).
  rewrite Forall_forall in Hok. specialize (Hok r Hr).
  destruct (roster_of_reachable w Hw) as (placed & Hplaced & _ & Hdoms).
  pose proof (place_robots_in_grid _ _ _ Hnr Hnc Hplaced) as Hgrid.
  assert (domain_in_grid (n_rows (parameters w)) (n_columns (parameters w))
            (_robot_domain r)) as Hdom.
  { assert (_robot_domain r ∈ _robot_domain <$> placed.1) as Hin.
    { rewrite <- Hdoms. by apply list_elem_of_fmap_2. }
    apply list_elem_of_fmap in Hin as (r0 & -> & Hr0).
    rewrite Forall_forall in Hgrid. by apply Hgrid. }
  split; [done|]. split; [done|].
  pose proof Hdom as Hdom'.
  rewrite <- (Z2Nat.id (n_rows (parameters w))),
          <- (Z2Nat.id (n_columns (parameters w))) in Hdom' by done.
  split.
  - destruct (observe_image_spec _ _ state r Hrect Hdom' Hok) as (a & Ha & _). eauto.
  - destruct (observe_vector_spec _ _ state r Hrect Hdom' Hok) as (loc & _ & _ & Hv). eauto.
Qed.

End RosterFacts.

Lemma robots_keep_placement_witness :
  reachable shared_column_start /\
  exists out,
    _place_robots (parameters shared_column_start) 0 = Ok out /\
    _id <$> robots shared_column_start = _id <$> out.1 /\
    _robot_domain <$> robots shared_column_start = _robot_domain <$> out.1.
Proof.
  split; [exact shared_column_start_reachable|].
  exact (robots_keep_placement _ shared_column_start_reachable).
Defined.

Lemma observe_succeeds_on_reachable_witness :
  let w := ring_start in
  let r := new_Robot 0 (2, 2) (mkDomain 0 0 3 3) in
  reachable w /\ r ∈ robots w /\
  _get_state (parameters w) (items w) (robots w) = Ok (bitmap_of w) /\
  (exists a, observe r (bitmap_of w) true = Ok (Image a)) /\
  (exists v, observe r (bitmap_of w) false = Ok (Vector v)).
Proof.
  assert (new_Robot 0 (2, 2) (mkDomain 0 0 3 3) ∈ robots ring_start) as Hr
    by (vm_compute; apply list_elem_of_here).
  assert (_get_state (parameters ring_start) (items ring_start) (robots ring_start)
          = Ok (bitmap_of ring_start)) as Hstate by (vm_compute; reflexivity).
  cbv zeta. split; [exact ring_start_reachable|]. split; [exact Hr|].
  split; [exact Hstate|].
  exact (proj2 (proj2 (observe_succeeds_on_reachable _ _ _ ring_start_reachable
                         Hr Hstate))).
Defined.

(** ** More on spawning *)

Section SpawnFacts.

Context {NpState : Type} {np : NumpyRandom NpState}.

Lemma spawn_body_cases prob loc (s : Spawn NpState) :
  sp_random (spawn_body prob loc s) = advance (sp_random s) /\
  ((sp_items (spawn_body prob loc s) = sp_items s /\
    sp_item_id (spawn_body prob loc s) = sp_item_id s) \/
   (sp_items (spawn_body prob loc s) = sp_items s ++ [new_Item (sp_item_id s) loc] /\
    sp_item_id (spawn_body prob loc s) = sp_item_id s + 1)).
Proof.
  unfold spawn_body, advance.
  destruct (np_random_uniform (sp_random s)) as [u g]. simpl.
  destruct (Qltb u prob && _); simpl; split; try done; [by right | by left].
Qed.

(** A property of the roster and of the identifier counter that every spawn
    keeps is kept by [_add_items]. *)
Lemma add_items_preserves (I : list Item -> Z -> Prop) (w w' : Warehouse NpState) :
  (forall row columns column its id,
     row ∈ py_range (n_rows (parameters w)) ->
     spawn_columns (parameters w) row = Ok columns -> column ∈ columns ->
     I its id -> I (its ++ [new_Item id (row, column)]) (id + 1)) ->
  I (items w) (item_id w) ->
  _add_items w = Ok w' -> I (items w') (item_id w').
Proof.
  intros Hspawn Hstart H. unfold _add_items in H. inv_bind H. injection H as <-. simpl.
  revert E. unfold add_items_loop.
  apply (for_each_invariant (fun s : Spawn NpState => I (sp_items s) (sp_item_id s)));
    [|done].
  intros row s s' Hrow Hs Hbody. unfold spawn_row in Hbody. inv_bind Hbody.
  injection Hbody as <-.
  apply (foldl_invariant (fun s : Spawn NpState => I (sp_items s) (sp_item_id s)));
    [|done].
  intros column t Hcol Ht.
  destruct (spawn_body_cases (prob_item_appears (parameters w)) (row, column) t)
    as [_ [[-> ->]|[-> ->]]]; [done|]. by eapply Hspawn.
Qed.

Lemma add_items_parameters (w w' : Warehouse NpState) :
  _add_items w = Ok w' -> parameters w' = parameters w /\ robots w' = robots w.
Proof. intros H. unfold _add_items in H. inv_bind H. by injection H as <-. Qed.

(** The same through a whole episode, for a property that removal keeps. *)
Lemma reachable_items_preserve (I : Parameters -> list Item -> Z -> Prop)
    (w : Warehouse NpState) :
  (forall p, I p [] 0) ->
  (forall p its its' id, its' `sublist_of` its -> I p its id -> I p its' id) ->
  (forall p row columns column its id,
     row ∈ py_range (n_rows p) ->
     spawn_columns p row = Ok columns -> column ∈ columns ->
     I p its id -> I p (its ++ [new_Item id (row, column)]) (id + 1)) ->
  reachable w -> I (parameters w) (items w) (item_id w).
Proof.
  intros Hempty Hsub Hspawn.
  induction 1 as [w0 out w Hreset | w s Hw IH | w actions out w' Hw IH Hstep].
  - unfold reset in Hreset. do 2 inv_bind Hreset. injection Hreset as <- <-. simpl.
    destruct (add_items_parameters _ _ E0) as [Hp _]. rewrite Hp. simpl.
    pose proof (fun H1 H2 => add_items_preserves (I (parameters w0)) _ _ H1 H2 E0)
      as Hkeep.
    simpl in Hkeep. apply Hkeep; [apply Hspawn | apply Hempty].
  - by destruct s.
  - unfold step in Hstep. do 2 inv_bind Hstep. injection Hstep as <- <-. simpl.
    destruct (add_items_parameters _ _ E0) as [Hp _]. rewrite Hp. simpl.
    pose proof (fun H1 H2 => add_items_preserves (I (parameters w)) _ _ H1 H2 E0)
      as Hkeep.
    simpl in Hkeep. apply Hkeep; [apply Hspawn|].
    eapply Hsub; [apply remove_items_sublist | exact IH].
Qed.

(** X8: item identifiers are never reused: in every reachable state the
    identifiers of the roster are pairwise distinct, and each lies between 0
    and the counter [item_id] from which the next item is numbered. *)
Theorem item_ids_are_unique (w : Warehouse NpState) :
  reachable w ->
  NoDup (item_id_of <$> items w) /\
  0 <= item_id w /\
  Forall (fun it => 0 <= item_id_of it < item_id w) (items w).
Proof.
  intros Hw.
  apply (reachable_items_preserve
           (fun _ its id => NoDup (item_id_of <$> its) /\ 0 <= id /\
                            Forall (fun it => 0 <= item_id_of it < id) its) w);
    [| | |done].
  - intros _. split; [apply NoDup_nil_2|]. split; [lia | constructor].
  - intros _ its its' id Hsub (Hnd & Hid & Hall). split; [|split; [done|]].
    + eapply sublist_NoDup; [exact Hnd | by apply fmap_sublist].
    + rewrite Forall_forall in *. intros it Hit. apply Hall.
      by eapply elem_of_sublist.
  - intros _ row columns column its id _ _ _ (Hnd & Hid & Hall).
    split; [|split; [lia|]].
    + rewrite fmap_app. apply NoDup_app. split; [done|]. split; [|apply NoDup_singleton].
      intros x Hx Hx'. simpl in Hx'. apply list_elem_of_singleton in Hx'. subst x.
      apply list_elem_of_fmap in Hx as (it & Heq & Hit).
      rewrite Forall_forall in Hall. specialize (Hall it Hit). lia.
    + apply Forall_app. split.
      * eapply Forall_impl; [exact Hall|]. intros it. simpl. lia.
      * apply Forall_singleton. simpl. lia.
Qed.

Lemma spawn_columns_candidate p row columns column :
  row ∈ py_range (n_rows p) -> spawn_columns p row = Ok columns ->
  column ∈ columns -> candidate_cell p (row, column).
Proof.
  intros Hrow Hcols Hcol. apply elem_of_seqZ in Hrow.
  unfold spawn_columns, py_mod in Hcols.
  destruct (decide (distance_between_shelves p = 0)) as [|Hd]; [discriminate|].
  simpl in Hcols. unfold candidate_cell. simpl. split; [done|]. split; [lia|].
  destruct (decide (row `mod` distance_between_shelves p = 0)) as [Hm|Hm].
  - injection Hcols as <-. apply elem_of_seqZ in Hcol. left. split; [done | lia].
  - unfold py_range3 in Hcols. rewrite decide_False in Hcols by done.
    injection Hcols as <-. right.
    apply range_elems_elem in Hcol; [|lia|done]. tauto.
Qed.

(** X9: where items can be.  In every reachable state each item lies on a
    row of the grid; on a row that is a multiple of the shelf distance its
    column is a column of the grid, and on any other row its column is a
    multiple of the shelf distance below the number of rows. *)
Theorem items_lie_on_candidate_cells (w : Warehouse NpState) :
  reachable w ->
  Forall (fun it => candidate_cell (parameters w) (get_position it)) (items w).
Proof.
  intros Hw.
  apply (reachable_items_preserve
           (fun p its _ => Forall (fun it => candidate_cell p (get_position it)) its) w);
    [| | |done].
  - intros p. constructor.
  - intros p its its' _ Hsub Hall. rewrite Forall_forall in *. intros it Hit.
    apply Hall. by eapply elem_of_sublist.
  - intros p row columns column its id Hrow Hcols Hcol Hall.
    apply Forall_app. split; [done|]. apply Forall_singleton. simpl.
    by eapply spawn_columns_candidate.
Qed.

End SpawnFacts.

Lemma item_ids_are_unique_witness :
  reachable ring_start /\ NoDup (item_id_of <$> items ring_start).
Proof.
  split; [exact ring_start_reachable|].
  exact (proj1 (item_ids_are_unique _ ring_start_reachable)).
Defined.

Lemma items_lie_on_candidate_cells_witness :
  reachable aisle_start /\
  Forall (fun it => candidate_cell (parameters aisle_start) (get_position it))
         (items aisle_start).
Proof.
  split; [exact aisle_start_reachable|].
  exact (items_lie_on_candidate_cells _ aisle_start_reachable).
Defined.

Section DrawFacts.

Context {NpState : Type} {np : NumpyRandom NpState}.

Lemma spawn_columns_draws prob row columns (s : Spawn NpState) :
  sp_random (foldl (fun s column => spawn_body prob (row, column) s) s columns)
  = Nat.iter (length columns) advance (sp_random s).
Proof.
  revert s. induction columns as [|column columns IH]; intros s; [done|].
  cbn [foldl length]. rewrite IH, Nat.iter_succ_r.
  by destruct (spawn_body_cases prob (row, column) s) as [-> _].
Qed.

Lemma spawn_rows_draws p rows :
  forall s s' : Spawn NpState,
    for_each (spawn_row p) rows s = Ok s' ->
    sp_random s' = Nat.iter (cells_visited p rows) advance (sp_random s).
Proof.
  induction rows as [|row rows IH]; intros s s' H.
  - simpl in H. by injection H as <-.
  - cbn [for_each] in H. inv_bind H. unfold spawn_row in E. inv_bind E.
    injection E as <-. rewrite (IH _ _ H), spawn_columns_draws.
    cbn [cells_visited]. rewrite E0, Nat.add_comm, Nat.iter_add. done.
Qed.

(** X10: how far [_add_items] advances the generator.  It draws once at
    every cell it visits, before it looks whether the cell is free: when it
    succeeds, the generator has advanced by the number of cells visited,
    which the grid dimensions and the shelf distance fix; the roster and the
    spawn probability play no part in it. *)
Theorem add_items_draws_once_per_cell (w w' : Warehouse NpState) :
  _add_items w = Ok w' ->
  np_random w'
  = Nat.iter (cells_visited (parameters w) (py_range (n_rows (parameters w))))
             advance (np_random w).
Proof.
  intros H. unfold _add_items in H. inv_bind H. injection H as <-. simpl.
  by rewrite (spawn_rows_draws _ _ _ _ E).
Qed.

Lemma add_items_zero_distance (w : Warehouse NpState) :
  0 < n_rows (parameters w) -> distance_between_shelves (parameters w) = 0 ->
  _add_items w = Err ZeroDivisionError.
Proof.
  intros Hn Hd. unfold _add_items, add_items_loop, py_range.
  rewrite seqZ_cons by done. cbn [for_each].
  assert (forall s : Spawn NpState,
            spawn_row (parameters w) 0 s = Err ZeroDivisionError) as ->; [|done].
  intros s. unfold spawn_row, spawn_columns, py_mod.
  destruct (decide (distance_between_shelves (parameters w) = 0)); [reflexivity|done].
Qed.

(** X11: a shelf distance of zero.  On a grid with at least one row the test
    [row % distance_between_shelves] of [_add_items] divides by zero at the
    first row: [_add_items] raises [ZeroDivisionError], and neither [reset]
    nor [step] ever completes, whatever the actions. *)
Theorem zero_shelf_distance_raises (w : Warehouse NpState) :
  0 < n_rows (parameters w) -> distance_between_shelves (parameters w) = 0 ->
  _add_items w = Err ZeroDivisionError /\
  (forall out, reset w <> Ok out) /\
  (forall actions out, step w actions <> Ok out).
Proof.
  intros Hn Hd. split; [by apply add_items_zero_distance|]. split.
  - intros out H. unfold reset in H. do 2 inv_bind H.
    rewrite add_items_zero_distance in E0 by done. discriminate.
  - intros actions out H. unfold step in H. do 2 inv_bind H.
    rewrite add_items_zero_distance in E0 by done. discriminate.
Qed.

End DrawFacts.

Lemma add_items_draws_once_per_cell_witness :
  let w := match _add_items aisle_start with Ok w => w | Err _ => aisle_start end in
  _add_items aisle_start = Ok w /\
  np_random w = Nat.iter 12 advance (np_random aisle_start).
Proof.
  assert (_add_items aisle_start
          = Ok (match _add_items aisle_start with
                | Ok w => w | Err _ => aisle_start end)) as Hrun
    by (vm_compute; reflexivity).
  cbv zeta. split; [exact Hrun|].
  exact (add_items_draws_once_per_cell _ _ Hrun).
Defined.

Lemma zero_shelf_distance_raises_witness :
  let w := new_Warehouse zero_distance_parameters in
  0 < n_rows (parameters w) /\ distance_between_shelves (parameters w) = 0 /\
  _add_items w = Err ZeroDivisionError /\
  (forall out, reset w <> Ok out) /\
  (forall actions out, step w actions <> Ok out).
Proof.
  assert (0 < n_rows (parameters (new_Warehouse zero_distance_parameters))) as Hn
    by (simpl; lia).
  assert (distance_between_shelves
            (parameters (new_Warehouse zero_distance_parameters)) = 0) as Hd
    by reflexivity.
  cbv zeta. split; [exact Hn|]. split; [exact Hd|].
  exact (zero_shelf_distance_raises _ Hn Hd).
Defined.

(** ** More on the state bitmap *)

Lemma update_cell_outcome {A} (f : A -> A) r c n m (a : list (list A)) :
  rect n m a ->
  match update_cell f r c a with
  | Ok a' => on_axes (Z.of_nat n) (Z.of_nat m) (r, c)
  | Err e => e = IndexError /\ ~ on_axes (Z.of_nat n) (Z.of_nat m) (r, c)
  end.
Proof.
  intros [Hn Hm]. unfold update_cell, on_axes. simpl.
  destruct (norm_index r (length a)) as [i|e] eqn:Hi; simpl.
  - assert ((i < n)%nat /\ - Z.of_nat n <= r < Z.of_nat n) as [Hlt Hr].
    { unfold norm_index in Hi. repeat case_decide; simplify_eq; lia. }
    destruct (lookup_lt_is_Some_2 a i ltac:(lia)) as [row Hrow]. rewrite Hrow.
    rewrite Forall_lookup in Hm. rewrite (Hm _ _ Hrow).
    unfold norm_index. repeat case_decide; simpl; try lia. split; [done|lia].
  - unfold norm_index in Hi. repeat case_decide; simplify_eq. split; [done|lia].
Qed.

Lemma mark_all_outcome {X} (mark : X -> Bitmap -> res Bitmap) (pos : X -> Pos)
    (f : Z * Z -> Z * Z) n m xs :
  (forall x b, mark x b = update_cell f (pos x).1 (pos x).2 b) ->
  forall b : list (list (Z * Z)), rect n m b ->
    match for_each mark xs b with
    | Ok b' => rect n m b' /\ Forall (on_axes (Z.of_nat n) (Z.of_nat m)) (pos <$> xs)
    | Err e => e = IndexError /\
               ~ Forall (on_axes (Z.of_nat n) (Z.of_nat m)) (pos <$> xs)
    end.
Proof.
  intros Hmark. induction xs as [|x xs IH]; intros b Hrect; simpl.
  - split; [done|constructor].
  - rewrite Hmark.
    pose proof (update_cell_outcome f (pos x).1 (pos x).2 n m b Hrect) as Hout.
    destruct (update_cell f (pos x).1 (pos x).2 b) as [b1|e] eqn:Hup; simpl.
    + destruct (update_cell_Ok _ _ _ _ _ _ _ Hrect Hup)
        as (_ & _ & _ & _ & _ & _ & Hrect1 & _).
      specialize (IH b1 Hrect1).
      destruct (for_each mark xs b1) as [b'|e].
      * destruct IH as [? ?]. split; [done|]. constructor; [|done].
        by destruct (pos x).
      * destruct IH as [-> Hnot]. split; [done|]. intros Hall.
        apply Hnot. by inversion Hall.
    + destruct Hout as [-> Hnot]. split; [done|]. intros Hall.
      apply Hnot. inversion Hall; subst. by destruct (pos x).
Qed.

Lemma zeros_rect (rows columns : Z) :
  rect (Z.to_nat rows) (Z.to_nat columns)
       (replicate (Z.to_nat rows) (replicate (Z.to_nat columns) (0, 0))).
Proof.
  split; [by rewrite length_replicate|].
  apply Forall_replicate. by rewrite length_replicate.
Qed.

(** X12: when [_get_state] succeeds and how it fails.  It returns a bitmap
    exactly when neither grid dimension is negative and every item and every
    robot has a position numpy accepts as an index of the grid (each
    coordinate from minus the axis length up to the axis length, excluded).
    Otherwise it raises: [ValueError] from [np.zeros] on a negative
    dimension, [IndexError] from the first position off the axes. *)
Theorem get_state_outcome (p : Parameters) (its : list Item) (rs : list Robot) :
  match _get_state p its rs with
  | Ok state =>
      0 <= n_rows p /\ 0 <= n_columns p /\
      Forall (on_axes (n_rows p) (n_columns p)) (get_position <$> its) /\
      Forall (on_axes (n_rows p) (n_columns p)) (_pos <$> rs)
  | Err e =>
      if decide (n_rows p < 0 \/ n_columns p < 0) then e = ValueError
      else e = IndexError /\
           ~ (Forall (on_axes (n_rows p) (n_columns p)) (get_position <$> its) /\
              Forall (on_axes (n_rows p) (n_columns p)) (_pos <$> rs))
  end.
Proof.
  unfold _get_state, np_zeros.
  destruct (decide (n_rows p < 0 \/ n_columns p < 0)) as [Hneg|Hdim]; simpl; [done|].
  pose proof (zeros_rect (n_rows p) (n_columns p)) as Hrect.
  pose proof (mark_all_outcome mark_item get_position (fun cell => (1, cell.2))
                _ _ its (fun _ _ => eq_refl) _ Hrect) as Hits.
  rewrite !Z2Nat.id in Hits by lia.
  destruct (for_each mark_item its _) as [b1|e]; simpl.
  - destruct Hits as [Hrect1 Hits].
    pose proof (mark_all_outcome mark_robot _pos (fun cell => (cell.1, 1))
                  _ _ rs (fun _ _ => eq_refl) _ Hrect1) as Hrs.
    rewrite !Z2Nat.id in Hrs by lia.
    destruct (for_each mark_robot rs b1) as [b2|e].
    + destruct Hrs as [_ Hrs]. repeat split; try done; lia.
    + destruct Hrs as [-> Hrs]. split; [done|]. by intros [_ ?].
  - destruct Hits as [-> Hits]. split; [done|]. by intros [? _].
Qed.

Lemma mark_all_cells {X} (mark : X -> Bitmap -> res Bitmap) (pos : X -> Pos)
    (f : Z * Z -> Z * Z) n m xs :
  (forall x b, mark x b = update_cell f (pos x).1 (pos x).2 b) ->
  (forall cell, f (f cell) = f cell) ->
  Forall on_quadrant (pos <$> xs) ->
  forall b b' : list (list (Z * Z)), rect n m b ->
    for_each mark xs b = Ok b' ->
    rect n m b' /\
    forall i j, (i < n)%nat -> (j < m)%nat ->
      cell_at b' i j
      = (if decide ((Z.of_nat i, Z.of_nat j) ∈ pos <$> xs) then f else id)
          <$> cell_at b i j.
Proof.
  intros Hmark Hidem. induction xs as [|x xs IH]; intros Hq b b' Hrect Hrun;
    simpl in Hrun.
  - injection Hrun as <-. split; [done|]. intros i j _ _.
    rewrite decide_False by apply not_elem_of_nil.
    by destruct (cell_at b i j).
  - inv_bind Hrun. rewrite Hmark in E.
    rewrite fmap_cons in Hq. inversion Hq as [|? ? [Hq1 Hq2] Hq']; subst.
    destruct (update_cell_Ok _ _ _ _ _ _ _ Hrect E)
      as (i0 & j0 & Hi0 & Hj0 & Hr0 & Hc0 & Hrect1 & Hcells).
    specialize (Hr0 Hq1). specialize (Hc0 Hq2).
    destruct (IH Hq' x0 b' Hrect1 Hrun) as [Hrect' Hcells'].
    split; [done|]. intros i j Hi Hj. rewrite Hcells' by done. rewrite Hcells.
    assert ((i = i0 /\ j = j0) <-> (Z.of_nat i, Z.of_nat j) = pos x) as Hsame.
    { destruct (pos x) as [r c]. simpl in *. split.
      - intros [-> ->]. f_equal; lia.
      - intros [= <- <-]. lia. }
    rewrite fmap_cons.
    destruct (cell_at b i j) as [cell|]; simpl.
    2:{ by repeat case_decide. }
    destruct (decide (i = i0 /\ j = j0)) as [Heq|Hne]; simpl.
    + rewrite (decide_True (P := _ ∈ pos x :: _)) by (apply Hsame in Heq; rewrite Heq; left).
      case_decide; simpl; by rewrite ?Hidem.
    + destruct (decide ((Z.of_nat i, Z.of_nat j) ∈ pos <$> xs)) as [Hin|Hout]; simpl.
      * rewrite decide_True by (by right). done.
      * rewrite decide_False; [done|]. rewrite not_elem_of_cons. split; [|done].
        intros Heq. by apply Hne, Hsame.
Qed.

(** X13: what the state bitmap holds.  When no item and no robot has a
    negative coordinate and [_get_state] succeeds, the bitmap has the shape of
    the grid, and each cell holds in its item channel 1 if an item lies on it
    and 0 otherwise, and in its robot channel 1 if a robot stands on it and 0
    otherwise: waiting times, identifiers and multiplicities do not show. *)
Theorem state_bitmap_cells (p : Parameters) (its : list Item) (rs : list Robot)
    (state : Bitmap) :
  _get_state p its rs = Ok state ->
  Forall on_quadrant (get_position <$> its) ->
  Forall on_quadrant (_pos <$> rs) ->
  rect (Z.to_nat (n_rows p)) (Z.to_nat (n_columns p)) state /\
  forall i j, 0 <= i < n_rows p -> 0 <= j < n_columns p ->
    cell_at state (Z.to_nat i) (Z.to_nat j) = Some (state_cell its rs i j).
Proof.
  intros H Hits Hrs. unfold _get_state in H. do 2 inv_bind H.
  unfold np_zeros in E. destruct (decide _) as [|Hdim]; [discriminate|].
  injection E as <-.
  pose proof (zeros_rect (n_rows p) (n_columns p)) as Hrect.
  destruct (mark_all_cells mark_item get_position (fun cell => (1, cell.2))
              _ _ its (fun _ _ => eq_refl) (fun _ => eq_refl) Hits _ _ Hrect E0)
    as [Hrect1 Hcells1].
  destruct (mark_all_cells mark_robot _pos (fun cell => (cell.1, 1))
              _ _ rs (fun _ _ => eq_refl) (fun _ => eq_refl) Hrs _ _ Hrect1 H)
    as [Hrect2 Hcells2].
  split; [done|]. intros i j Hi Hj.
  rewrite Hcells2, Hcells1 by lia. rewrite !Z2Nat.id by lia.
  unfold cell_at. rewrite lookup_replicate_2 by lia. simpl.
  rewrite lookup_replicate_2 by lia. simpl. unfold state_cell.
  by repeat case_decide.
Qed.

Lemma state_bitmap_cells_witness :
  let w := shared_column_start in
  _get_state (parameters w) (items w) (robots w) = Ok (bitmap_of w) /\
  Forall on_quadrant (get_position <$> items w) /\
  Forall on_quadrant (_pos <$> robots w) /\
  cell_at (bitmap_of w) 1 1 = Some (state_cell (items w) (robots w) 1 1).
Proof.
  assert (_get_state (parameters shared_column_start) (items shared_column_start)
            (robots shared_column_start) = Ok (bitmap_of shared_column_start))
    as Hstate by (vm_compute; reflexivity).
  assert (Forall on_quadrant (get_position <$> items shared_column_start)) as Hits
    by (vm_compute; repeat constructor; discriminate).
  assert (Forall on_quadrant (_pos <$> robots shared_column_start)) as Hrs
    by (vm_compute; repeat constructor; discriminate).
  cbv zeta. split; [exact Hstate|]. split; [exact Hits|]. split; [exact Hrs|].
  exact (proj2 (state_bitmap_cells _ _ _ _ Hstate Hits Hrs) 1 1
           ltac:(simpl; lia) ltac:(simpl; lia)).
Defined.

Section StateFacts.

Context {NpState : Type} {np : NumpyRandom NpState}.

Lemma reachable_robot_placed (w : Warehouse NpState) (r : Robot) :
  reachable w -> 0 <= n_rows (parameters w) -> 0 <= n_columns (parameters w) ->
  r ∈ robots w ->
  domain_in_grid (n_rows (parameters w)) (n_columns (parameters w)) (_robot_domain r) /\
  in_domain (_robot_domain r) (_pos r).
Proof.
  intros Hw Hnr Hnc Hr.
  destruct (reachable_inv w Hw) as [_ Hok]. specialize (Hok Hnr Hnc).
  rewrite Forall_forall in Hok. specialize (Hok r Hr). split; [|done].
  destruct (roster_of_reachable w Hw) as (placed & Hplaced & _ & Hdoms).
  pose proof (place_robots_in_grid _ _ _ Hnr Hnc Hplaced) as Hgrid.
  assert (_robot_domain r ∈ _robot_domain <$> placed.1) as Hin.
  { rewrite <- Hdoms. by apply list_elem_of_fmap_2. }
  apply list_elem_of_fmap in Hin as (r0 & -> & Hr0).
  rewrite Forall_forall in Hgrid. by apply Hgrid.
Qed.

Lemma reachable_items_in_rows (w : Warehouse NpState) :
  reachable w ->
  Forall (fun it => 0 <= (get_position it).1 < n_rows (parameters w) /\
                    0 <= (get_position it).2
                    < Z.max (n_rows (parameters w)) (n_columns (parameters w)))
         (items w).
Proof.
  intros Hw.
  apply (reachable_items_preserve
           (fun p its _ =>
              Forall (fun it => 0 <= (get_position it).1 < n_rows p /\
                                0 <= (get_position it).2
                                < Z.max (n_rows p) (n_columns p)) its) w);
    [| | |done].
  - intros p. constructor.
  - intros p its its' _ Hsub Hall. rewrite Forall_forall in *. intros it Hit.
    apply Hall. by eapply elem_of_sublist.
  - intros p row columns column its id Hrow Hcols Hcol Hall.
    apply Forall_app. split; [done|]. apply Forall_singleton. simpl.
    destruct (spawn_columns_candidate _ _ _ _ Hrow Hcols Hcol) as (_ & Hr & Hc).
    simpl in *. lia.
Qed.

Lemma state_of_reachable (w : Warehouse NpState) :
  reachable w ->
  0 <= n_rows (parameters w) <= n_columns (parameters w) ->
  (exists state, _get_state (parameters w) (items w) (robots w) = Ok state) /\
  Forall on_quadrant (get_position <$> items w) /\
  Forall on_quadrant (_pos <$> robots w).
Proof.
  intros Hw Hdim.
  assert (Forall (fun pos => on_quadrant pos /\
                    on_axes (n_rows (parameters w)) (n_columns (parameters w)) pos)
                 (get_position <$> items w)) as Hits.
  { apply Forall_fmap. eapply Forall_impl; [exact (reachable_items_in_rows w Hw)|].
    intros it [Hr Hc]. unfold on_quadrant, on_axes. simpl. lia. }
  assert (Forall (fun pos => on_quadrant pos /\
                    on_axes (n_rows (parameters w)) (n_columns (parameters w)) pos)
                 (_pos <$> robots w)) as Hrs.
  { apply Forall_fmap, Forall_forall. intros r Hr.
    destruct (reachable_robot_placed w r Hw ltac:(lia) ltac:(lia) Hr)
      as [(H0 & H2 & H1 & H3) [Hi Hj]].
    unfold on_quadrant, on_axes. simpl. lia. }
  apply Forall_and in Hits as [Hitq Hita]. apply Forall_and in Hrs as [Hrq Hra].
  split; [|done].
  unfold _get_state, np_zeros. rewrite decide_False by lia. simpl.
  pose proof (zeros_rect (n_rows (parameters w)) (n_columns (parameters w))) as Hrect.
  pose proof (mark_all_outcome mark_item get_position (fun cell => (1, cell.2))
                _ _ (items w) (fun _ _ => eq_refl) _ Hrect) as Hout.
  rewrite !Z2Nat.id in Hout by lia.
  destruct (for_each mark_item (items w) _) as [b1|e]; simpl;
    [|by destruct Hout as [_ Hnot]].
  destruct Hout as [Hrect1 _].
  pose proof (mark_all_outcome mark_robot _pos (fun cell => (cell.1, 1))
                _ _ (robots w) (fun _ _ => eq_refl) _ Hrect1) as Hout.
  rewrite !Z2Nat.id in Hout by lia.
  destruct (for_each mark_robot (robots w) b1) as [b2|e]; [eauto|].
  by destruct Hout as [_ Hnot].
Qed.

(** X14: on a grid with at least as many columns as rows the state bitmap
    can always be built: in every reachable state [_get_state] succeeds, and
    no item and no robot has a negative coordinate, so no mark wraps around
    to the far side of the grid. *)
Theorem get_state_succeeds_on_reachable (w : Warehouse NpState) :
  reachable w ->
  0 <= n_rows (parameters w) <= n_columns (parameters w) ->
  (exists state, _get_state (parameters w) (items w) (robots w) = Ok state) /\
  Forall on_quadrant (get_position <$> items w) /\
  Forall on_quadrant (_pos <$> robots w).
Proof. exact (state_of_reachable w). Qed.

End StateFacts.

Lemma get_state_succeeds_on_reachable_witness :
  reachable aisle_start /\
  0 <= n_rows (parameters aisle_start) <= n_columns (parameters aisle_start) /\
  exists state,
    _get_state (parameters aisle_start) (items aisle_start) (robots aisle_start)
    = Ok state.
Proof.
  assert (0 <= n_rows (parameters aisle_start) <= n_columns (parameters aisle_start))
    as Hdim by (vm_compute; split; discriminate).
  split; [exact aisle_start_reachable|]. split; [exact Hdim|].
  exact (proj1 (get_state_succeeds_on_reachable _ aisle_start_reachable Hdim)).
Defined.

(** ** More on the observations *)

Lemma rect_zip_with {A B C} (f : A -> B -> C) n m a b :
  rect n m a -> rect n m b -> rect n m (zip_with (zip_with f) a b).
Proof.
  intros [Han Ham] [Hbn Hbm]. split.
  - rewrite length_zip_with. lia.
  - apply Forall_lookup. intros i row Hrow.
    apply lookup_zip_with_Some in Hrow as (ra & rb & -> & Hra & Hrb).
    rewrite Forall_lookup in Ham. rewrite Forall_lookup in Hbm.
    rewrite length_zip_with, (Ham _ _ Hra), (Hbm _ _ Hrb). lia.
Qed.

Lemma length_concat_pairs {A B} (g h : A -> B) (l : list A) :
  length (concat ((fun x => [g x; h x]) <$> l)) = (2 * length l)%nat.
Proof.
  induction l as [|x l IH]; [done|].
  rewrite fmap_cons. cbn [concat]. rewrite length_app, IH. simpl. lia.
Qed.

Lemma length_ring_rowwise state d :
  length (ring_rowwise state d)
  = (2 * Z.to_nat (dom3 d - dom1 d + 1) + 2 * Z.to_nat (dom2 d - dom0 d - 1))%nat.
Proof.
  unfold ring_rowwise. rewrite !length_app, !length_fmap, length_domain_columns.
  rewrite length_concat_pairs. unfold interior_rows. rewrite length_seqZ. lia.
Qed.

(** X15: the layout of a ['vector'] observation.  For a robot whose domain
    of [H] rows and [W] columns lies on the grid and holds it, the vector has
    [H*W + 2*W + 2*(H-2)] entries ([2*W] after the block when [H < 2]); its
    first [H*W] entries are the domain row by row, with a 1 at the robot's
    own cell and 0 everywhere else. *)
Theorem vector_observation_layout (n m : nat) (state : Bitmap) (r : Robot) :
  let d := _robot_domain r in
  let H := Z.to_nat (dom2 d - dom0 d + 1) in
  let W := Z.to_nat (dom3 d - dom1 d + 1) in
  rect n m state ->
  domain_in_grid (Z.of_nat n) (Z.of_nat m) d ->
  in_domain d (_pos r) ->
  exists v,
    observe r state false = Ok (Vector v) /\
    length v = (H * W + 2 * W + 2 * Z.to_nat (dom2 d - dom0 d - 1))%nat /\
    forall i j, (i < H)%nat -> (j < W)%nat ->
      v !! (i * W + j)%nat
      = Some (if decide (i = Z.to_nat ((_pos r).1 - dom0 d) /\
                         j = Z.to_nat ((_pos r).2 - dom1 d))
              then 1 else 0).
Proof.
  intros d H W Hrect Hgrid Hin.
  destruct (observe_vector_spec n m state r Hrect Hgrid Hin) as (loc & Hloc & Hlen & Hobs).
  destruct (domain_slice_spec n m state d Hrect Hgrid) as [Hslice _].
  destruct (robot_loc_spec r (domain_slice d state) Hslice Hin)
    as (loc' & Hloc' & Hlrect & Hlcells).
  fold d in Hloc, Hlen, Hobs, Hloc', Hlrect, Hlcells.
  rewrite Hloc in Hloc'. injection Hloc' as <-.
  eexists. split; [exact Hobs|]. split.
  - rewrite length_app, Hlen, length_ring_rowwise. unfold domain_cells. fold d H W. lia.
  - intros i j Hi Hj.
    rewrite lookup_app_l.
    2:{ rewrite Hlen. unfold domain_cells. fold d H W. nia. }
    rewrite (lookup_concat_rect _ _ _ _ _ Hlrect) by done.
    by apply Hlcells.
Qed.

Lemma vector_observation_layout_witness :
  let r := new_Robot 0 (2, 2) (mkDomain 0 0 3 3) in
  let state := bitmap_of ring_start in
  rect 4 4 state /\ domain_in_grid 4 4 (_robot_domain r) /\
  in_domain (_robot_domain r) (_pos r) /\
  exists v,
    observe r state false = Ok (Vector v) /\ length v = 28%nat /\
    v !! 10%nat = Some 1.
Proof.
  assert (rect 4 4 (bitmap_of ring_start)) as Hrect
    by (vm_compute; split; [reflexivity | repeat constructor]).
  assert (domain_in_grid (Z.of_nat 4) (Z.of_nat 4)
            (_robot_domain (new_Robot 0 (2, 2) (mkDomain 0 0 3 3)))) as Hgrid
    by (unfold domain_in_grid; simpl; lia).
  assert (in_domain (_robot_domain (new_Robot 0 (2, 2) (mkDomain 0 0 3 3)))
            (_pos (new_Robot 0 (2, 2) (mkDomain 0 0 3 3)))) as Hin
    by (unfold in_domain; simpl; lia).
  cbv zeta. split; [exact Hrect|]. split; [exact Hgrid|]. split; [exact Hin|].
  destruct (vector_observation_layout 4 4 _ _ Hrect Hgrid Hin) as (v & Hv & Hlen & Hcells).
  exists v. split; [exact Hv|]. split; [exact Hlen|].
  exact (Hcells 2%nat 2%nat ltac:(simpl; lia) ltac:(simpl; lia)).
Defined.

Lemma observe_image_shape n m (state : list (list (Z * Z))) (r : Robot) a :
  let d := _robot_domain r in
  rect n m state -> domain_in_grid (Z.of_nat n) (Z.of_nat m) d ->
  in_domain d (_pos r) ->
  observe r state true = Ok (Image a) ->
  rect (Z.to_nat (dom2 d - dom0 d + 1)) (Z.to_nat (dom3 d - dom1 d + 1)) a.
Proof.
  intros d Hrect Hgrid Hin Hobs.
  destruct (domain_slice_spec n m state d Hrect Hgrid) as [Hslice _].
  destruct (robot_loc_spec r (domain_slice d state) Hslice Hin)
    as (loc & Hloc & Hlrect & _).
  unfold observe in Hobs. fold d in Hobs, Hloc. rewrite Hloc in Hobs. simpl in Hobs.
  injection Hobs as <-. apply rect_zip_with; [|done]. by apply rect_fmap.
Qed.

(** X16: the whole ['image'] observation.  For a state built by
    [_get_state] from a roster of items without negative coordinates, and a
    robot whose domain lies on the grid and holds it, the image has the shape
    of the domain, and the cell of the global position [(i, j)] holds 1 for
    an item, minus 1 if it is the robot's own cell: 1 for an item, 0 for an
    empty cell or the robot standing on an item, -1 for the robot on an empty
    cell. *)
Theorem image_observation_cells (p : Parameters) (its : list Item)
    (rs : list Robot) (r : Robot) (state : Bitmap) :
  let d := _robot_domain r in
  _get_state p its rs = Ok state ->
  Forall on_quadrant (get_position <$> its) ->
  domain_in_grid (n_rows p) (n_columns p) d ->
  in_domain d (_pos r) ->
  exists a,
    observe r state true = Ok (Image a) /\
    rect (Z.to_nat (dom2 d - dom0 d + 1)) (Z.to_nat (dom3 d - dom1 d + 1)) a /\
    forall i j, dom0 d <= i <= dom2 d -> dom1 d <= j <= dom3 d ->
      cell_at a (Z.to_nat (i - dom0 d)) (Z.to_nat (j - dom1 d))
      = Some ((if decide ((i, j) ∈ get_position <$> its) then 1 else 0)
              - (if decide ((i, j) = _pos r) then 1 else 0)).
Proof.
  intros d Hstate Hq Hgrid Hin.
  destruct (get_state_spec _ _ _ _ Hstate) as (Hr & Hc & Hrect & Hmarks).
  rewrite <- (Z2Nat.id (n_rows p)), <- (Z2Nat.id (n_columns p)) in Hgrid by done.
  destruct (observe_image_spec _ _ state r Hrect Hgrid Hin) as (a & Hobs & Hcells).
  exists a. split; [exact Hobs|]. split.
  { exact (observe_image_shape _ _ state r a Hrect Hgrid Hin Hobs). }
  fold d in Hcells. destruct Hgrid as (H0 & H2 & H1 & H3). fold d in H0, H1, H2, H3.
  intros i j Hi Hj. rewrite Hcells by lia.
  replace (dom0 d + Z.of_nat (Z.to_nat (i - dom0 d))) with i by lia.
  replace (dom1 d + Z.of_nat (Z.to_nat (j - dom1 d))) with j by lia.
  f_equal.
  destruct (Hmarks (Z.to_nat i) (Z.to_nat j) ltac:(lia) ltac:(lia))
    as (x & y & Hcell & Hone & Hzero).
  rewrite !Z2Nat.id in Hone, Hzero by lia.
  unfold item_bit. rewrite Hcell. simpl.
  assert (x = if decide ((i, j) ∈ get_position <$> its) then 1 else 0) as ->.
  { destruct (decide _); [by apply Hone | by apply Hzero]. }
  destruct Hin as [Hpi Hpj]. fold d in Hpi, Hpj.
  assert ((Z.to_nat (i - dom0 d) = Z.to_nat ((_pos r).1 - dom0 d) /\
           Z.to_nat (j - dom1 d) = Z.to_nat ((_pos r).2 - dom1 d))
          <-> (i, j) = _pos r) as Hiff.
  { split.
    - intros [Ha Hb]. destruct (_pos r) as [pr pc]. simpl in *. f_equal; lia.
    - intros <-. simpl. lia. }
  rewrite (decide_ext _ _ 1 0 Hiff). lia.
Qed.

Lemma image_observation_cells_witness :
  let w := ring_start in
  let r := new_Robot 0 (2, 2) (mkDomain 0 0 3 3) in
  _get_state (parameters w) (items w) (robots w) = Ok (bitmap_of w) /\
  Forall on_quadrant (get_position <$> items w) /\
  domain_in_grid (n_rows (parameters w)) (n_columns (parameters w)) (_robot_domain r) /\
  in_domain (_robot_domain r) (_pos r) /\
  exists a, observe r (bitmap_of w) true = Ok (Image a) /\ rect 4 4 a.
Proof.
  assert (_get_state (parameters ring_start) (items ring_start) (robots ring_start)
          = Ok (bitmap_of ring_start)) as Hstate by (vm_compute; reflexivity).
  assert (Forall on_quadrant (get_position <$> items ring_start)) as Hq
    by (vm_compute; repeat constructor; discriminate).
  assert (domain_in_grid (n_rows (parameters ring_start))
            (n_columns (parameters ring_start))
            (_robot_domain (new_Robot 0 (2, 2) (mkDomain 0 0 3 3)))) as Hgrid
    by (vm_compute; repeat split; discriminate).
  assert (in_domain (_robot_domain (new_Robot 0 (2, 2) (mkDomain 0 0 3 3)))
            (_pos (new_Robot 0 (2, 2) (mkDomain 0 0 3 3)))) as Hin
    by (unfold in_domain; simpl; lia).
  cbv zeta. split; [exact Hstate|]. split; [exact Hq|]. split; [exact Hgrid|].
  split; [exact Hin|].
  destruct (image_observation_cells _ _ _ _ _ Hstate Hq Hgrid Hin) as (a & Ha & Hrect & _).
  exists a. split; [exact Ha | exact Hrect].
Defined.

(** *** What an observation does not depend on *)

Lemma py_slice_fmap {A B} (g : A -> B) lo hi (l : list A) :
  py_slice lo hi (g <$> l) = g <$> py_slice lo hi l.
Proof. unfold py_slice. by rewrite length_fmap, fmap_take, fmap_drop. Qed.

(** The item channel of a slice is the slice of the item channel. *)
Lemma domain_slice_channel0 d (state : list (list (Z * Z))) :
  (fun row : list (Z * Z) => fst <$> row) <$> domain_slice d state
  = (fun row : list Z => py_slice (dom1 d) (dom3 d + 1) row)
      <$> py_slice (dom0 d) (dom2 d + 1)
            ((fun row : list (Z * Z) => fst <$> row) <$> state).
Proof.
  unfold domain_slice. rewrite py_slice_fmap, <- !list_fmap_compose.
  apply list_fmap_ext. intros _ row _. simpl. by rewrite py_slice_fmap.
Qed.

Lemma observe_item_channel (r : Robot) (state state' : list (list (Z * Z))) image :
  (fun row : list (Z * Z) => fst <$> row) <$> state
  = (fun row : list (Z * Z) => fst <$> row) <$> state' ->
  observe r state image = observe r state' image.
Proof.
  intros Hsame.
  pose proof (domain_slice_channel0 (_robot_domain r) state) as Hc.
  pose proof (domain_slice_channel0 (_robot_domain r) state') as Hc'.
  rewrite Hsame, <- Hc' in Hc.
  assert (forall s : list (list (Z * Z)),
            (fun row : list (Z * Z) => (fun _ => 0) <$> row) <$> s
            = (fun row : list Z => (fun _ => 0) <$> row)
                <$> ((fun row : list (Z * Z) => fst <$> row) <$> s)) as Hz.
  { intros s. rewrite <- list_fmap_compose. apply list_fmap_ext. intros _ row _.
    simpl. by rewrite <- list_fmap_compose. }
  unfold observe, robot_loc. rewrite !Hz, Hc. done.
Qed.

Lemma update_cell_channel {A B} (g : A -> B) (f : A -> A) r c (a a' : list (list A)) :
  (forall x, g (f x) = g x) ->
  update_cell f r c a = Ok a' ->
  (fun row : list A => g <$> row) <$> a' = (fun row : list A => g <$> row) <$> a.
Proof.
  intros Hg H. unfold update_cell in H. inv_bind H.
  destruct (a !! x) as [row|] eqn:Hrow; [|discriminate]. inv_bind H.
  injection H as <-. rewrite list_fmap_insert.
  assert (g <$> alter f x0 row = g <$> row) as ->.
  { apply list_eq. intros k. rewrite !list_lookup_fmap, list_lookup_alter.
    destruct (decide _) as [<-|]; [|done].
    destruct (row !! x0); simpl; [by rewrite Hg|done]. }
  apply list_insert_id. by rewrite list_lookup_fmap, Hrow.
Qed.

Lemma mark_robots_channel0 rs :
  forall b b' : list (list (Z * Z)),
    for_each mark_robot rs b = Ok b' ->
    (fun row : list (Z * Z) => fst <$> row) <$> b'
    = (fun row : list (Z * Z) => fst <$> row) <$> b.
Proof.
  induction rs as [|r rs IH]; intros b b' H; simpl in H.
  - by injection H as <-.
  - inv_bind H. rewrite (IH _ _ H).
    unfold mark_robot in E.
    by apply (update_cell_channel fst (fun cell => (cell.1, 1)) _ _ _ _
                (fun _ => eq_refl) E).
Qed.

(** X17: an observation never shows the other robots.  Two state bitmaps
    built by [_get_state] from the same items, with whatever rosters of
    robots, give a robot the same observation in either mode, errors
    included: it reads the item channel only, and the one robot it marks is
    itself. *)
Theorem observation_ignores_robots (p : Parameters) (its : list Item)
    (rs rs' : list Robot) (state state' : Bitmap) (r : Robot) (image : bool) :
  _get_state p its rs = Ok state ->
  _get_state p its rs' = Ok state' ->
  observe r state image = observe r state' image.
Proof.
  intros H H'. apply observe_item_channel.
  unfold _get_state in H, H'. do 2 inv_bind H. do 2 inv_bind H'.
  rewrite E in E1. injection E1 as <-. rewrite E0 in E2. injection E2 as <-.
  by rewrite (mark_robots_channel0 _ _ _ H), (mark_robots_channel0 _ _ _ H').
Qed.

Lemma observation_ignores_robots_witness :
  let w := ring_start in
  let r := new_Robot 0 (2, 2) (mkDomain 0 0 3 3) in
  _get_state (parameters w) (items w) (robots w) = Ok (bitmap_of w) /\
  _get_state (parameters w) (items w) [] = Ok (state_without_robots w) /\
  observe r (bitmap_of w) false = observe r (state_without_robots w) false.
Proof.
  assert (_get_state (parameters ring_start) (items ring_start) (robots ring_start)
          = Ok (bitmap_of ring_start)) as Hstate by (vm_compute; reflexivity).
  assert (_get_state (parameters ring_start) (items ring_start) []
          = Ok (state_without_robots ring_start)) as Hstate'
    by (vm_compute; reflexivity).
  cbv zeta. split; [exact Hstate|]. split; [exact Hstate'|].
  exact (observation_ignores_robots _ _ _ _ _ _ _ false Hstate Hstate').
Defined.

(** ** More on the domain graph and the naive policies *)

Lemma has_edge_sym g u v : has_edge g u v = has_edge g v u.
Proof. unfold has_edge. apply orb_comm. Qed.

Lemma ndenumerate_in_grid H W (obs : list (list Z)) u :
  rect H W obs -> u ∈ fst <$> ndenumerate obs -> in_grid H W u.
Proof.
  intros [Hlen Hrows] Hu. apply list_elem_of_fmap in Hu as (e & -> & He).
  apply elem_of_ndenumerate in He as (i & j & -> & Hcell).
  unfold cell_at in Hcell. destruct (obs !! i) as [row|] eqn:Hrow; [|discriminate].
  simpl in Hcell. pose proof (lookup_lt_Some _ _ _ Hrow).
  pose proof (lookup_lt_Some _ _ _ Hcell) as Hj.
  rewrite Forall_lookup in Hrows. rewrite (Hrows _ _ Hrow) in Hj.
  unfold in_grid. simpl. lia.
Qed.

Lemma unit_step_sym u v : unit_step u v -> unit_step v u.
Proof. unfold unit_step, manhattan. lia. Qed.

Lemma create_graph_adj_iff (H W : nat) (obs : list (list Z)) (u v : Node) :
  rect H W obs ->
  (graph_adj (_create_graph obs) u v <->
   unit_step u v /\ (in_grid H W u \/ in_grid H W v)).
Proof.
  intros Hrect. split.
  - intros Hadj. split; [by eapply create_graph_adj_unit|].
    destruct (create_graph_inv obs) as [Hedges _]. unfold graph_adj in Hadj.
    apply has_edge_true in Hadj as [He|He]; destruct (Hedges _ _ He) as [Hc _];
      [left | right]; by eapply ndenumerate_in_grid.
  - intros [Hstep [Hu|Hv]].
    + by eapply create_graph_grid_adj.
    + unfold graph_adj. rewrite has_edge_sym.
      eapply create_graph_grid_adj; [done | done | by apply unit_step_sym].
Qed.

(** X18: the edges of the graph [_create_graph] builds for an observation
    of [H] rows and [W] columns.  Two nodes are adjacent exactly when they
    are one row or one column apart and at least one of them is a cell of the
    observation: the grid of the domain, and around it the cells just outside,
    each joined to the domain cell it touches and to nothing else. *)
Theorem create_graph_adjacency (H W : nat) (obs : list (list Z)) (u v : Node) :
  rect H W obs ->
  (graph_adj (_create_graph obs) u v <->
   unit_step u v /\ (in_grid H W u \/ in_grid H W v)).
Proof. exact (create_graph_adj_iff H W obs u v). Qed.

Lemma create_graph_adjacency_witness :
  rect 2 2 corner_obs /\
  graph_adj (_create_graph corner_obs) (0, 0) (-1, 0) /\
  ~ graph_adj (_create_graph corner_obs) (-1, 0) (-1, 1).
Proof.
  split; [exact corner_obs_rect|]. split.
  - apply (create_graph_adjacency 2 2 corner_obs (0, 0) (-1, 0) corner_obs_rect).
    split; [reflexivity|]. left. unfold in_grid. simpl. lia.
  - intros Hadj.
    apply (create_graph_adjacency 2 2 corner_obs (-1, 0) (-1, 1) corner_obs_rect)
      in Hadj as [_ [[Hr _]|[Hr _]]]; simpl in Hr; lia.
Defined.

Lemma imap_keys {A} (a : Z) (row : list A) k :
  fst <$> imap (fun j x => ((a, Z.of_nat (k + j)), x)) row
  = (fun j => (a, Z.of_nat j)) <$> seq k (length row).
Proof.
  revert k. induction row as [|x row IH]; intros k; [done|].
  rewrite imap_cons. cbn [length seq]. rewrite !fmap_cons. simpl. f_equal.
  - do 2 f_equal. lia.
  - rewrite <- IH. f_equal. apply imap_ext. intros j y _. simpl.
    do 3 f_equal. lia.
Qed.

Lemma ndenumerate_keys_from (obs : list (list Z)) k :
  fst <$> concat (imap (fun i row =>
                          imap (fun j x => ((Z.of_nat (k + i), Z.of_nat j), x)) row) obs)
  = concat ((fun '(i, n) => (fun j => (Z.of_nat i, Z.of_nat j)) <$> seq 0 n)
              <$> zip (seq k (length obs)) (length <$> obs)).
Proof.
  revert k. induction obs as [|row obs IH]; intros k; [done|].
  rewrite imap_cons. cbn [length seq fmap list_fmap zip zip_with concat].
  rewrite fmap_app. f_equal.
  - rewrite <- (imap_keys _ row 0). replace (k + 0)%nat with k by lia. done.
  - rewrite <- IH. f_equal. f_equal. apply imap_ext. intros i r _. simpl.
    apply imap_ext. intros j x _. simpl. do 3 f_equal. lia.
Qed.

Lemma ndenumerate_keys (obs : list (list Z)) :
  fst <$> ndenumerate obs
  = concat ((fun '(i, n) => (fun j => (Z.of_nat i, Z.of_nat j)) <$> seq 0 n)
              <$> zip (seq 0 (length obs)) (length <$> obs)).
Proof. exact (ndenumerate_keys_from obs 0). Qed.

Lemma rect_lengths {A} H W (a : list (list A)) :
  rect H W a -> length a = H /\ length <$> a = replicate H W.
Proof.
  intros [Hlen Hrows]. split; [done|]. subst H.
  induction Hrows as [|row a Hrow _ IH]; [done|].
  rewrite fmap_cons. cbn [length replicate]. by rewrite Hrow, IH.
Qed.

Lemma create_graph_keys (obs : list (list Z)) :
  _create_graph obs
  = foldl graph_step {| nodes := []; edges := [] |} (fst <$> ndenumerate obs).
Proof.
  unfold _create_graph. generalize {| nodes := []; edges := [] |}.
  induction (ndenumerate obs) as [|e l IH]; intros g; [done|]. simpl. apply IH.
Qed.

(** X19: the graph depends on the shape of the observation only: two
    observations with the same numbers of rows and columns give the same
    graph, whatever their cells hold. *)
Theorem create_graph_depends_on_shape (H W : nat) (obs obs' : list (list Z)) :
  rect H W obs -> rect H W obs' -> _create_graph obs = _create_graph obs'.
Proof.
  intros Hrect Hrect'. rewrite !create_graph_keys, !ndenumerate_keys.
  destruct (rect_lengths _ _ _ Hrect) as [-> ->].
  destruct (rect_lengths _ _ _ Hrect') as [-> ->]. done.
Qed.

Lemma create_graph_depends_on_shape_witness :
  rect 2 2 corner_obs /\ rect 2 2 [[1; 0]; [-1; 1]] /\
  _create_graph corner_obs = _create_graph [[1; 0]; [-1; 1]].
Proof.
  assert (rect 2 2 [[1; 0]; [-1; 1]]) as Hrect'
    by (split; [reflexivity | repeat constructor]).
  split; [exact corner_obs_rect|]. split; [exact Hrect'|].
  exact (create_graph_depends_on_shape 2 2 _ _ corner_obs_rect Hrect').
Defined.

Section CacheFacts.

Context {PyState : Type} {py : PyRandom PyState}.
Variable all_pairs_dijkstra_path : Graph -> PathDict.

Lemma naive_action_robot r obs g out :
  select_naive_action all_pairs_dijkstra_path r obs g = Ok out ->
  out.1.2 = ensure_graph all_pairs_dijkstra_path r obs.
Proof.
  intros H. unfold select_naive_action in H. do 2 inv_bind H. by injection H as <-.
Qed.

Lemma naive_action2_robot r obs its g out :
  select_naive_action2 all_pairs_dijkstra_path r obs its g = Ok out ->
  out.1.2 = ensure_graph all_pairs_dijkstra_path r obs.
Proof.
  intros H. unfold select_naive_action2 in H. do 2 inv_bind H. by injection H as <-.
Qed.

(** X20: the graph and the path table are built once.  The first call of a
    naive policy on a robot without a graph stores the graph of that
    observation and the table networkx computes for it, and changes nothing
    else of the robot; every later call of either policy, on whatever
    observation, returns the robot as it is: the cache is never rebuilt. *)
Theorem policy_cache_is_built_once (r : Robot) (obs : list (list Z)) (g : PyState)
    (out : option Z * Robot * PyState) :
  _graph r = None ->
  select_naive_action all_pairs_dijkstra_path r obs g = Ok out ->
  let r1 := out.1.2 in
  _graph r1 = Some (_create_graph obs) /\
  _path_dict r1 = Some (all_pairs_dijkstra_path (_create_graph obs)) /\
  _id r1 = _id r /\ _pos r1 = _pos r /\ _robot_domain r1 = _robot_domain r /\
  items_collected r1 = items_collected r /\ _action_space r1 = _action_space r /\
  (forall obs' g' out',
     select_naive_action all_pairs_dijkstra_path r1 obs' g' = Ok out' ->
     out'.1.2 = r1) /\
  (forall obs' its g' out',
     select_naive_action2 all_pairs_dijkstra_path r1 obs' its g' = Ok out' ->
     out'.1.2 = r1).
Proof.
  intros Hnone Hrun. cbv zeta. rewrite (naive_action_robot _ _ _ _ Hrun).
  unfold ensure_graph at 1 2 3 4 5 6 7. rewrite Hnone. simpl.
  repeat split.
  - intros obs' g' out' Hrun'. rewrite (naive_action_robot _ _ _ _ Hrun').
    unfold ensure_graph. by rewrite Hnone.
  - intros obs' its g' out' Hrun'. rewrite (naive_action2_robot _ _ _ _ _ Hrun').
    unfold ensure_graph. by rewrite Hnone.
Qed.

Lemma closest_loop_no_item (r : Robot) (entries : list (Node * Z)) st :
  (forall e, e ∈ entries -> e.2 <> 1) ->
  for_each (closest_body r) entries st = Ok st.
Proof.
  induction entries as [|e entries IH]; intros Hno; [done|].
  cbn [for_each].
  assert (closest_body r e st = Ok st) as ->.
  { unfold closest_body. rewrite decide_False by (apply Hno; by left). done. }
  simpl. apply IH. intros e' He'. apply Hno. by right.
Qed.

(** X21: without an item in sight [select_naive_action] moves at random.
    On an observation with at least one row and one column and no cell equal
    to 1 it returns the draw of [random.randint(0, 3)], whatever the path
    table holds. *)
Theorem naive_action_without_item_is_random (H W : nat) (r : Robot)
    (obs : list (list Z)) (g : PyState) :
  rect H W obs -> (0 < H)%nat -> (0 < W)%nat ->
  (forall i j, cell_at obs i j <> Some 1) ->
  select_naive_action all_pairs_dijkstra_path r obs g
  = Ok (Some (random_randint 0 (_action_space r - 1) g).1,
        ensure_graph all_pairs_dijkstra_path r obs,
        (random_randint 0 (_action_space r - 1) g).2).
Proof.
  intros [Hlen Hrows] HH HW Hno.
  destruct (lookup_lt_is_Some_2 obs 0 ltac:(lia)) as [row0 Hrow0].
  rewrite Forall_lookup in Hrows. pose proof (Hrows _ _ Hrow0) as Hw.
  destruct (lookup_lt_is_Some_2 row0 0 ltac:(lia)) as [x0 Hx0].
  unfold select_naive_action, _path_to_closest_item.
  rewrite (py_index_in_range obs 0 row0) by done. simpl.
  rewrite (py_index_in_range row0 0 x0) by done. simpl.
  rewrite closest_loop_no_item.
  2:{ intros e He He1. apply elem_of_ndenumerate in He as (i & j & _ & Hcell).
      rewrite He1 in Hcell. by apply (Hno i j). }
  simpl.
  destruct (ensure_graph_keeps all_pairs_dijkstra_path r obs) as (_ & _ & ->).
  by destruct (random_randint 0 (_action_space r - 1) g).
Qed.

End CacheFacts.

Lemma policy_cache_is_built_once_witness :
  let out := (Some 1, ensure_graph manhattan_apsp corner_robot corner_obs, (2 : Z)) in
  _graph corner_robot = None /\
  select_naive_action manhattan_apsp corner_robot corner_obs (2 : Z) = Ok out /\
  _graph out.1.2 = Some (_create_graph corner_obs).
Proof.
  assert (_graph corner_robot = None) as Hnone by reflexivity.
  assert (select_naive_action manhattan_apsp corner_robot corner_obs (2 : Z)
          = Ok (Some 1, ensure_graph manhattan_apsp corner_robot corner_obs, (2 : Z)))
    as Hrun by reflexivity.
  cbv zeta. split; [exact Hnone|]. split; [exact Hrun|].
  exact (proj1 (policy_cache_is_built_once manhattan_apsp _ _ _ _ Hnone Hrun)).
Defined.

Lemma naive_action_without_item_is_random_witness :
  rect 2 2 [[0; 0]; [-1; 0]] /\ (0 < 2)%nat /\
  (forall i j, cell_at [[0; 0]; [-1; 0]] i j <> Some 1) /\
  select_naive_action manhattan_apsp robot_on_item [[0; 0]; [-1; 0]] (2 : Z)
  = Ok (Some (random_randint 0 3 (2 : Z)).1,
        ensure_graph manhattan_apsp robot_on_item [[0; 0]; [-1; 0]],
        (random_randint 0 3 (2 : Z)).2).
Proof.
  assert (rect 2 2 [[0; 0]; [-1; 0]]) as Hrect
    by (split; [reflexivity | repeat constructor]).
  assert (0 < 2)%nat as Hpos by lia.
  assert (forall i j, cell_at [[0; 0]; [-1; 0]] i j <> Some 1) as Hno.
  { intros i j. destruct i as [|[|i]], j as [|[|j]]; simpl; discriminate. }
  split; [exact Hrect|]. split; [exact Hpos|]. split; [exact Hno|].
  exact (naive_action_without_item_is_random manhattan_apsp 2 2 robot_on_item
           _ (2 : Z) Hrect Hpos Hpos Hno).
Defined.

(** *** Towards the closest item *)

Lemma closest_loop_min (r : Robot) table (bound : Z) (entries : list (Node * Z)) :
  _path_dict r = Some table ->
  (forall e, e ∈ entries -> e.2 = 1 ->
     exists p, table (relative_pos r) e.1 = Some p /\
               Z.of_nat (length p) - 1 = manhattan (relative_pos r) e.1 /\
               manhattan (relative_pos r) e.1 < bound) ->
  forall seen st,
    closest_found table (relative_pos r) bound seen st ->
    exists st',
      for_each (closest_body r) entries st = Ok st' /\
      closest_found table (relative_pos r) bound (seen ++ entries) st'.
Proof.
  intros Hdict. induction entries as [|e entries IH]; intros Hitems seen st Hst.
  - exists st. by rewrite app_nil_r.
  - cbn [for_each].
    assert (exists st1, closest_body r e st = Ok st1 /\
              closest_found table (relative_pos r) bound (seen ++ [e]) st1)
      as (st1 & Hbody & Hst1).
    { unfold closest_body. destruct (decide (e.2 = 1)) as [He|He].
      - destruct (Hitems e ltac:(by left) He) as (p & Hp & Hlen & Hlt).
        unfold path_lookup. rewrite Hdict, Hp. simpl.
        assert (e = (e.1, 1)) as Heq by (destruct e; simpl in *; by subst).
        unfold closest_found in Hst. destruct st as [best [q|]]; simpl in *.
        + destruct Hst as (t & Ht & Htq & Hbest & Hqlen & Hmin).
          destruct (decide (Z.of_nat (length p) - 1 < best)) as [Hless|Hmore].
          * eexists. split; [done|]. unfold closest_found. simpl.
            exists e.1. split; [rewrite <- Heq; apply elem_of_app; right; by left|].
            split; [done|]. split; [lia|]. split; [done|].
            intros e' He' He'1. apply elem_of_app in He' as [He'|He'].
            -- specialize (Hmin e' He' He'1). lia.
            -- apply list_elem_of_singleton in He'. subst e'. lia.
          * eexists. split; [done|]. unfold closest_found. simpl.
            exists t. split; [apply elem_of_app; by left|].
            split; [done|]. split; [done|]. split; [done|].
            intros e' He' He'1. apply elem_of_app in He' as [He'|He'].
            -- by apply Hmin.
            -- apply list_elem_of_singleton in He'. subst e'. lia.
        + destruct Hst as [-> Hnone].
          rewrite decide_True by lia.
          eexists. split; [done|]. unfold closest_found. simpl.
          exists e.1. split; [rewrite <- Heq; apply elem_of_app; right; by left|].
          split; [done|]. split; [lia|]. split; [done|].
          intros e' He' He'1. apply elem_of_app in He' as [He'|He'].
          -- by destruct (Hnone e' He').
          -- apply list_elem_of_singleton in He'. subst e'. lia.
      - exists st. split; [done|]. unfold closest_found in *.
        destruct (st.2) as [q|].
        + destruct Hst as (t & Ht & Htq & Hbest & Hqlen & Hmin).
          exists t. split; [apply elem_of_app; by left|].
          split; [done|]. split; [done|]. split; [done|].
          intros e' He' He'1. apply elem_of_app in He' as [He'|He'].
          * by apply Hmin.
          * apply list_elem_of_singleton in He'. by subst e'.
        + destruct Hst as [Hb Hnone]. split; [done|].
          intros e' He'. apply elem_of_app in He' as [He'|He'].
          * by apply Hnone.
          * apply list_elem_of_singleton in He'. by subst e'. }
    rewrite Hbody. simpl.
    destruct (IH ltac:(intros e' He'; apply Hitems; by right) (seen ++ [e]) st1 Hst1)
      as (st' & Hrun & Hst').
    exists st'. split; [done|]. by rewrite <- app_assoc in Hst'.
Qed.

Lemma candidate_shift (p : Pos) (a dr dc : Z) (w : Pos) :
  candidate (p.1 - dr, p.2 - dc) a = Ok w ->
  candidate p a = Ok (w.1 + dr, w.2 + dc).
Proof.
  unfold candidate. repeat case_decide; intros [= <-]; simpl; do 2 f_equal; lia.
Qed.

Lemma manhattan_step_closer H W u t p w :
  grid_path H W u t p -> Z.of_nat (length p) = manhattan u t + 1 ->
  p !! 1%nat = Some w ->
  in_grid H W w /\ manhattan w t = manhattan u t - 1.
Proof.
  intros [(Hwalk & Hhead & Hlast) Hall] Hlen Hw.
  destruct p as [|a0 [|w0 rest]]; try discriminate Hw.
  injection Hw as ->. injection Hhead as ->.
  destruct Hwalk as [(_ & Hwin & Hstep) Hrest]. split; [done|].
  pose proof (walk_at_least_manhattan (grid_adj H W) (w :: rest) (grid_adj_unit H W)
                w t Hrest eq_refl Hlast) as Hge.
  unfold unit_step, manhattan in *. simpl length in *. lia.
Qed.

Section ApproachFacts.

Context {PyState : Type} {py : PyRandom PyState}.
Variable all_pairs_dijkstra_path : Graph -> PathDict.

(** X22: [select_naive_action] steps towards a closest item.  Let the
    observation have the shape of the robot's domain, the robot be inside its
    domain, its path table be the one networkx builds for the graph of the
    observation, some cell of the observation be 1 and the robot's own cell
    not be 1 (as in every ['image'] observation).  Then the policy draws no
    random number and returns one of the actions 0..3; there is a cell [t]
    equal to 1 that is nearest to the robot in Manhattan distance among the
    cells equal to 1, and [act] with the returned action moves the robot one
    cell closer to [t], inside its domain. *)
Theorem naive_action_approaches_closest_item
    (H W : nat) (r : Robot) (obs : list (list Z)) (g : PyState) :
  let d := _robot_domain r in
  let graph := _create_graph obs in
  let r' := ensure_graph all_pairs_dijkstra_path r obs in
  rect H W obs ->
  Z.of_nat H = dom2 d - dom0 d + 1 -> Z.of_nat W = dom3 d - dom1 d + 1 ->
  in_domain d (_pos r) ->
  (_graph r <> None -> _path_dict r = Some (all_pairs_dijkstra_path graph)) ->
  shortest_on_cells H W graph (all_pairs_dijkstra_path graph) ->
  (exists i j, cell_at obs i j = Some 1) ->
  cell_at obs (Z.to_nat (relative_pos r).1) (Z.to_nat (relative_pos r).2) <> Some 1 ->
  exists a t r'',
    select_naive_action all_pairs_dijkstra_path r obs g = Ok (Some a, r', g) /\
    0 <= a <= 3 /\
    cell_at obs (Z.to_nat t.1) (Z.to_nat t.2) = Some 1 /\ in_grid H W t /\
    (forall i j, cell_at obs i j = Some 1 ->
       manhattan (relative_pos r) t
       <= manhattan (relative_pos r) (Z.of_nat i, Z.of_nat j)) /\
    act r' a = Ok r'' /\ in_domain d (_pos r'') /\
    manhattan (relative_pos r'') t = manhattan (relative_pos r) t - 1.
Proof.
  intros d graph r' Hrect HH HW Hin Hcache Htable (i1 & j1 & Hitem) Hown.
  destruct (ensure_graph_keeps all_pairs_dijkstra_path r obs) as (Hpos & Hdom & Hspace).
  fold r' in Hpos, Hdom, Hspace.
  assert (relative_pos r' = relative_pos r) as Hrel.
  { unfold relative_pos. by rewrite Hpos, Hdom. }
  pose proof (ensure_graph_table _ r obs Hcache) as Hdict. fold r' graph in Hdict.
  set (u := relative_pos r) in *.
  assert (in_grid H W u) as Hu.
  { destruct Hin as [Hi Hj]. unfold in_grid, u, relative_pos. fold d. simpl. lia. }
  assert (forall e, e ∈ ndenumerate obs -> in_grid H W e.1) as Hcells.
  { intros e He. eapply ndenumerate_in_grid; [done|]. by apply list_elem_of_fmap_2. }
  assert (forall v, in_grid H W v ->
            exists p, all_pairs_dijkstra_path graph u v = Some p /\
                      grid_path H W u v p /\
                      Z.of_nat (length p) = manhattan u v + 1) as Hpaths.
  { intros v Hv. destruct (Htable u v Hu Hv) as (p & Hp & _ & _).
    { exists (manhattan_path u v).
      eapply grid_path_is_path; [done|]. by apply manhattan_path_grid. }
    exists p. split; [done|].
    by apply (table_path_grid H W obs _ _ _ p Hrect Htable Hu Hv Hp). }
  destruct Hrect as [Hlen Hrows].
  assert (exists row0 x0, obs !! 0%nat = Some row0 /\ row0 !! 0%nat = Some x0 /\
                          length row0 = W) as (row0 & x0 & Hrow0 & Hx0 & Hw).
  { unfold cell_at in Hitem. destruct (obs !! i1) as [row|] eqn:Hrow; [|discriminate].
    simpl in Hitem. pose proof (lookup_lt_Some _ _ _ Hrow).
    pose proof (lookup_lt_Some _ _ _ Hitem) as Hj.
    rewrite Forall_lookup in Hrows. rewrite (Hrows _ _ Hrow) in Hj.
    destruct (lookup_lt_is_Some_2 obs 0 ltac:(lia)) as [row0 Hrow0].
    pose proof (Hrows _ _ Hrow0) as Hw.
    destruct (lookup_lt_is_Some_2 row0 0 ltac:(lia)) as [x0 Hx0]. eauto. }
  destruct (closest_loop_min r' (all_pairs_dijkstra_path graph)
              (Z.of_nat H + Z.of_nat W) (ndenumerate obs) Hdict)
    with (seen := @nil (Node * Z)) (st := (Z.of_nat H + Z.of_nat W, @None Path))
    as (st' & Hrun & Hfound).
  { intros e He He1. rewrite Hrel. destruct (Hpaths e.1 (Hcells e He)) as (p & Hp & _ & Hplen).
    exists p. split; [done|]. split; [lia|].
    destruct Hu, (Hcells e He). unfold manhattan. lia. }
  { split; [done|]. intros e He. by apply elem_of_nil in He. }
  rewrite Hrel in Hfound. simpl in Hfound.
  assert (((Z.of_nat i1, Z.of_nat j1), 1) ∈ ndenumerate obs) as Hitem'.
  { apply elem_of_ndenumerate. by exists i1, j1. }
  unfold closest_found in Hfound. destruct st' as [best [p|]]; simpl in Hfound.
  2:{ destruct Hfound as [_ Hnone]. by destruct (Hnone _ Hitem'). }
  destruct Hfound as (t & Ht & Htp & Hbest & Hplen & Hmin).
  apply elem_of_ndenumerate in Ht as (it & jt & Htij & Htcell). simpl in Htij, Htcell.
  assert (in_grid H W t) as Htgrid.
  { apply (Hcells (t, 1)). apply elem_of_ndenumerate. by exists it, jt. }
  destruct (Hpaths t Htgrid) as (p' & Hp' & Hpath & Hlen').
  rewrite Htp in Hp'. injection Hp' as <-.
  assert (u <> t) as Hne.
  { intros Heq. apply Hown. rewrite Heq, Htij. simpl. by rewrite !Nat2Z.id. }
  pose proof (manhattan_nonneg u t) as Hnn.
  assert (manhattan u t <> 0) as Hpos' by (intros H0; by apply manhattan_zero in H0).
  destruct (first_action_of_grid_path H W _ _ p Hpath ltac:(lia))
    as (a & w & Hw1 & Hact & Ha & Hcand).
  destruct (manhattan_step_closer H W u t p w Hpath Hlen' Hw1) as [Hwgrid Hcloser].
  assert (candidate (_pos r') a = Ok (w.1 + dom0 d, w.2 + dom1 d)) as Hglobal.
  { rewrite Hpos. apply candidate_shift. exact Hcand. }
  assert (in_domain (_robot_domain r') (w.1 + dom0 d, w.2 + dom1 d)) as Hwin.
  { rewrite Hdom. fold d. destruct Hwgrid as [Hwi Hwj]. unfold in_domain. simpl. lia. }
  exists a, t, (set_position r' (w.1 + dom0 d, w.2 + dom1 d)).
  destruct (set_position_spec r' (w.1 + dom0 d, w.2 + dom1 d)) as (Hd' & Hp' & _).
  specialize (Hp' Hwin).
  split.
  { unfold select_naive_action, _path_to_closest_item. fold r'.
    rewrite (py_index_in_range obs 0 row0) by done. simpl.
    rewrite (py_index_in_range row0 0 x0) by done. simpl.
    rewrite Hlen, Hw, Hrun. simpl.
    rewrite decide_False by lia. rewrite Hact. done. }
  split; [done|]. split; [by rewrite Htij; simpl; rewrite !Nat2Z.id|].
  split; [done|]. split.
  { intros i j Hij. apply (Hmin ((Z.of_nat i, Z.of_nat j), 1)); [|done].
    apply elem_of_ndenumerate. by exists i, j. }
  split; [unfold act; by rewrite Hglobal|].
  split; [rewrite Hp'; rewrite Hdom in Hwin; exact Hwin|].
  replace (relative_pos (set_position r' (w.1 + dom0 d, w.2 + dom1 d))) with w; [done|].
  unfold relative_pos. rewrite Hp', Hd', Hdom. fold d. simpl.
  destruct w. simpl. f_equal; lia.
Qed.

End ApproachFacts.

Lemma naive_action_approaches_closest_item_witness :
  let r := corner_robot in
  let r' := ensure_graph manhattan_apsp r corner_obs in
  rect 2 2 corner_obs /\ in_domain (_robot_domain r) (_pos r) /\
  shortest_on_cells 2 2 (_create_graph corner_obs)
                    (manhattan_apsp (_create_graph corner_obs)) /\
  cell_at corner_obs 1 1 = Some 1 /\
  cell_at corner_obs (Z.to_nat (relative_pos r).1) (Z.to_nat (relative_pos r).2)
  <> Some 1 /\
  exists a t r'',
    select_naive_action manhattan_apsp r corner_obs (2 : Z) = Ok (Some a, r', 2) /\
    act r' a = Ok r'' /\
    manhattan (relative_pos r'') t = manhattan (relative_pos r) t - 1.
Proof.
  assert (Z.of_nat 2 = dom2 (_robot_domain corner_robot)
                       - dom0 (_robot_domain corner_robot) + 1) as HH by reflexivity.
  assert (Z.of_nat 2 = dom3 (_robot_domain corner_robot)
                       - dom1 (_robot_domain corner_robot) + 1) as HW by reflexivity.
  assert (in_domain (_robot_domain corner_robot) (_pos corner_robot)) as Hin
    by (unfold in_domain; simpl; lia).
  assert (_graph corner_robot <> None ->
          _path_dict corner_robot
          = Some (manhattan_apsp (_create_graph corner_obs))) as Hcache
    by (intros Hg; by destruct Hg).
  assert (shortest_on_cells 2 2 (_create_graph corner_obs)
            (manhattan_apsp (_create_graph corner_obs))) as Htable
    by exact (manhattan_table_shortest 2 2 corner_obs corner_obs_rect).
  assert (cell_at corner_obs 1 1 = Some 1) as Hitem by reflexivity.
  assert (cell_at corner_obs (Z.to_nat (relative_pos corner_robot).1)
            (Z.to_nat (relative_pos corner_robot).2) <> Some 1) as Hown
    by (simpl; discriminate).
  cbv zeta. split; [exact corner_obs_rect|]. split; [exact Hin|].
  split; [exact Htable|]. split; [exact Hitem|]. split; [exact Hown|].
  destruct (naive_action_approaches_closest_item manhattan_apsp 2 2 corner_robot
              corner_obs (2 : Z) corner_obs_rect HH HW Hin Hcache Htable
              (ex_intro _ 1%nat (ex_intro _ 1%nat Hitem)) Hown)
    as (a & t & r'' & Hsel & _ & _ & _ & _ & Hact & _ & Hcloser).
  exists a, t, r''. split; [exact Hsel|]. split; [exact Hact | exact Hcloser].
Defined.

(** ** Rewards and episodes *)

Lemma hits_absent robot_pos its :
  robot_pos ∉ get_position <$> its -> hits robot_pos its = 0.
Proof.
  unfold hits. induction its as [|it its IH]; [done|].
  rewrite fmap_cons, not_elem_of_cons. intros [Hne Hrest].
  rewrite filter_cons_False by done. by apply IH.
Qed.

Lemma hits_at_most_one robot_pos its :
  NoDup (get_position <$> its) -> 0 <= hits robot_pos its <= 1.
Proof.
  induction its as [|it its IH]; intros Hnd; [unfold hits; simpl; lia|].
  rewrite fmap_cons, NoDup_cons in Hnd. destruct Hnd as [Hnew Hnd].
  specialize (IH Hnd). unfold hits in *.
  destruct (decide (robot_pos = get_position it)) as [Heq|Hne].
  - rewrite filter_cons_True by done. rewrite <- Heq in Hnew.
    pose proof (hits_absent _ _ Hnew) as Hzero. unfold hits in Hzero.
    simpl length. lia.
  - by rewrite filter_cons_False by done.
Qed.

Lemma robots_act_length actions rs rs' :
  _robots_act actions rs = Ok rs' -> length rs' = length rs.
Proof.
  intros H. destruct (robots_act_domains _ _ _ H) as [Hd _].
  apply (f_equal length) in Hd. by rewrite !length_fmap in Hd.
Qed.

Section EpisodeAccounting.

Context {NpState : Type} {np : NumpyRandom NpState}.

(** X23: the bounds of the reward.  In a tick from a reachable state the
    reward is at least 0 and at most the number of robots: no two items share
    a cell, so a robot collects at most one item per tick. *)
Theorem step_reward_bounds (w w' : Warehouse NpState) (actions : list Z)
    (reward : Z) (done : bool) :
  reachable w ->
  step w actions = Ok (reward, done, w') ->
  0 <= reward <= Z.of_nat (length (robots w)).
Proof.
  intros Hw Hstep. destruct (reachable_inv w Hw) as [Hnd _].
  destruct (step_spec _ _ _ _ Hnd Hstep) as (rs & Hact & Hrew & _).
  simpl in Hrew. subst reward. rewrite <- (robots_act_length _ _ _ Hact).
  rewrite compute_reward_sum. clear Hact Hstep.
  induction rs as [|r rs IH]; [simpl; lia|].
  cbn [foldr length]. rewrite Nat2Z.inj_succ.
  pose proof (hits_at_most_one (_pos r) (items w) Hnd). lia.
Qed.

Lemma step_counters (w w' : Warehouse NpState) actions out :
  step w actions = Ok (out, w') ->
  parameters w' = parameters w /\
  episode_length w' = episode_length w + 1 /\
  n_items_collected w' = n_items_collected w + out.1 /\
  out.2 = bool_decide (n_steps_episode (parameters w) <= episode_length w + 1).
Proof.
  intros H. unfold step in H. do 2 inv_bind H. injection H as <- <-.
  unfold _add_items in E0. inv_bind E0. injection E0 as <-. simpl. done.
Qed.

Lemma run_steps_counters script :
  forall (w w' : Warehouse NpState) outs,
    run_steps w script = Ok (outs, w') ->
    parameters w' = parameters w /\
    length outs = length script /\
    episode_length w' = episode_length w + Z.of_nat (length script) /\
    n_items_collected w' = n_items_collected w + total_reward outs /\
    forall k out, outs !! k = Some out ->
      out.2 = bool_decide (n_steps_episode (parameters w)
                           <= episode_length w + Z.of_nat k + 1).
Proof.
  induction script as [|actions script IH]; intros w w' outs H; simpl in H.
  - injection H as <- <-. simpl. repeat split; try lia. intros k out Hk.
    by rewrite lookup_nil in Hk.
  - do 2 inv_bind H. injection H as <- <-. destruct x as [out w1].
    destruct x0 as [outs' w2]. simpl in *.
    destruct (step_counters _ _ _ _ E) as (Hp & Hlen & Hcol & Hdone).
    destruct (IH _ _ _ E0) as (Hp' & Hlen' & Hel & Hcol' & Hflags).
    split; [congruence|]. split; [simpl; lia|]. split; [lia|].
    split; [unfold total_reward in *; simpl; lia|].
    intros k o Hk. destruct k as [|k]; simpl in Hk.
    + injection Hk as <-. rewrite Hdone. f_equal. 
      apply bool_decide_ext. lia.
    + rewrite (Hflags k o Hk), Hp, Hlen. apply bool_decide_ext. lia.
Qed.

(** X24: the counters of an episode.  After [reset] and a list of ticks
    that all succeed, [episode_length] is the number of ticks and
    [n_items_collected] the sum of the rewards returned; the tick number [k]
    (from 1) returns [done] exactly when [k] has reached [n_steps_episode].
    [step] itself never looks at the flag: the ticks after the first [done]
    run like the others and go on counting. *)
Theorem episode_counters (w0 w1 w' : Warehouse NpState) (out0 : Z * bool)
    (script : list (list Z)) (outs : list (Z * bool)) :
  reset w0 = Ok (out0, w1) ->
  run_steps w1 script = Ok (outs, w') ->
  out0 = (0, false) /\
  length outs = length script /\
  episode_length w' = Z.of_nat (length script) /\
  n_items_collected w' = total_reward outs /\
  forall k out, outs !! k = Some out ->
    out.2 = bool_decide (n_steps_episode (parameters w0) <= Z.of_nat k + 1).
Proof.
  intros Hreset Hrun.
  destruct (run_steps_counters _ _ _ _ Hrun) as (_ & Hlen & Hel & Hcol & Hflags).
  unfold reset in Hreset. do 2 inv_bind Hreset. injection Hreset as <- <-.
  unfold _add_items in E0. inv_bind E0. injection E0 as <-. simpl in *.
  split; [done|]. split; [done|]. split; [lia|]. split; [lia|].
  intros k out Hk. rewrite (Hflags k out Hk). apply bool_decide_ext. lia.
Qed.

End EpisodeAccounting.

Lemma step_reward_bounds_witness :
  let w := shared_column_start in
  let w' := state_after w (step w [3; 2]) in
  reachable w /\ step w [3; 2] = Ok (2, false, w') /\
  0 <= 2 <= Z.of_nat (length (robots w)).
Proof.
  assert (step shared_column_start [3; 2]
          = Ok (2, false, state_after shared_column_start
                            (step shared_column_start [3; 2]))) as Hstep
    by (vm_compute; reflexivity).
  cbv zeta. split; [exact shared_column_start_reachable|]. split; [exact Hstep|].
  exact (step_reward_bounds _ _ _ _ _ shared_column_start_reachable Hstep).
Defined.

Lemma episode_counters_witness :
  reset (new_Warehouse shared_column_parameters)
  = Ok ((0, false), shared_column_start) /\
  run_steps shared_column_start [[3; 3]; [2; 2]]
  = Ok (two_ticks_outs, two_ticks_state) /\
  episode_length two_ticks_state = 2 /\
  n_items_collected two_ticks_state = total_reward two_ticks_outs.
Proof.
  assert (reset (new_Warehouse shared_column_parameters)
          = Ok ((0, false), shared_column_start)) as Hreset
    by (vm_compute; reflexivity).
  assert (run_steps shared_column_start [[3; 3]; [2; 2]]
          = Ok (two_ticks_outs, two_ticks_state)) as Hrun
    by (vm_compute; reflexivity).
  split; [exact Hreset|]. split; [exact Hrun|].
  pose proof (episode_counters _ _ _ _ _ _ Hreset Hrun)
    as (_ & _ & Hlen & Hcol & _).
  split; [exact Hlen | exact Hcol].
Defined.

(** ** The accessors of the warehouse *)

Lemma py_index_outcome {A} (l : list A) (i : Z) :
  match py_index l i with
  | Ok x => - Z.of_nat (length l) <= i < Z.of_nat (length l) /\ x ∈ l
  | Err e => e = IndexError /\ ~ (- Z.of_nat (length l) <= i < Z.of_nat (length l))
  end.
Proof.
  unfold py_index, norm_index.
  destruct (decide (0 <= i < Z.of_nat (length l))) as [Hi|Hi]; simpl.
  - destruct (lookup_lt_is_Some_2 l (Z.to_nat i) ltac:(lia)) as [x Hx]. rewrite Hx.
    split; [lia|]. by eapply list_elem_of_lookup_2.
  - destruct (decide (- Z.of_nat (length l) <= i < 0)) as [Hn|Hn]; simpl.
    + destruct (lookup_lt_is_Some_2 l (Z.to_nat (i + Z.of_nat (length l))) ltac:(lia))
        as [x Hx]. rewrite Hx. split; [lia|]. by eapply list_elem_of_lookup_2.
    + split; [done|lia].
Qed.

Section AccessorFacts.

Context {NpState : Type} {np : NumpyRandom NpState}.

Lemma reachable_observe_vector (w : Warehouse NpState) (r : Robot) (state : Bitmap) :
  reachable w -> r ∈ robots w ->
  _get_state (parameters w) (items w) (robots w) = Ok state ->
  exists v, observe r state false = Ok (Vector v) /\ observe_vector r state = Ok v.
Proof.
  intros Hw Hr Hstate.
  destruct (get_state_spec _ _ _ _ Hstate) as (Hnr & Hnc & Hrect & _).
  destruct (reachable_robot_placed w r Hw Hnr Hnc Hr) as [Hdom Hok].
  rewrite <- (Z2Nat.id (n_rows (parameters w))),
          <- (Z2Nat.id (n_columns (parameters w))) in Hdom by done.
  destruct (observe_vector_spec _ _ state r Hrect Hdom Hok) as (loc & _ & _ & Hv).
  eexists. split; [exact Hv|]. unfold observe_vector. by rewrite Hv.
Qed.

(** X25: [get_dset] and [_get_observation] on a reachable state of a grid
    with [0 <= n_rows <= n_columns].  [get_dset] returns the ['vector']
    observation of the robot at index [learning_robot_id], counted from the
    end when negative, and raises [IndexError] when that index is off the
    roster; [_get_observation] returns the observations of the first two
    robots one after the other, and raises [IndexError] with fewer than two
    robots. *)
Theorem observation_accessors_on_reachable (w : Warehouse NpState) (robot_id : Z) :
  reachable w ->
  0 <= n_rows (parameters w) <= n_columns (parameters w) ->
  let k := learning_robot_id (parameters w) in
  let n := Z.of_nat (length (robots w)) in
  exists state,
    _get_state (parameters w) (items w) (robots w) = Ok state /\
    (- n <= k < n ->
     exists r, py_index (robots w) k = Ok r /\
               get_dset w = observe_vector r state /\
               exists v, get_dset w = Ok v) /\
    (~ (- n <= k < n) -> get_dset w = Err IndexError) /\
    (forall r0 r1, robots w !! 0%nat = Some r0 -> robots w !! 1%nat = Some r1 ->
       exists v0 v1, observe_vector r0 state = Ok v0 /\
                     observe_vector r1 state = Ok v1 /\
                     _get_observation w robot_id = Ok (v0 ++ v1)) /\
    (n < 2 -> _get_observation w robot_id = Err IndexError).
Proof.
  intros Hw Hdim k n.
  destruct (state_of_reachable w Hw Hdim) as [[state Hstate] _].
  exists state. split; [done|].
  pose proof (py_index_outcome (robots w) k) as Hk. fold n in Hk.
  split; [|split; [|split]].
  - intros Hin. destruct (py_index (robots w) k) as [r|e] eqn:Hidx.
    2:{ by destruct Hk as [_ Hk]. }
    destruct Hk as [_ Hr]. exists r. split; [done|].
    unfold get_dset. fold k. rewrite Hstate, Hidx. simpl. split; [done|].
    destruct (reachable_observe_vector w r state Hw Hr Hstate) as (v & _ & Hv). eauto.
  - intros Hout. destruct (py_index (robots w) k) as [r|e] eqn:Hidx.
    { by destruct Hk as [Hk _]. }
    destruct Hk as [-> _]. unfold get_dset. fold k. by rewrite Hstate, Hidx.
  - intros r0 r1 H0 H1.
    destruct (reachable_observe_vector w r0 state Hw
                ltac:(by eapply list_elem_of_lookup_2) Hstate) as (v0 & _ & Hv0).
    destruct (reachable_observe_vector w r1 state Hw
                ltac:(by eapply list_elem_of_lookup_2) Hstate) as (v1 & _ & Hv1).
    exists v0, v1. split; [done|]. split; [done|].
    unfold _get_observation. rewrite Hstate. simpl.
    rewrite (py_index_in_range (robots w) 0 r0) by done. simpl. rewrite Hv0. simpl.
    rewrite (py_index_in_range (robots w) 1 r1) by done. simpl. by rewrite Hv1.
  - intros Hn. unfold _get_observation. rewrite Hstate. simpl.
    destruct (robots w !! 0%nat) as [r0|] eqn:H0.
    + pose proof (lookup_lt_Some _ _ _ H0) as Hlen.
      rewrite (py_index_in_range (robots w) 0 r0) by done. simpl.
      destruct (reachable_observe_vector w r0 state Hw
                  ltac:(by eapply list_elem_of_lookup_2) Hstate) as (v0 & _ & Hv0).
      rewrite Hv0. simpl.
      pose proof (py_index_outcome (robots w) 1) as H1. fold n in H1.
      destruct (py_index (robots w) 1) as [r1|e]; [lia|]. by destruct H1 as [-> _].
    + apply lookup_ge_None in H0.
      pose proof (py_index_outcome (robots w) 0) as H1. fold n in H1.
      destruct (py_index (robots w) 0) as [r1|e]; [unfold n in H1; lia|].
      by destruct H1 as [-> _].
Qed.

(** X26: [get_robot_loc_bitmap] on a 7x7 domain.  In a reachable state
    whose bitmap can be built, for a robot of the roster whose domain has
    seven rows and seven columns, the 49 entries returned are the domain in
    row-major order with a 1 at the robot's own cell and 0 elsewhere. *)
Theorem robot_loc_bitmap_is_one_hot (w : Warehouse NpState) (robot_id : Z)
    (r : Robot) (state : Bitmap) :
  let d := _robot_domain r in
  reachable w ->
  _get_state (parameters w) (items w) (robots w) = Ok state ->
  py_index (robots w) robot_id = Ok r ->
  dom2 d - dom0 d + 1 = 7 -> dom3 d - dom1 d + 1 = 7 ->
  exists l,
    get_robot_loc_bitmap w robot_id = Ok l /\ length l = 49%nat /\
    forall i j, (i < 7)%nat -> (j < 7)%nat ->
      l !! (i * 7 + j)%nat
      = Some (if decide (i = Z.to_nat ((_pos r).1 - dom0 d) /\
                         j = Z.to_nat ((_pos r).2 - dom1 d))
              then 1 else 0).
Proof.
  intros d Hw Hstate Hidx HH HW.
  pose proof (py_index_outcome (robots w) robot_id) as Hk. rewrite Hidx in Hk.
  destruct Hk as [_ Hr].
  destruct (get_state_spec _ _ _ _ Hstate) as (Hnr & Hnc & Hrect & _).
  destruct (reachable_robot_placed w r Hw Hnr Hnc Hr) as [Hdom Hok].
  rewrite <- (Z2Nat.id (n_rows (parameters w))),
          <- (Z2Nat.id (n_columns (parameters w))) in Hdom by done.
  destruct (observe_vector_spec _ _ state r Hrect Hdom Hok) as (loc & Hloc & Hlen & Hv).
  destruct (domain_slice_spec _ _ state (_robot_domain r) Hrect Hdom) as [Hslice _].
  destruct (robot_loc_spec r (domain_slice (_robot_domain r) state) Hslice Hok)
    as (loc' & Hloc' & Hlrect & Hlcells).
  rewrite Hloc in Hloc'. injection Hloc' as <-.
  fold d in Hlen, Hlrect, Hlcells. unfold domain_cells in Hlen. fold d in Hlen.
  rewrite HH, HW in Hlen, Hlrect, Hlcells.
  change (Z.to_nat 7) with 7%nat in *.
  exists (concat loc).
  assert (py_slice 0 49 (concat loc ++ ring_rowwise state (_robot_domain r))
          = concat loc) as Hslice49.
  { rewrite py_slice_in_range by (rewrite ?length_app; lia).
    change (Z.to_nat (49 - 0)) with 49%nat. change (Z.to_nat 0) with 0%nat.
    rewrite drop_0, take_app_length'; [done | lia]. }
  split.
  - assert (observe_vector r state
            = Ok (concat loc ++ ring_rowwise state (_robot_domain r))) as Hov.
    { unfold observe_vector. by rewrite Hv. }
    unfold get_robot_loc_bitmap. rewrite Hstate. cbn [mbind res_bind].
    rewrite Hidx. cbn [mbind res_bind]. rewrite Hov. cbn [mbind res_bind].
    by rewrite Hslice49.
  - split; [lia|]. intros i j Hi Hj.
    rewrite (lookup_concat_rect _ _ _ _ _ Hlrect) by done. by apply Hlcells.
Qed.

End AccessorFacts.

Lemma seven_start_reachable : reachable seven_start.
Proof.
  apply (reach_reset (new_Warehouse seven_parameters) (0, false)).
  vm_compute. reflexivity.
Qed.

Lemma observation_accessors_on_reachable_witness :
  reachable aisle_start /\
  0 <= n_rows (parameters aisle_start) <= n_columns (parameters aisle_start) /\
  exists state,
    _get_state (parameters aisle_start) (items aisle_start) (robots aisle_start)
    = Ok state /\
    (exists v, get_dset aisle_start = Ok v) /\
    exists v0 v1, _get_observation aisle_start 0 = Ok (v0 ++ v1).
Proof.
  assert (0 <= n_rows (parameters aisle_start) <= n_columns (parameters aisle_start))
    as Hdim by (vm_compute; split; discriminate).
  split; [exact aisle_start_reachable|]. split; [exact Hdim|].
  destruct (observation_accessors_on_reachable aisle_start 0 aisle_start_reachable Hdim)
    as (state & Hstate & Hdset & _ & Hobs & _).
  exists state. split; [exact Hstate|]. split.
  - destruct Hdset as (r & _ & _ & Hv);
      [vm_compute; split; [intros Hgt; discriminate Hgt | reflexivity] | exact Hv].
  - destruct (Hobs (new_Robot 0 (1, 1) (mkDomain 0 0 2 2))
                   (new_Robot 1 (1, 3) (mkDomain 0 2 2 4)))
      as (v0 & v1 & _ & _ & Hv); [vm_compute; reflexivity..|].
    exists v0, v1. exact Hv.
Defined.

Lemma robot_loc_bitmap_is_one_hot_witness :
  let r := new_Robot 0 (3, 3) (mkDomain 0 0 6 6) in
  reachable seven_start /\
  (exists state,
     _get_state (parameters seven_start) (items seven_start) (robots seven_start)
     = Ok state) /\
  py_index (robots seven_start) 0 = Ok r /\
  exists l, get_robot_loc_bitmap seven_start 0 = Ok l /\ length l = 49%nat /\
            l !! 24%nat = Some 1.
Proof.
  assert (_get_state (parameters seven_start) (items seven_start) (robots seven_start)
          = Ok (bitmap_of seven_start)) as Hstate by (vm_compute; reflexivity).
  assert (py_index (robots seven_start) 0
          = Ok (new_Robot 0 (3, 3) (mkDomain 0 0 6 6))) as Hidx
    by (vm_compute; reflexivity).
  cbv zeta. split; [exact seven_start_reachable|]. split; [eexists; exact Hstate|].
  split; [exact Hidx|].
  destruct (robot_loc_bitmap_is_one_hot seven_start 0 _ _ seven_start_reachable
              Hstate Hidx eq_refl eq_refl) as (l & Hl & Hlen & Hcells).
  exists l. split; [exact Hl|]. split; [exact Hlen|].
  exact (Hcells 3%nat 3%nat ltac:(lia) ltac:(lia)).
Defined.

(** ** The influence sources *)

Lemma reshape_row {A} n m (a : list (list A)) i row :
  rect n m a -> a !! i = Some row ->
  take m (drop (i * m) (concat a)) = row.
Proof.
  intros [_ Hm]. revert i row. induction Hm as [|r a Hr _ IH]; intros i row Hrow.
  - by rewrite lookup_nil in Hrow.
  - destruct i as [|i]; simpl in *.
    + injection Hrow as ->. by rewrite drop_0, take_app_length'.
    + rewrite drop_app_ge by lia.
      replace (m + i * m - length r)%nat with (i * m)%nat by lia. by apply IH.
Qed.

Lemma np_reshape_concat {A} n m (a : list (list A)) :
  rect n m a -> np_reshape (concat a) n m = Ok a.
Proof.
  intros Hrect. unfold np_reshape.
  rewrite decide_True by by apply length_concat_rect. f_equal.
  apply list_eq. intros i. rewrite list_lookup_fmap.
  destruct Hrect as [Hn Hm]. destruct (decide (i < n)%nat) as [Hi|Hi].
  - rewrite lookup_seq_lt by done. simpl.
    destruct (lookup_lt_is_Some_2 a i ltac:(lia)) as [row Hrow]. rewrite Hrow.
    f_equal. by apply (reshape_row n m).
  - rewrite lookup_seq_ge by lia. simpl. symmetry. apply lookup_ge_None. lia.
Qed.

Lemma side_bits_ok W (rows : list (list Z)) :
  (0 < W)%nat -> Forall (fun row => length row = W) rows ->
  exists sides, side_bits rows = Ok sides /\
                length (concat sides) = (2 * length rows)%nat.
Proof.
  intros HW. induction 1 as [|row rows Hrow _ (sides & Hsides & Hlen)].
  - by exists [].
  - destruct (lookup_lt_is_Some_2 row 0 ltac:(lia)) as [l Hl].
    destruct (lookup_lt_is_Some_2 row (length row - 1) ltac:(lia)) as [r Hr].
    exists ([l; r] :: sides). cbn [side_bits].
    rewrite (py_index_in_range row 0 l) by done. cbn [mbind res_bind].
    rewrite (py_index_last row r) by done. cbn [mbind res_bind].
    rewrite Hsides. cbn [mbind res_bind]. split; [done|].
    cbn [concat length app]. rewrite Hlen. simpl. lia.
Qed.

Lemma item_vec_rect H W (a : list (list Z)) :
  rect H W a -> (0 < H)%nat -> (0 < W)%nat ->
  exists v, item_vec a = Ok v /\ length v = (2 * W + 2 * (H - 2))%nat.
Proof.
  intros [Hn Hm] HH HW.
  destruct (lookup_lt_is_Some_2 a 0 ltac:(lia)) as [top Htop].
  destruct (lookup_lt_is_Some_2 a (length a - 1) ltac:(lia)) as [bottom Hbottom].
  assert (Forall (fun row : list Z => length row = W) (py_slice 1 (-1) a)) as Hinner.
  { unfold py_slice. by apply Forall_take, Forall_drop. }
  assert (length (py_slice 1 (-1) a) = (H - 2)%nat) as Hlen.
  { unfold py_slice, norm_bound.
    rewrite (decide_False (P := 1 < 0)), (decide_True (P := -1 < 0)) by lia.
    rewrite length_take, length_drop. lia. }
  destruct (side_bits_ok W _ HW Hinner) as (sides & Hsides & Hslen).
  exists (top ++ bottom ++ concat sides). unfold item_vec.
  rewrite (py_index_in_range a 0 top) by done. cbn [mbind res_bind].
  rewrite (py_index_last a bottom) by done. cbn [mbind res_bind].
  rewrite Hsides. cbn [mbind res_bind]. split; [done|].
  rewrite Forall_lookup in Hm.
  rewrite !length_app, (Hm _ _ Htop), (Hm _ _ Hbottom), Hslen, Hlen. lia.
Qed.

Lemma np_broadcast_same f (a b : list Z) :
  length a = length b -> np_broadcast f a b = Ok (zip_with f a b).
Proof. intros H. unfold np_broadcast. by rewrite decide_True. Qed.

(** X27: [get_infs] on two ['vector'] observations of a 7x7 domain.  Let
    the previous observation be 49 entries followed by the 24 item bits of
    the ring, and the current one be the 7x7 self-location map, flattened,
    followed by its 24 item bits.  Then [get_infs] returns 24 entries: at
    each ring position the previous item bit, minus the current one, minus
    the self-location bit of that ring cell, clipped at zero.  With bits 0
    and 1 an entry is 1 exactly where an item has gone from a ring cell the
    robot is not standing on. *)
Theorem get_infs_on_ring (prev_loc prev_ring ring : list Z) (loc : list (list Z)) :
  length prev_loc = 49%nat -> length prev_ring = 24%nat ->
  rect 7 7 loc -> length ring = 24%nat ->
  exists loc_ring infs,
    item_vec loc = Ok loc_ring /\ length loc_ring = 24%nat /\
    get_infs (prev_loc ++ prev_ring) (concat loc ++ ring) = Ok infs /\
    length infs = 24%nat /\
    forall k p c l,
      prev_ring !! k = Some p -> ring !! k = Some c -> loc_ring !! k = Some l ->
      infs !! k = Some (Z.max 0 (p - c - l)).
Proof.
  intros Hpl Hpr Hrect Hr.
  destruct (item_vec_rect 7 7 loc Hrect ltac:(lia) ltac:(lia)) as (loc_ring & Hvec & Hlr).
  simpl in Hlr. pose proof (length_concat_rect _ _ _ Hrect) as Hcl. simpl in Hcl.
  exists loc_ring,
    (Z.max 0 <$> zip_with Z.sub (zip_with Z.sub prev_ring ring) loc_ring).
  split; [done|]. split; [done|].
  assert (py_slice_from 49 (prev_loc ++ prev_ring) = prev_ring) as Hprev.
  { unfold py_slice_from, norm_bound. rewrite decide_False by lia.
    rewrite length_app, Hpl, Hpr. change (Z.to_nat (Z.min 49 (Z.of_nat (49 + 24))))
      with 49%nat. by rewrite drop_app_length'. }
  assert (py_slice_from 49 (concat loc ++ ring) = ring) as Hcur.
  { unfold py_slice_from, norm_bound. rewrite decide_False by lia.
    rewrite length_app, Hcl, Hr. change (Z.to_nat (Z.min 49 (Z.of_nat (49 + 24))))
      with 49%nat. by rewrite drop_app_length'. }
  assert (py_slice 0 49 (concat loc ++ ring) = concat loc) as Hmap.
  { rewrite py_slice_in_range by (rewrite ?length_app; lia).
    change (Z.to_nat (49 - 0)) with 49%nat. change (Z.to_nat 0) with 0%nat.
    by rewrite drop_0, take_app_length'. }
  split.
  { unfold get_infs. rewrite Hprev, Hcur, Hmap, (np_reshape_concat 7 7 loc Hrect).
    cbn [mbind res_bind]. rewrite np_broadcast_same by lia.
    cbn [mbind res_bind]. rewrite Hvec. cbn [mbind res_bind].
    rewrite np_broadcast_same by (rewrite length_zip_with; lia). done. }
  split; [rewrite length_fmap, !length_zip_with; lia|].
  intros k p c l Hp Hc Hl.
  rewrite list_lookup_fmap, lookup_zip_with, lookup_zip_with, Hp, Hc, Hl. done.
Qed.

Lemma get_infs_on_ring_witness :
  let prev_loc := replicate 49 0 in
  let prev_ring := replicate 24 1 in
  let loc := replicate 7 (replicate 7 0) in
  let ring := replicate 24 0 in
  length prev_loc = 49%nat /\ length prev_ring = 24%nat /\ rect 7 7 loc /\
  length ring = 24%nat /\
  exists infs, get_infs (prev_loc ++ prev_ring) (concat loc ++ ring) = Ok infs /\
               length infs = 24%nat.
Proof.
  assert (length (replicate 49 (0 : Z)) = 49%nat) as Hpl by reflexivity.
  assert (length (replicate 24 (1 : Z)) = 24%nat) as Hpr by reflexivity.
  assert (rect 7 7 (replicate 7 (replicate 7 (0 : Z)))) as Hrect
    by (split; [reflexivity | repeat constructor]).
  assert (length (replicate 24 (0 : Z)) = 24%nat) as Hr by reflexivity.
  cbv zeta. split; [exact Hpl|]. split; [exact Hpr|]. split; [exact Hrect|].
  split; [exact Hr|].
  destruct (get_infs_on_ring _ _ _ _ Hpl Hpr Hrect Hr)
    as (loc_ring & infs & _ & _ & Hinfs & Hlen & _).
  exists infs. split; [exact Hinfs | exact Hlen].
Defined.

(** ** The graph of a domain on the global grid *)

Lemma graph_steps_inv (cells' : list Node) :
  forall cells g,
    graph_inv cells g -> graph_inv (cells ++ cells') (foldl graph_step g cells').
Proof.
  induction cells' as [|cell cells' IH]; intros cells g Hinv.
  - simpl. by rewrite app_nil_r.
  - cbn [foldl].
    replace (cells ++ cell :: cells') with ((cells ++ [cell]) ++ cells')
      by by rewrite <- app_assoc.
    apply IH. exact (graph_step_inv cells g cell Hinv).
Qed.

Lemma foldl_nested {S} (f : S -> Node -> S) (rows columns : list Z) (s : S) :
  foldl (fun s i => foldl (fun s j => f s (i, j)) s columns) s rows
  = foldl f s (i ← rows; (fun j => (i, j)) <$> columns).
Proof.
  revert s. induction rows as [|i rows IH]; intros s; [done|].
  cbn [foldl mbind list_bind]. rewrite foldl_app, foldl_fmap. apply IH.
Qed.

Lemma elem_of_domain_cells (d : Domain) (u : Node) :
  u ∈ (i ← seqZ (dom0 d) (dom2 d + 1 - dom0 d);
       (fun j => (i, j)) <$> seqZ (dom1 d) (dom3 d + 1 - dom1 d))
  <-> in_domain d u.
Proof.
  rewrite list_elem_of_bind. unfold in_domain. split.
  - intros (i & Hu & Hi). apply list_elem_of_fmap in Hu as (j & -> & Hj).
    apply elem_of_seqZ in Hi, Hj. simpl. lia.
  - intros [Hi Hj]. exists u.1. split.
    + apply list_elem_of_fmap. exists u.2. split; [by destruct u|].
      apply elem_of_seqZ. lia.
    + apply elem_of_seqZ. lia.
Qed.

Lemma warehouse_graph_inv (r : Robot) :
  graph_inv (i ← seqZ (dom0 (_robot_domain r))
                   (dom2 (_robot_domain r) + 1 - dom0 (_robot_domain r));
             (fun j => (i, j)) <$> seqZ (dom1 (_robot_domain r))
                                     (dom3 (_robot_domain r) + 1 - dom1 (_robot_domain r)))
            (create_graph r).
Proof.
  unfold create_graph. rewrite foldl_nested.
  apply (graph_steps_inv _ [] {| nodes := []; edges := [] |}).
  split; [intros u v Hin; by apply elem_of_nil in Hin
         | intros u Hin; by apply elem_of_nil in Hin].
Qed.

(** X28: the graph [Warehouse.create_graph] builds for a robot.  Every
    cell of the robot's domain is a node, and two nodes are adjacent exactly
    when they are one row or one column apart and at least one of them lies
    in the domain.  It is the graph the robot builds for itself from an
    observation of the shape of its domain, moved from domain-relative to
    global coordinates. *)
Theorem warehouse_graph_adjacency (r : Robot) (u v : Node) :
  let d := _robot_domain r in
  (in_domain d u -> u ∈ nodes (create_graph r)) /\
  (graph_adj (create_graph r) u v <->
   unit_step u v /\ (in_domain d u \/ in_domain d v)) /\
  (forall (H W : nat) (obs : list (list Z)),
     rect H W obs ->
     Z.of_nat H = dom2 d - dom0 d + 1 -> Z.of_nat W = dom3 d - dom1 d + 1 ->
     (graph_adj (create_graph r) u v <->
      graph_adj (_create_graph obs) (u.1 - dom0 d, u.2 - dom1 d)
                                    (v.1 - dom0 d, v.2 - dom1 d))).
Proof.
  intros d. destruct (warehouse_graph_inv r) as [Hedges Hcells]. fold d in Hedges, Hcells.
  assert (graph_adj (create_graph r) u v <->
          unit_step u v /\ (in_domain d u \/ in_domain d v)) as Hadj.
  { unfold graph_adj. split.
    - intros He. apply has_edge_true in He as [He|He];
        destruct (Hedges _ _ He) as [Hc Hn];
        apply elem_of_domain_cells in Hc; apply neighbors_unit_step in Hn.
      + split; [done | by left].
      + split; [by apply unit_step_sym | by right].
    - intros [Hstep [Hu|Hv]].
      + apply Hcells; [by apply elem_of_domain_cells | by apply neighbors_unit_step].
      + rewrite has_edge_sym.
        apply Hcells; [by apply elem_of_domain_cells|].
        by apply neighbors_unit_step, unit_step_sym. }
  split; [|split; [exact Hadj|]].
  - intros Hu. by apply Hcells, elem_of_domain_cells.
  - intros H W obs Hrect HH HW. rewrite Hadj.
    rewrite (create_graph_adj_iff H W obs _ _ Hrect).
    unfold unit_step, manhattan, in_grid, in_domain. simpl. lia.
Qed.

Lemma warehouse_graph_adjacency_witness :
  let r := corner_robot in
  rect 2 2 corner_obs /\
  (graph_adj (create_graph r) (0, 0) (0, 1) <->
   graph_adj (_create_graph corner_obs) (0, 0) (0, 1)).
Proof.
  assert (Z.of_nat 2 = dom2 (_robot_domain corner_robot)
                       - dom0 (_robot_domain corner_robot) + 1) as HH by reflexivity.
  assert (Z.of_nat 2 = dom3 (_robot_domain corner_robot)
                       - dom1 (_robot_domain corner_robot) + 1) as HW by reflexivity.
  cbv zeta. split; [exact corner_obs_rect|].
  exact (proj2 (proj2 (warehouse_graph_adjacency corner_robot (0, 0) (0, 1)))
           2%nat 2%nat corner_obs corner_obs_rect HH HW).
Defined.

(** ** The neighbours of a robot *)

(** X29: [_get_robot_neighbors] and the layout of [_place_robots].  The
    robots are numbered row by row, [n_robots_column] to a row, but the
    list of neighbours is computed with the stride [n_robots_row]: it is
    the list of the eight layout cells around each cell [(i, j)] (right,
    below right, below, below left, left, above left, above, above right)
    exactly when the layout has as many rows as columns.  Nothing is checked
    against the edges of the layout. *)
Theorem robot_neighbors_match_square_layouts (p : Parameters) :
  (forall i j,
     _get_robot_neighbors p (layout_id p i j)
     = [layout_id p i (j + 1); layout_id p (i + 1) (j + 1); layout_id p (i + 1) j;
        layout_id p (i + 1) (j - 1); layout_id p i (j - 1);
        layout_id p (i - 1) (j - 1); layout_id p (i - 1) j;
        layout_id p (i - 1) (j + 1)])
  <-> n_robots_row p = n_robots_column p.
Proof.
  unfold _get_robot_neighbors, layout_id. split.
  - intros H. specialize (H 0 0).
    apply (f_equal (fun l : list Z => l !! 2%nat)) in H. simpl in H.
    injection H as H. lia.
  - intros ->. intros i j. do 7 (f_equal; [lia|]). f_equal. lia.
Qed.

(** *** Towards the item that has waited least *)

Section OldestFacts.

Context {PyState : Type} {py : PyRandom PyState}.
Variable all_pairs_dijkstra_path : Graph -> PathDict.

(** X30: [select_naive_action2] steps towards its target.  Let the
    observation have the shape of the robot's domain, the robot be inside its
    domain, its path table be the one networkx builds for the graph of the
    observation, and some item lie in the domain but none on the robot's own
    cell.  Then the policy draws no random number and returns one of the
    actions 0..3; its target is the first item of the domain, in roster
    order, among those of least waiting time, and [act] with the returned
    action moves the robot one cell closer to the target, inside its
    domain. *)
Theorem naive_action2_approaches_target
    (H W : nat) (r : Robot) (obs : list (list Z)) (its : list Item) (g : PyState) :
  let d := _robot_domain r in
  let graph := _create_graph obs in
  let r' := ensure_graph all_pairs_dijkstra_path r obs in
  let region := filter (fun it => in_domain d (get_position it)) its in
  rect H W obs ->
  Z.of_nat H = dom2 d - dom0 d + 1 -> Z.of_nat W = dom3 d - dom1 d + 1 ->
  in_domain d (_pos r) ->
  (_graph r <> None -> _path_dict r = Some (all_pairs_dijkstra_path graph)) ->
  shortest_on_cells H W graph (all_pairs_dijkstra_path graph) ->
  region <> [] ->
  (forall it, it ∈ region -> get_position it <> _pos r) ->
  exists a k target r'',
    select_naive_action2 all_pairs_dijkstra_path r obs its g = Ok (Some a, r', g) /\
    0 <= a <= 3 /\
    region !! k = Some target /\
    (forall it, it ∈ region -> get_waiting_time target <= get_waiting_time it) /\
    (forall k' it, (k' < k)%nat -> region !! k' = Some it ->
                   get_waiting_time target < get_waiting_time it) /\
    act r' a = Ok r'' /\ in_domain d (_pos r'') /\
    manhattan (_pos r'') (get_position target)
    = manhattan (_pos r) (get_position target) - 1.
Proof.
  intros d graph r' region Hrect HH HW Hin Hcache Htable Hne Hfree.
  destruct (ensure_graph_keeps all_pairs_dijkstra_path r obs) as (Hpos & Hdom & Hspace).
  fold r' in Hpos, Hdom, Hspace.
  assert (_get_items_robot_region r' its = region) as Hregion.
  { unfold _get_items_robot_region. by rewrite Hdom. }
  assert (relative_pos r' = relative_pos r) as Hrel.
  { unfold relative_pos. by rewrite Hpos, Hdom. }
  pose proof (ensure_graph_table _ r obs Hcache) as Hdict. fold r' graph in Hdict.
  pose proof (oldest_loop_found region [] (None, None) eq_refl) as Hfound.
  simpl in Hfound.
  destruct (oldest_loop 0 region (None, None)) as [[wt|] [k|]] eqn:Hloop;
    simpl in Hfound; try done.
  destruct Hfound as (target & Hk & Hw & Hmin & Hfirst). subst wt.
  assert (target ∈ region) as Htarget by by eapply list_elem_of_lookup_2.
  pose proof Htarget as Htin. unfold region in Htin.
  apply list_elem_of_filter in Htin as [[Hti Htj] _].
  set (u := relative_pos r). set (t := item_relative_pos r target).
  assert (in_grid H W u) as Hu.
  { destruct Hin as [Hi Hj]. unfold in_grid, u, relative_pos. fold d. simpl. lia. }
  assert (in_grid H W t) as Ht.
  { unfold in_grid, t, item_relative_pos. fold d. simpl. lia. }
  destruct (Htable u t Hu Ht) as (p & Hp & _ & _).
  { exists (manhattan_path u t).
    eapply grid_path_is_path; [done|]. by apply manhattan_path_grid. }
  destruct (table_path_grid H W obs _ _ _ p Hrect Htable Hu Ht Hp) as [Hpath Hlen].
  assert (u <> t) as Hut.
  { intros Heq. apply (Hfree target Htarget).
    unfold u, t, relative_pos, item_relative_pos in Heq. fold d in Heq.
    injection Heq as H1 H2.
    destruct (get_position target) as [a b], (_pos r) as [a' b']. simpl in *.
    f_equal; lia. }
  pose proof (manhattan_nonneg u t) as Hnn.
  assert (manhattan u t <> 0) as Hpos' by (intros H0; by apply manhattan_zero in H0).
  destruct (first_action_of_grid_path H W _ _ p Hpath ltac:(lia))
    as (a & w & Hw1 & Hact & Ha & Hcand).
  destruct (manhattan_step_closer H W u t p w Hpath Hlen Hw1) as [Hwgrid Hcloser].
  assert (candidate (_pos r') a = Ok (w.1 + dom0 d, w.2 + dom1 d)) as Hglobal.
  { rewrite Hpos. apply candidate_shift. exact Hcand. }
  assert (in_domain (_robot_domain r') (w.1 + dom0 d, w.2 + dom1 d)) as Hwin.
  { rewrite Hdom. fold d. destruct Hwgrid as [Hwi Hwj]. unfold in_domain. simpl. lia. }
  destruct (set_position_spec r' (w.1 + dom0 d, w.2 + dom1 d)) as (Hd' & Hp' & _).
  specialize (Hp' Hwin).
  exists a, k, target, (set_position r' (w.1 + dom0 d, w.2 + dom1 d)).
  split.
  { unfold select_naive_action2. fold r'. rewrite Hregion.
    unfold _path_to_oldest_item. rewrite Hloop. simpl.
    rewrite decide_True by (destruct region; [done | simpl; lia]).
    rewrite Hk, Hrel, Hdom. fold d. fold u.
    change ((get_position target).1 - dom0 d, (get_position target).2 - dom1 d)
      with t.
    unfold path_lookup. rewrite Hdict, Hp. cbn [mbind res_bind].
    unfold action_of_path. rewrite decide_False by lia. rewrite Hact. done. }
  split; [done|]. split; [done|]. split; [done|]. split; [done|].
  split; [unfold act; by rewrite Hglobal|].
  split; [rewrite Hp'; rewrite Hdom in Hwin; exact Hwin|].
  rewrite Hp'. unfold manhattan in *. unfold u, t, relative_pos, item_relative_pos in Hcloser.
  fold d in Hcloser. simpl in *. lia.
Qed.

End OldestFacts.

Lemma naive_action2_approaches_target_witness :
  let r := corner_robot in
  let r' := ensure_graph manhattan_apsp r corner_obs in
  let region :=
    filter (fun it => in_domain (_robot_domain r) (get_position it)) corner_items in
  rect 2 2 corner_obs /\ in_domain (_robot_domain r) (_pos r) /\
  shortest_on_cells 2 2 (_create_graph corner_obs)
                    (manhattan_apsp (_create_graph corner_obs)) /\
  region <> [] /\
  (forall it, it ∈ region -> get_position it <> _pos r) /\
  exists a target r'',
    select_naive_action2 manhattan_apsp r corner_obs corner_items (2 : Z)
    = Ok (Some a, r', 2) /\
    act r' a = Ok r'' /\
    manhattan (_pos r'') (get_position target)
    = manhattan (_pos r) (get_position target) - 1.
Proof.
  assert (Z.of_nat 2 = dom2 (_robot_domain corner_robot)
                       - dom0 (_robot_domain corner_robot) + 1) as HH by reflexivity.
  assert (Z.of_nat 2 = dom3 (_robot_domain corner_robot)
                       - dom1 (_robot_domain corner_robot) + 1) as HW by reflexivity.
  assert (in_domain (_robot_domain corner_robot) (_pos corner_robot)) as Hin
    by (unfold in_domain; simpl; lia).
  assert (_graph corner_robot <> None ->
          _path_dict corner_robot
          = Some (manhattan_apsp (_create_graph corner_obs))) as Hcache
    by (intros Hg; by destruct Hg).
  assert (shortest_on_cells 2 2 (_create_graph corner_obs)
            (manhattan_apsp (_create_graph corner_obs))) as Htable
    by exact (manhattan_table_shortest 2 2 corner_obs corner_obs_rect).
  assert (filter (fun it => in_domain (_robot_domain corner_robot) (get_position it))
                 corner_items <> []) as Hne
    by (vm_compute; intros Hnil; discriminate Hnil).
  assert (forall it,
            it ∈ filter (fun it => in_domain (_robot_domain corner_robot)
                                             (get_position it)) corner_items ->
            get_position it <> _pos corner_robot) as Hfree.
  { intros it Hit. apply list_elem_of_filter in Hit as [_ Hit].
    unfold corner_items in Hit.
    repeat (apply elem_of_cons in Hit as [->|Hit]); try (intros Heq; discriminate Heq).
    by apply elem_of_nil in Hit. }
  cbv zeta. split; [exact corner_obs_rect|]. split; [exact Hin|].
  split; [exact Htable|]. split; [exact Hne|]. split; [exact Hfree|].
  destruct (naive_action2_approaches_target manhattan_apsp 2 2 corner_robot
              corner_obs corner_items (2 : Z) corner_obs_rect HH HW Hin Hcache Htable
              Hne Hfree)
    as (a & k & target & r'' & Hsel & _ & _ & _ & _ & Hact & _ & Hcloser).
  exists a, target, r''. split; [exact Hsel|]. split; [exact Hact | exact Hcloser].
Defined.
